(** * MedStats-PRO: the record classification and aggregation engine

    A shallow embedding of [src/utils/dataProcessor.ts] ([normalize],
    [classifyRecord], [getSummaryBySpecialist]) and of the [dateRange]
    computation of [src/App.tsx], followed by the properties of the
    specification that concern them.

    The TypeScript code runs on a JavaScript engine.  What the engine
    provides and the repository does not contain is kept apart from the
    program:
    - the Unicode character data behind [String.prototype.normalize] and
      [String.prototype.toUpperCase] is a record [UnicodeData];
    - [Date.parse], whose behaviour outside the ISO format is left to the
      implementation by ECMAScript, and [Array.prototype.sort], whose order
      is left to the implementation when the comparator is not consistent,
      are variables of the section [Engine], constrained only by what
      ECMAScript fixes;
    - the procedure lists of [src/constants] are variables of that section.

    Reference instances ([ucd_latin], [Date_parse_iso], [stable_sort]) make
    every definition executable. *)

From Stdlib Require Import List NArith ZArith Bool Lia Permutation Sorted.
From Stdlib Require Import String Ascii.
Import ListNotations.

Local Open Scope N_scope.

(* ================================================================== *)
(** * JavaScript strings *)

(** A JavaScript string is a sequence of UTF-16 code units. *)
Definition codeunit := N.
Definition jsstring := list codeunit.

(** String literals of the source, all of them ASCII. *)
Definition js (s : string) : jsstring :=
  map N_of_ascii (list_ascii_of_string s).

Definition jsstring_eqb (s t : jsstring) : bool :=
  if list_eq_dec N.eq_dec s t then true else false.

(** The empty string, ['']. *)
Definition empty : jsstring := [].

(** [v || d] on a value that is a string or missing ([undefined]): the
    empty string and the missing value are the falsy ones. *)
Definition or_else (v : option jsstring) (d : jsstring) : jsstring :=
  match v with
  | Some (c :: s) => c :: s
  | Some [] | None => d
  end.

(** ** UTF-16 *)

Definition is_high_surrogate (c : N) : bool := (0xD800 <=? c) && (c <=? 0xDBFF).
Definition is_low_surrogate (c : N) : bool := (0xDC00 <=? c) && (c <=? 0xDFFF).

(** Code points of a string; a surrogate that is not part of a pair stands
    for itself. *)
Fixpoint code_points (s : jsstring) : list N :=
  match s with
  | [] => []
  | hi :: rest =>
      match rest with
      | lo :: rest' =>
          if is_high_surrogate hi && is_low_surrogate lo
          then (0x10000 + (hi - 0xD800) * 0x400 + (lo - 0xDC00)) :: code_points rest'
          else hi :: code_points rest
      | [] => [hi]
      end
  end.

Definition utf16_units (cp : N) : jsstring :=
  if cp <? 0x10000 then [cp]
  else [0xD800 + (cp - 0x10000) / 0x400; 0xDC00 + (cp - 0x10000) mod 0x400].

Definition from_code_points (l : list N) : jsstring := flat_map utf16_units l.

(** ** Unicode character data

    The three properties of the Unicode Character Database that
    [normalize("NFD")] and [toUpperCase()] read: the full canonical
    decomposition of a code point (itself when it has none), its canonical
    combining class, and its full upper-case mapping (itself when it has
    none). *)
Record UnicodeData := {
  canonical_decomposition : N -> list N;
  combining_class : N -> N;
  upper_case : N -> list N
}.

Section Unicode.
Variable U : UnicodeData.

(** Canonical ordering: within a run of characters of non-zero combining
    class, a stable sort by class. *)
Fixpoint insert_mark (c : N) (l : list N) : list N :=
  match l with
  | d :: l' =>
      if (0 <? combining_class U d) && (combining_class U d <? combining_class U c)
      then d :: insert_mark c l'
      else c :: l
  | [] => [c]
  end.

Definition canonical_order (l : list N) : list N :=
  fold_right
    (fun c r => if combining_class U c =? 0 then c :: r else insert_mark c r)
    [] l.

(** [s.normalize("NFD")] *)
Definition normalize_NFD (s : jsstring) : jsstring :=
  from_code_points
    (canonical_order (flat_map (canonical_decomposition U) (code_points s))).

(** [s.toUpperCase()] *)
Definition toUpperCase (s : jsstring) : jsstring :=
  from_code_points (flat_map (upper_case U) (code_points s)).
End Unicode.

(** ** Regular expressions and trimming *)

(** The class [\s] of a regular expression, which is also what [trim]
    removes: WhiteSpace and LineTerminator. *)
Definition is_whitespace (c : codeunit) : bool :=
  ((9 <=? c) && (c <=? 13)) || (c =? 32) || (c =? 0xA0) || (c =? 0x1680)
  || ((0x2000 <=? c) && (c <=? 0x200A))
  || (c =? 0x2028) || (c =? 0x2029) || (c =? 0x202F) || (c =? 0x205F)
  || (c =? 0x3000) || (c =? 0xFEFF).

(** The class of the first [replace]: U+0300..U+036F, the block of combining
    diacritical marks. *)
Definition is_accent (c : codeunit) : bool := (0x300 <=? c) && (c <=? 0x36F).

(** [/[().,;:-]/] *)
Definition is_punctuation (c : codeunit) : bool :=
  (c =? 40) || (c =? 41) || (c =? 46) || (c =? 44) || (c =? 59) || (c =? 58)
  || (c =? 45).

Definition space : codeunit := 32.

(** The first [replace] of [normalize]: every code unit of that block is
    deleted. *)
Definition remove_accents (s : jsstring) : jsstring :=
  filter (fun c => negb (is_accent c)) s.

(** [.replace(/[().,;:-]/g, ' ')] *)
Definition replace_punctuation (s : jsstring) : jsstring :=
  map (fun c => if is_punctuation c then space else c) s.

(** [.replace(/\s+/g, ' ')]: every maximal run of white space becomes one
    space.  [in_run] tells that the previous code unit was white space. *)
Fixpoint collapse_from (in_run : bool) (s : jsstring) : jsstring :=
  match s with
  | [] => []
  | c :: r =>
      if is_whitespace c
      then (if in_run then collapse_from true r else space :: collapse_from true r)
      else c :: collapse_from false r
  end.

Definition collapse_spaces (s : jsstring) : jsstring := collapse_from false s.

Fixpoint trimStart (s : jsstring) : jsstring :=
  match s with
  | c :: r => if is_whitespace c then trimStart r else s
  | [] => []
  end.

Definition trimEnd (s : jsstring) : jsstring := rev (trimStart (rev s)).

(** [s.trim()] *)
Definition trim (s : jsstring) : jsstring := trimEnd (trimStart s).

(** ** Searching and splitting *)

Fixpoint starts_with (t s : jsstring) : bool :=
  match t, s with
  | [], _ => true
  | a :: t', b :: s' => (a =? b) && starts_with t' s'
  | _ :: _, [] => false
  end.

(** [s.includes(t)] *)
Fixpoint includes (s t : jsstring) : bool :=
  starts_with t s ||
  match s with
  | [] => false
  | _ :: s' => includes s' t
  end.

(** [s.split(re)] for a regular expression [re] that matches exactly one
    code unit of the class [sep]. *)
Fixpoint split (sep : codeunit -> bool) (s : jsstring) : list jsstring :=
  match s with
  | [] => [[]]
  | c :: r =>
      if sep c then [] :: split sep r
      else match split sep r with
           | p :: ps => (c :: p) :: ps
           | [] => [[c]]
           end
  end.

(* ================================================================== *)
(** * src/utils/dataProcessor.ts: normalize *)

Section Normalize.
Variable U : UnicodeData.

Definition normalize (str : jsstring) : jsstring :=
  trim
    (collapse_spaces
       (replace_punctuation
          (toUpperCase U
             (remove_accents
                (normalize_NFD U (or_else (Some str) empty)))))).
End Normalize.

(* ================================================================== *)
(** * Reference Unicode data

    The rows of the Unicode Character Database for Basic Latin and Latin-1
    Supplement (U+0000..U+00FF), for the combining marks that their
    decompositions produce, and for the few further characters named below.
    Every other code point is given no decomposition, class 0 and no case
    mapping; the examples evaluated with this table stay within the rows it
    copies. *)

Definition latin1_decompositions : list (N * list N) :=
  [ (192, [65; 768]); (193, [65; 769]); (194, [65; 770]); (195, [65; 771]);
    (196, [65; 776]); (197, [65; 778]); (199, [67; 807]); (200, [69; 768]);
    (201, [69; 769]); (202, [69; 770]); (203, [69; 776]); (204, [73; 768]);
    (205, [73; 769]); (206, [73; 770]); (207, [73; 776]); (209, [78; 771]);
    (210, [79; 768]); (211, [79; 769]); (212, [79; 770]); (213, [79; 771]);
    (214, [79; 776]); (217, [85; 768]); (218, [85; 769]); (219, [85; 770]);
    (220, [85; 776]); (221, [89; 769]); (224, [97; 768]); (225, [97; 769]);
    (226, [97; 770]); (227, [97; 771]); (228, [97; 776]); (229, [97; 778]);
    (231, [99; 807]); (232, [101; 768]); (233, [101; 769]); (234, [101; 770]);
    (235, [101; 776]); (236, [105; 768]); (237, [105; 769]); (238, [105; 770]);
    (239, [105; 776]); (241, [110; 771]); (242, [111; 768]); (243, [111; 769]);
    (244, [111; 770]); (245, [111; 771]); (246, [111; 776]); (249, [117; 768]);
    (250, [117; 769]); (251, [117; 770]); (252, [117; 776]); (253, [121; 769]);
    (255, [121; 776]) ].

(** Canonical combining classes: grave, acute, circumflex, tilde, diaeresis
    and ring above (230), cedilla (202), COMBINING GRAPHEME JOINER U+034F
    (0), COMBINING CYRILLIC TITLO U+0483 (230), HEBREW ACCENT ETNAHTA U+0591
    (220). *)
Definition latin_combining_classes : list (N * N) :=
  [ (0x300, 230); (0x301, 230); (0x302, 230); (0x303, 230); (0x308, 230);
    (0x30A, 230); (0x327, 202); (0x34F, 0); (0x483, 230); (0x591, 220) ].

Fixpoint table_lookup {A : Type} (t : list (N * A)) (c : N) : option A :=
  match t with
  | [] => None
  | (k, v) :: t' => if k =? c then Some v else table_lookup t' c
  end.

(** Upper-case mappings of U+0000..U+00FF: a..z, the Latin-1 letters
    U+00E0..U+00FE except the division sign, sharp s (to SS), y with
    diaeresis (to U+0178) and the micro sign (to U+039C). *)
Definition latin1_upper (c : N) : list N :=
  if (97 <=? c) && (c <=? 122) then [c - 32]
  else if c =? 181 then [924]
  else if c =? 223 then [83; 83]
  else if c =? 247 then [c]
  else if (224 <=? c) && (c <=? 254) then [c - 32]
  else if c =? 255 then [376]
  else [c].

Definition ucd_latin : UnicodeData :=
  {| canonical_decomposition c :=
       match table_lookup latin1_decompositions c with
       | Some d => d
       | None => [c]
       end;
     combining_class c :=
       match table_lookup latin_combining_classes c with
       | Some k => k
       | None => 0
       end;
     upper_case := latin1_upper |}.


(** What the Unicode Character Database says of Basic Latin: no
    decomposition, class 0, and a..z as the only letters with an upper-case
    mapping. *)
Definition basic_latin (U : UnicodeData) : Prop :=
  forall c, c < 128 ->
    canonical_decomposition U c = [c] /\
    combining_class U c = 0 /\
    upper_case U c = latin1_upper c.

(** What the Unicode Character Database says of Basic Latin and Latin-1
    Supplement, and of GREEK CAPITAL LETTER MU, U+039C, to which the micro
    sign upper-cases. *)
Definition latin1 (U : UnicodeData) : Prop :=
  (forall c, c < 256 ->
     canonical_decomposition U c = canonical_decomposition ucd_latin c /\
     combining_class U c = 0 /\
     upper_case U c = latin1_upper c) /\
  canonical_decomposition U 0x39C = [0x39C] /\
  combining_class U 0x39C = 0 /\
  upper_case U 0x39C = [0x39C].

(** The letter of a character of Latin-1: what remains of its decomposition
    without the mark. *)
Definition base_letter (c : N) : N :=
  match canonical_decomposition ucd_latin c with
  | [b; _] => b
  | _ => c
  end.

Definition code_points_eqb (l m : list N) : bool :=
  if list_eq_dec N.eq_dec l m then true else false.

(** A character of Latin-1 without decomposition and without upper-case
    mapping, or U+039C. *)
Definition latin1_upper_image (e : N) : bool :=
  (e <? 256) && code_points_eqb (canonical_decomposition ucd_latin e) [e]
  && code_points_eqb (latin1_upper e) [e]
  || (e =? 0x39C).

(** The row of a character of Latin-1 in [ucd_latin]: no decomposition, or
    a letter of Basic Latin and a mark of the block U+0300..U+036F; and the
    letter upper-cases to characters as above. *)
Definition latin1_row (c : N) : bool :=
  match canonical_decomposition ucd_latin c with
  | [d] => (d =? c) && forallb latin1_upper_image (latin1_upper c)
  | [b; m] => (b <? 128) && is_accent m && forallb latin1_upper_image (latin1_upper b)
  | _ => false
  end.

(* ================================================================== *)
(** * JavaScript numbers, sorting and dates *)

(** A number that is an integer or [NaN].  The numbers of this program are
    counters and time values: integers below 2^53 in absolute value, which
    the floating-point type holds exactly.  A difference of two time values
    may be rounded, which does not change its sign, the only thing a
    comparator's result is read for. *)
Definition JSNumber := option Z.
Definition NaN : JSNumber := None.

Definition minus (a b : JSNumber) : JSNumber :=
  match a, b with
  | Some x, Some y => Some (x - y)%Z
  | _, _ => NaN
  end.

(** ** Array.prototype.sort *)

(** The abstract operation SortCompare of ECMAScript on two defined
    elements: the comparator's result, with [NaN] read as [+0]. *)
Definition SortCompare {A : Type} (comparefn : A -> A -> JSNumber) (x y : A) : Z :=
  match comparefn x y with
  | Some v => v
  | None => 0%Z
  end.

(** A consistent comparator for the elements of [l], after the definition
    of ECMAScript: it never returns [NaN] and its sign is a total preorder. *)
Definition consistent {A : Type} (comparefn : A -> A -> JSNumber) (l : list A) : Prop :=
  (forall a b, In a l -> In b l -> comparefn a b <> NaN) /\
  (forall a, In a l -> SortCompare comparefn a a = 0%Z) /\
  (forall a b, In a l -> In b l ->
     (SortCompare comparefn a b < 0 <-> SortCompare comparefn b a > 0)%Z) /\
  (forall a b c, In a l -> In b l -> In c l ->
     (SortCompare comparefn a b <= 0 -> SortCompare comparefn b c <= 0 ->
      SortCompare comparefn a c <= 0)%Z).

(** The stable sort: for a consistent comparator ECMAScript leaves no other
    result (the order is sorted for the comparator, and elements that
    compare equal keep their order). *)
Fixpoint insert_sorted {A : Type} (comparefn : A -> A -> JSNumber) (x : A) (l : list A) : list A :=
  match l with
  | [] => [x]
  | y :: l' =>
      if (SortCompare comparefn x y <=? 0)%Z then x :: l
      else y :: insert_sorted comparefn x l'
  end.

Definition stable_sort {A : Type} (comparefn : A -> A -> JSNumber) (l : list A) : list A :=
  fold_right (insert_sorted comparefn) [] l.

(** What ECMAScript fixes of [Array.prototype.sort] on an array without
    holes: the result holds the same elements, and for a consistent
    comparator it is the stable sort. *)
Definition sort_conforms (sort : forall A : Type, (A -> A -> JSNumber) -> list A -> list A) : Prop :=
  (forall A (comparefn : A -> A -> JSNumber) l, Permutation l (sort A comparefn l)) /\
  (forall A (comparefn : A -> A -> JSNumber) l,
     consistent comparefn l -> sort A comparefn l = stable_sort comparefn l).

(** ** Date.parse on the date-only ISO form *)

Definition is_digit (c : codeunit) : bool := (48 <=? c) && (c <=? 57).

Fixpoint decimal_from (acc : N) (s : jsstring) : option N :=
  match s with
  | [] => Some acc
  | c :: r => if is_digit c then decimal_from (10 * acc + (c - 48)) r else None
  end.

(** The digits of [s] as a number, when [s] is made of digits only. *)
Definition decimal (s : jsstring) : option N :=
  match s with
  | [] => None
  | _ => decimal_from 0 s
  end.

Definition is_leap_year (y : Z) : bool :=
  ((y mod 4 =? 0) && negb (y mod 100 =? 0) || (y mod 400 =? 0))%Z.

Definition DaysInMonth (y : Z) (m : N) : N :=
  match m with
  | 2 => if is_leap_year y then 29 else 28
  | 4 | 6 | 9 | 11 => 30
  | _ => 31
  end.

(** Days of the year before the first day of month [m] (1..12). *)
Definition days_before_month (y : Z) (m : N) : Z :=
  (nth (N.to_nat (m - 1)) [0; 31; 59; 90; 120; 151; 181; 212; 243; 273; 304; 334] 0
   + (if is_leap_year y && (2 <? m)%N then 1 else 0))%Z.

(** DayFromYear of ECMAScript. *)
Definition DayFromYear (y : Z) : Z :=
  (365 * (y - 1970) + (y - 1969) / 4 - (y - 1901) / 100 + (y - 1601) / 400)%Z.

Definition msPerDay : Z := 86400000.

(** The time value of [YYYY-MM-DD] (midnight UTC) for a date of the
    calendar; [NaN] for any other string.  On these strings every
    implementation of [Date.parse] agrees. *)
Definition Date_parse_iso (s : jsstring) : JSNumber :=
  match s with
  | [y1; y2; y3; y4; 45; m1; m2; 45; d1; d2] =>
      match decimal [y1; y2; y3; y4], decimal [m1; m2], decimal [d1; d2] with
      | Some y, Some m, Some d =>
          if (1 <=? m) && (m <=? 12) && (1 <=? d) && (d <=? DaysInMonth (Z.of_N y) m)
          then Some ((DayFromYear (Z.of_N y) + days_before_month (Z.of_N y) m
                      + (Z.of_N d - 1)) * msPerDay)%Z
          else NaN
      | _, _, _ => NaN
      end
  | _ => NaN
  end.

(** What ECMAScript fixes of [Date.parse] for this program. *)
Definition parse_conforms (parse : jsstring -> JSNumber) : Prop :=
  forall s t, Date_parse_iso s = Some t -> parse s = Some t.

(* ================================================================== *)
(** * Ordinary objects used as maps *)

(** The own properties of an object created by [{}], in creation order. *)
Definition JSObject (V : Type) := list (jsstring * V).

Fixpoint get_own {V : Type} (o : JSObject V) (k : jsstring) : option V :=
  match o with
  | [] => None
  | (k', v) :: o' => if jsstring_eqb k' k then Some v else get_own o' k
  end.

(** [o[k] = v]: an existing property keeps its place, a new one is created
    last. *)
Fixpoint set_own {V : Type} (o : JSObject V) (k : jsstring) (v : V) : JSObject V :=
  match o with
  | [] => [(k, v)]
  | (k', v') :: o' =>
      if jsstring_eqb k' k then (k', v) :: o' else (k', v') :: set_own o' k v
  end.

(** The property names that [{}] inherits from [Object.prototype]. *)
Definition Object_prototype_names : list jsstring :=
  map js [ "constructor"; "__defineGetter__"; "__defineSetter__"; "hasOwnProperty";
           "__lookupGetter__"; "__lookupSetter__"; "isPrototypeOf";
           "propertyIsEnumerable"; "toString"; "valueOf"; "__proto__";
           "toLocaleString" ]%string.

Definition inherited (k : jsstring) : bool :=
  existsb (jsstring_eqb k) Object_prototype_names.

(** An array index: the canonical decimal form of an integer below
    2^32 - 1. *)
Definition array_index (k : jsstring) : option N :=
  match k with
  | [] => None
  | c :: r =>
      if (c =? 48) && negb (match r with [] => true | _ => false end) then None
      else match decimal k with
           | Some n => if n <? 2 ^ 32 - 1 then Some n else None
           | None => None
           end
  end.

Definition is_index (k : jsstring) : bool :=
  match array_index k with Some _ => true | None => false end.

Definition index_of (k : jsstring) : N :=
  match array_index k with Some n => n | None => 0 end.

Fixpoint insert_by_index (k : jsstring) (l : list jsstring) : list jsstring :=
  match l with
  | [] => [k]
  | k' :: l' =>
      if index_of k <=? index_of k' then k :: l
      else k' :: insert_by_index k l'
  end.

(** OrdinaryOwnPropertyKeys, from the names in creation order: the array
    indices in ascending numeric order, then the other names in creation
    order. *)
Definition OrdinaryOwnPropertyKeys (names : list jsstring) : list jsstring :=
  fold_right insert_by_index [] (filter is_index names)
  ++ filter (fun k => negb (is_index k)) names.

(** [Object.values(o)]: the value of each own property, in the order of
    OrdinaryOwnPropertyKeys. *)
Definition Object_values {V : Type} (o : JSObject V) : list V :=
  flat_map (fun k => match get_own o k with Some v => [v] | None => [] end)
           (OrdinaryOwnPropertyKeys (map fst o)).

Definition is_lower_case_letter (c : codeunit) : bool := (97 <=? c) && (c <=? 122).

(** No upper-case mapping of the Unicode Character Database yields a
    letter a..z. *)
Definition upper_case_without_lower (U : UnicodeData) : Prop :=
  forall c e, In e (upper_case U c) -> is_lower_case_letter e = false.

(** The outcome of a call: a value, or a TypeError thrown. *)
Inductive Completion (A : Type) : Type :=
| Normal (a : A)
| Throw_TypeError.
Arguments Normal {A} a.
Arguments Throw_TypeError {A}.

(* ================================================================== *)
(** * src/types: the data model *)

Inductive Subcategory : Type := CONTRASTADOS | ESPECIALES | STANDARD.

(** The name of a subcategory, as the key of [subcategories]. *)
Definition Subcategory_name (c : Subcategory) : jsstring :=
  match c with
  | CONTRASTADOS => js "CONTRASTADOS"
  | ESPECIALES => js "ESPECIALES"
  | STANDARD => js "STANDARD"
  end.

(** [interface RadiologyRecord].  The fields are declared [string]; [None]
    is a field missing at run time, which every use in the program guards
    against with [||] or [&&]. *)
Record RadiologyRecord := {
  id_paciente : option jsstring;
  nombre_paciente : option jsstring;
  descripcion : option jsstring;
  region : option jsstring;
  fecha_realizado : option jsstring;
  modalidad : option jsstring;
  realizado_por : option jsstring;
  estado_reporte : option jsstring;
  fecha_reporte : option jsstring;
  subcategory : Subcategory
}.

(** [{ ...record, subcategory }] *)
Definition with_subcategory (record : RadiologyRecord) (c : Subcategory) : RadiologyRecord :=
  {| id_paciente := id_paciente record;
     nombre_paciente := nombre_paciente record;
     descripcion := descripcion record;
     region := region record;
     fecha_realizado := fecha_realizado record;
     modalidad := modalidad record;
     realizado_por := realizado_por record;
     estado_reporte := estado_reporte record;
     fecha_reporte := fecha_reporte record;
     subcategory := c |}.

(** [interface SummaryBySpecialist] *)
Record SummaryBySpecialist := {
  specialist : jsstring;
  totalStudies : N;
  modalities : JSObject N;
  subcategories : JSObject N
}.

(** The value of [dateRange]; a bound is [None] when the array element it
    is read from does not exist ([undefined]). *)
Record DateRange := {
  min : option jsstring;
  max : option jsstring
}.

(** ** Sample records *)

(** A study of specialist [who], with modality [modality], description
    [description] and date performed [date]. *)
Definition study (who modality description date : string) (c : Subcategory) :
  RadiologyRecord :=
  {| id_paciente := Some (js "P-001");
     nombre_paciente := Some (js "PACIENTE");
     descripcion := Some (js description);
     region := Some (js "TORAX");
     fecha_realizado := Some (js date);
     modalidad := Some (js modality);
     realizado_por := Some (js who);
     estado_reporte := Some (js "FINAL");
     fecha_reporte := Some (js date);
     subcategory := c |}.

(** [ALLOWED_MODALITIES] of [src/App.tsx]. *)
Definition ALLOWED_MODALITIES : list jsstring := map js ["CT"; "US"; "CR"; "MG"]%string.

(** ** Notions of the specification *)

(** The distinct elements of [names] in order of first appearance. *)
Fixpoint first_seen (names : list jsstring) : list jsstring :=
  match names with
  | [] => []
  | k :: rest => k :: filter (fun k' => negb (jsstring_eqb k' k)) (first_seen rest)
  end.

Definition Subcategory_eqb (a b : Subcategory) : bool :=
  match a, b with
  | CONTRASTADOS, CONTRASTADOS | ESPECIALES, ESPECIALES | STANDARD, STANDARD => true
  | _, _ => false
  end.

(** A count as the value of a property that is created by its first
    increment: no property for nothing counted. *)
Definition counted (n : nat) : option N :=
  match n with
  | O => None
  | S _ => Some (N.of_nat n)
  end.

(* ================================================================== *)
(** * The data of the charts and of the exports *)

(** [interface ChartDataPoint] of [src/types]. *)
Module ChartDataPoint.
Record t := { name : jsstring; value : N }.
End ChartDataPoint.

(** A row of the table of [exportToWord]: the object that [specStats]
    holds for a specialist. *)
Record SpecStats := {
  name : jsstring;
  total : N;
  ct_std : N;
  ct_cont : N;
  cr_std : N;
  cr_esp : N;
  mg : N;
  us : N;
  otros : N
}.

(** A row of the sheet of [exportToExcel]: the object that [summaryMap]
    holds for a key.  [Fecha] and [Modalidad] are fields of a record as
    they are, missing when the field is. *)
Record SummaryRow := {
  Fecha : option jsstring;
  Modalidad : option jsstring;
  Subcategoria : Subcategory;
  Cantidad : N
}.

(** [`${v}`] for a value that is a string or missing. *)
Definition template (v : option jsstring) : jsstring :=
  match v with
  | Some s => s
  | None => js "undefined"
  end.

(** [v === s] for a value that is a string or missing. *)
Definition strict_equal (v : option jsstring) (s : jsstring) : bool :=
  match v with
  | Some t => jsstring_eqb t s
  | None => false
  end.

(** [Boolean(v)] *)
Definition truthy (v : option jsstring) : bool :=
  match v with
  | Some (_ :: _) => true
  | Some [] | None => false
  end.

(** [Object.entries(o)] *)
Definition Object_entries {V : Type} (o : JSObject V) : list (jsstring * V) :=
  flat_map (fun k => match get_own o k with Some v => [(k, v)] | None => [] end)
           (OrdinaryOwnPropertyKeys (map fst o)).

(** SameValueZero on values that are strings or missing. *)
Definition same_value (v w : option jsstring) : bool :=
  match v, w with
  | Some s, Some t => jsstring_eqb s t
  | None, None => true
  | _, _ => false
  end.

(** The values of [new Set(l)] in insertion order: the first occurrence of
    each value. *)
Fixpoint Set_values (l : list (option jsstring)) : list (option jsstring) :=
  match l with
  | [] => []
  | v :: rest => v :: filter (fun w => negb (same_value w v)) (Set_values rest)
  end.

(** The order of strings of ECMAScript: code unit by code unit, a proper
    prefix first. *)
Fixpoint code_unit_compare (x y : jsstring) : comparison :=
  match x, y with
  | [], [] => Eq
  | [], _ :: _ => Lt
  | _ :: _, [] => Gt
  | a :: x', b :: y' =>
      match a ?= b with
      | Eq => code_unit_compare x' y'
      | c => c
      end
  end.

(** SortCompare without a comparator, on two strings. *)
Definition default_compare (x y : jsstring) : JSNumber :=
  match code_unit_compare x y with
  | Lt => Some (-1)%Z
  | Eq => Some 0%Z
  | Gt => Some 1%Z
  end.

Definition sum_list (l : list N) : N := fold_right N.add 0 l.


(** [l.findIndex(p)]; [None] is the index -1. *)
Fixpoint findIndex {A : Type} (p : A -> bool) (l : list A) : option nat :=
  match l with
  | [] => None
  | a :: r => if p a then Some 0%nat else option_map S (findIndex p r)
  end.

(** [l.join(sep)] *)
Fixpoint join (sep : jsstring) (l : list jsstring) : jsstring :=
  match l with
  | [] => []
  | a :: r =>
      match r with
      | [] => a
      | _ :: _ => a ++ sep ++ join sep r
      end
  end.

(** The code unit of ['\n']. *)
Definition is_line_feed (c : codeunit) : bool := c =? 10.
(* ================================================================== *)
(** * The engine *)

Section Engine.

(** The engine's Unicode data, [Date.parse] and [Array.prototype.sort]. *)
Variable U : UnicodeData.
Variable Date_parse : jsstring -> JSNumber.
Variable Array_sort : forall A : Type, (A -> A -> JSNumber) -> list A -> list A.

(** The procedure lists of [src/constants]. *)
Variable ESPECIALES_PROCEDURES : list jsstring.
Variable CONTRASTADOS_PROCEDURES : list jsstring.

(** ** src/utils/dataProcessor.ts: classifyRecord *)

Definition classifyRecord (record : RadiologyRecord) : RadiologyRecord :=
  let rawDesc := or_else (descripcion record) empty in
  let descNormalized := normalize U rawDesc in
  let modality := trim (toUpperCase U (or_else (modalidad record) empty)) in
  let hasContrastKeywords :=
    includes descNormalized (js "CONTRASTE")
    || includes descNormalized (js "CONTRASTADO") in
  let subcategory :=
    if hasContrastKeywords then CONTRASTADOS
    else if jsstring_eqb modality (js "CT") then
      let isContrastInList :=
        existsb (fun p => includes descNormalized (normalize U p))
                CONTRASTADOS_PROCEDURES in
      if isContrastInList then CONTRASTADOS else STANDARD
    else if jsstring_eqb modality (js "CR") then
      let isEspecial :=
        existsb (fun p => includes descNormalized (normalize U p))
                ESPECIALES_PROCEDURES in
      if isEspecial then ESPECIALES else STANDARD
    else STANDARD in
  with_subcategory record subcategory.

(** ** src/utils/dataProcessor.ts: getSummaryBySpecialist *)

(** The key of the group of a record: [spec] in the reducer. *)
Definition specialist_key (curr : RadiologyRecord) : jsstring :=
  trim (or_else (realizado_por curr) (js "SIN ASIGNAR")).

(** The key of the modality count of a record: [mod] in the reducer. *)
Definition modality_key (curr : RadiologyRecord) : jsstring :=
  toUpperCase U (trim (or_else (modalidad curr) (js "N/A"))).

(** The summary a group starts with. *)
Definition new_summary (spec : jsstring) : SummaryBySpecialist :=
  {| specialist := spec;
     totalStudies := 0;
     modalities := [];
     subcategories :=
       [ (js "CONTRASTADOS", 0); (js "ESPECIALES", 0); (js "STANDARD", 0) ] |}.

(** [o[k] = (o[k] || 0) + 1] for a key [k] that [o] does not inherit, so
    that the read finds an own property or nothing.  The keys of
    [modalities] are upper-cased, and every name inherited from
    [Object.prototype] has a lower-case letter (see
    [modality_key_not_inherited]). *)
Definition increment (o : JSObject N) (k : jsstring) : JSObject N :=
  set_own o k (match get_own o k with Some n => n | None => 0 end + 1).

(** The three updates of the group's summary for one record.  In
    [subcategories[curr.subcategory]++] the key is one of the three own
    properties that [new_summary] creates, so that the increment is that of
    a number. *)
Definition count_record (s : SummaryBySpecialist) (curr : RadiologyRecord) :
  SummaryBySpecialist :=
  {| specialist := specialist s;
     totalStudies := totalStudies s + 1;
     modalities := increment (modalities s) (modality_key curr);
     subcategories := increment (subcategories s) (Subcategory_name (subcategory curr)) |}.

(** The reducer.  [acc[spec]] is read through the prototype chain: for a
    name that [acc] inherits and does not own it yields a function or
    [Object.prototype] itself, which is truthy, so that no summary is
    created; [totalStudies++] then sets a property of that object, which
    no later read of this program meets, and reading [.modalities[mod]] of
    it throws a TypeError. *)
Definition reducer (acc : JSObject SummaryBySpecialist) (curr : RadiologyRecord) :
  Completion (JSObject SummaryBySpecialist) :=
  let spec := specialist_key curr in
  match get_own acc spec with
  | Some s => Normal (set_own acc spec (count_record s curr))
  | None =>
      if inherited spec then Throw_TypeError
      else Normal (set_own acc spec (count_record (new_summary spec) curr))
  end.

(** [data.reduce(reducer, {})] from the accumulator [acc]. *)
Fixpoint reduce (data : list RadiologyRecord) (acc : JSObject SummaryBySpecialist) :
  Completion (JSObject SummaryBySpecialist) :=
  match data with
  | [] => Normal acc
  | curr :: rest =>
      match reducer acc curr with
      | Normal acc' => reduce rest acc'
      | Throw_TypeError => Throw_TypeError
      end
  end.

(** [(a, b) => b.totalStudies - a.totalStudies] *)
Definition by_total_descending (a b : SummaryBySpecialist) : JSNumber :=
  minus (Some (Z.of_N (totalStudies b))) (Some (Z.of_N (totalStudies a))).

Definition getSummaryBySpecialist (data : list RadiologyRecord) :
  Completion (list SummaryBySpecialist) :=
  match reduce data [] with
  | Normal grouped => Normal (Array_sort _ by_total_descending (Object_values grouped))
  | Throw_TypeError => Throw_TypeError
  end.

(** ** src/App.tsx: dateRange *)

(** [/[\/\-]/] *)
Definition is_slash_or_hyphen (c : codeunit) : bool := (c =? 47) || (c =? 45).

Definition parseDate (s : jsstring) : JSNumber :=
  let parts := split is_slash_or_hyphen s in
  match parts with
  | [p0; p1; p2] =>
      if (List.length p0 =? 2)%nat && (List.length p2 =? 4)%nat
      then Date_parse (p2 ++ js "-" ++ p1 ++ js "-" ++ p0)
      else Date_parse s
  | _ => Date_parse s
  end.

(** [(a, b) => parseDate(a) - parseDate(b)] *)
Definition compareDates (a b : jsstring) : JSNumber :=
  minus (parseDate a) (parseDate b).

(** [f => f && f.trim() !== ''] *)
Definition is_valid_date (f : option jsstring) : bool :=
  match f with
  | Some (c :: s) => negb (jsstring_eqb (trim (c :: s)) empty)
  | Some [] | None => false
  end.

(** The strings among values, all of which pass [is_valid_date]. *)
Definition strings (l : list (option jsstring)) : list jsstring :=
  flat_map (fun f => match f with Some s => [s] | None => [] end) l.

(** [filteredData.map(d => d.fecha_realizado).filter(...)] *)
Definition validDates (filteredData : list RadiologyRecord) : list jsstring :=
  strings (filter is_valid_date (map fecha_realizado filteredData)).

Definition dateRange (filteredData : list RadiologyRecord) : DateRange :=
  match filteredData with
  | [] => {| min := Some empty; max := Some empty |}
  | _ =>
      match validDates filteredData with
      | [] => {| min := Some (js "N/A"); max := Some (js "N/A") |}
      | dates =>
          let sorted := Array_sort _ compareDates dates in
          {| min := nth_error sorted 0;
             max := nth_error sorted (List.length sorted - 1)%nat |}
      end
  end.

(** ** Notions of the specification, continued *)

Definition in_group (k : jsstring) (r : RadiologyRecord) : bool :=
  jsstring_eqb (specialist_key r) k.

(** The records of [data] that belong to the group [k]. *)
Definition group (data : list RadiologyRecord) (k : jsstring) : list RadiologyRecord :=
  filter (in_group k) data.

(** The number of studies of [data] in the group [k]. *)
Definition studies (data : list RadiologyRecord) (k : jsstring) : N :=
  N.of_nat (List.length (group data k)).

Definition has_modality (m : jsstring) (r : RadiologyRecord) : bool :=
  jsstring_eqb (modality_key r) m.

Definition has_subcategory (c : Subcategory) (r : RadiologyRecord) : bool :=
  Subcategory_eqb (subcategory r) c.

(** The names of the groups of [data] in order of first appearance. *)
Definition groups_first_seen (data : list RadiologyRecord) : list jsstring :=
  first_seen (map specialist_key data).

(** The description of a record after normalization, [descNormalized]. *)
Definition normalized_description (record : RadiologyRecord) : jsstring :=
  normalize U (or_else (descripcion record) empty).

(** The modality of a record as the classifier reads it. *)
Definition classifier_modality (record : RadiologyRecord) : jsstring :=
  trim (toUpperCase U (or_else (modalidad record) empty)).

(** A field that is missing, empty or made of white space only. *)
Definition blank (f : option jsstring) : Prop :=
  match f with
  | Some s => forallb is_whitespace s = true
  | None => True
  end.

(** The summary of the group [k] of [data]: its name, the number of its
    studies, a count for each modality key that occurs in it and for no
    other, and the counts of the three subcategories. *)
Definition summarizes (data : list RadiologyRecord) (k : jsstring)
           (s : SummaryBySpecialist) : Prop :=
  specialist s = k /\
  totalStudies s = studies data k /\
  (forall m, get_own (modalities s) m
             = counted (List.length (filter (has_modality m) (group data k)))) /\
  subcategories s
  = [ (js "CONTRASTADOS",
       N.of_nat (List.length (filter (has_subcategory CONTRASTADOS) (group data k))));
      (js "ESPECIALES",
       N.of_nat (List.length (filter (has_subcategory ESPECIALES) (group data k))));
      (js "STANDARD",
       N.of_nat (List.length (filter (has_subcategory STANDARD) (group data k)))) ].

(** One record more is counted in the group [k] of [acc'] than in that of
    [acc], and the other groups are the same. *)
Definition counted_in (acc acc' : JSObject SummaryBySpecialist) (k : jsstring) : Prop :=
  (exists g, get_own acc' k = Some g /\
             totalStudies g
             = match get_own acc k with Some g0 => totalStudies g0 | None => 0 end + 1) /\
  (forall k', k' <> k -> get_own acc' k' = get_own acc k').

(** The summary that the reducer updates: the one of the group, or a new
    one. *)
Definition summary_before (acc : JSObject SummaryBySpecialist) (k : jsstring) :
  SummaryBySpecialist :=
  match get_own acc k with
  | Some s => s
  | None => new_summary k
  end.

(** What the reduction builds: the groups in order of first appearance,
    each with its summary. *)
Definition grouping (data : list RadiologyRecord)
           (grouped : JSObject SummaryBySpecialist) : Prop :=
  map fst grouped = groups_first_seen data /\
  forall k s, get_own grouped k = Some s -> summarizes data k s.

(** A character that a second normalization leaves as it is: a code point
    of the Basic Multilingual Plane, no high surrogate, without canonical
    decomposition, of combining class 0, without upper-case mapping and
    outside the block U+0300..U+036F. *)
Definition settled (c : N) : Prop :=
  c < 0x10000 /\
  is_high_surrogate c = false /\
  canonical_decomposition U c = [c] /\
  combining_class U c = 0 /\
  upper_case U c = [c] /\
  is_accent c = false.

(** A record whose specialist name is not empty and is white space only. *)
Definition whitespace_name (r : RadiologyRecord) : bool :=
  match realizado_por r with
  | Some (c :: s) => forallb is_whitespace (c :: s)
  | Some [] | None => false
  end.

(** A record whose specialist name is missing or empty, or reads SIN
    ASIGNAR once it is trimmed. *)
Definition unassigned_name (r : RadiologyRecord) : bool :=
  match realizado_por r with
  | Some (c :: s) => jsstring_eqb (trim (c :: s)) (js "SIN ASIGNAR")
  | Some [] | None => true
  end.

(** A character that decomposition, the removal of marks and upper-casing
    leave as it is: a code point without canonical decomposition, without
    upper-case mapping and outside the block U+0300..U+036F. *)
Definition unchanged (c : N) : Prop :=
  canonical_decomposition U c = [c] /\
  upper_case U c = [c] /\
  is_accent c = false.

(** Canonical order: no character of non-zero combining class directly
    follows a character of greater class.  [k] is the class of the
    character before [l]. *)
Fixpoint ordered_from (k : N) (l : list N) : bool :=
  match l with
  | [] => true
  | c :: r =>
      negb ((0 <? combining_class U c) && (combining_class U c <? k))
      && ordered_from (combining_class U c) r
  end.

Definition in_canonical_order (l : list N) : bool := ordered_from 0 l.

(** White space in [s] is single spaces; [after_space] tells that [s]
    follows white space. *)
Fixpoint collapsed_from (after_space : bool) (s : jsstring) : bool :=
  match s with
  | [] => true
  | c :: r =>
      if is_whitespace c
      then (c =? space) && negb after_space && collapsed_from true r
      else collapsed_from false r
  end.

(* ================================================================== *)
(** * The rest of the engine and its callers *)

(** ** src/utils/dataProcessor.ts: getModalityStats *)

(** The reducer [acc[mod] = (acc[mod] || 0) + 1] over [data], from [{}]. *)
Definition modality_stats (data : list RadiologyRecord) : JSObject N :=
  fold_left (fun acc curr => increment acc (modality_key curr)) data [].

Definition getModalityStats (data : list RadiologyRecord) : list ChartDataPoint.t :=
  map (fun e => {| ChartDataPoint.name := fst e; ChartDataPoint.value := snd e |})
      (Object_entries (modality_stats data)).

(** ** src/App.tsx: the header row of an upload *)

(** The test of [lines.findIndex] in [reader.onload]. *)
Definition is_header_line (line : jsstring) : bool :=
  let nLine := normalize U line in
  includes nLine (js "ID PACIENTE") || includes nLine (js "DESCRIPCION")
  || includes nLine (js "MODALIDAD").

(** [validCsv] in [reader.onload], from the text of the file:
    [text.split('\n')] splits at every line feed, as [split] does for a
    class of one code unit.  [None] is the case [headerIndex === -1], in
    which the handler alerts and returns without parsing. *)
Definition validCsv (text : jsstring) : option jsstring :=
  let lines := split is_line_feed text in
  match findIndex is_header_line lines with
  | None => None
  | Some headerIndex => Some (join [10] (skipn headerIndex lines))
  end.

(** ** src/App.tsx: the records kept of an upload, [cleanData] *)

(** [d.id_paciente && d.id_paciente.trim() !== ''] *)
Definition hasId (d : RadiologyRecord) : bool :=
  match id_paciente d with
  | Some (c :: s) => negb (jsstring_eqb (trim (c :: s)) empty)
  | Some [] | None => false
  end.

(** [ALLOWED_MODALITIES.includes((d.modalidad || '').trim().toUpperCase())] *)
Definition isAllowedMod (d : RadiologyRecord) : bool :=
  existsb (jsstring_eqb (toUpperCase U (trim (or_else (modalidad d) empty))))
          ALLOWED_MODALITIES.

Definition cleanData (parsed : list RadiologyRecord) : list RadiologyRecord :=
  filter (fun d => hasId d && isAllowedMod d) parsed.

(** ** src/App.tsx: specialists *)

(** [Array.from(new Set(data.map(d => d.realizado_por))).filter(Boolean).sort()] *)
Definition specialists (data : list RadiologyRecord) : list jsstring :=
  Array_sort _ default_compare
             (strings (filter truthy (Set_values (map realizado_por data)))).

(** ** src/App.tsx: filteredData *)

Section Search.
(** [String.prototype.toLowerCase] of the engine. *)
Variable toLowerCase : jsstring -> jsstring.

Definition filteredData (data : list RadiologyRecord)
           (filterSpecialist searchTerm : jsstring) : list RadiologyRecord :=
  filter
    (fun d =>
       let matchSpec :=
         jsstring_eqb filterSpecialist (js "All")
         || strict_equal (realizado_por d) filterSpecialist in
       let matchSearch :=
         includes (toLowerCase (or_else (nombre_paciente d) empty)) (toLowerCase searchTerm)
         || includes (or_else (id_paciente d) empty) searchTerm in
       matchSpec && matchSearch)
    data.
End Search.

(** [filteredData.filter(d => d.subcategory === 'CONTRASTADOS').length] and
    its like for ESPECIALES. *)
Definition contrastCount (filteredData : list RadiologyRecord) : N :=
  N.of_nat (List.length (filter (fun d => Subcategory_eqb (subcategory d) CONTRASTADOS)
                                filteredData)).

Definition specialCount (filteredData : list RadiologyRecord) : N :=
  N.of_nat (List.length (filter (fun d => Subcategory_eqb (subcategory d) ESPECIALES)
                                filteredData)).

(** ** src/utils/wordExport.ts and src/utils/excelExport.ts: the records of
    a report *)

(** [filterSpecialist === 'All' ? data : data.filter(d => d.realizado_por
    === filterSpecialist)] *)
Definition report_records (data : list RadiologyRecord) (filterSpecialist : jsstring) :
  list RadiologyRecord :=
  if jsstring_eqb filterSpecialist (js "All") then data
  else filter (fun d => strict_equal (realizado_por d) filterSpecialist) data.

(** ** src/utils/wordExport.ts: the table by specialist *)

(** [spec] in [exportToWord]. *)
Definition report_key (record : RadiologyRecord) : jsstring :=
  trim (or_else (realizado_por record) (js "N/A")).

Definition new_stats (spec : jsstring) : SpecStats :=
  {| name := spec; total := 0; ct_std := 0; ct_cont := 0; cr_std := 0; cr_esp := 0;
     mg := 0; us := 0; otros := 0 |}.

(** The column of a record, by its modality and its subcategory. *)
Inductive Column : Type :=
  col_ct_std | col_ct_cont | col_cr_std | col_cr_esp | col_mg | col_us | col_otros.

Definition column (record : RadiologyRecord) : Column :=
  let modality := trim (toUpperCase U (or_else (modalidad record) empty)) in
  let sub := subcategory record in
  if jsstring_eqb modality (js "CT") then
    if Subcategory_eqb sub CONTRASTADOS then col_ct_cont else col_ct_std
  else if jsstring_eqb modality (js "CR") then
    if Subcategory_eqb sub ESPECIALES then col_cr_esp else col_cr_std
  else if jsstring_eqb modality (js "MG") then col_mg
  else if jsstring_eqb modality (js "US") then col_us
  else col_otros.

(** [stats.total++] and the increment of the column of the record. *)
Definition count_study (stats : SpecStats) (record : RadiologyRecord) : SpecStats :=
  let c := column record in
  let bump (d : Column) (n : N) :=
    match c, d with
    | col_ct_std, col_ct_std | col_ct_cont, col_ct_cont | col_cr_std, col_cr_std
    | col_cr_esp, col_cr_esp | col_mg, col_mg | col_us, col_us
    | col_otros, col_otros => n + 1
    | _, _ => n
    end in
  {| name := name stats;
     total := total stats + 1;
     ct_std := bump col_ct_std (ct_std stats);
     ct_cont := bump col_ct_cont (ct_cont stats);
     cr_std := bump col_cr_std (cr_std stats);
     cr_esp := bump col_cr_esp (cr_esp stats);
     mg := bump col_mg (mg stats);
     us := bump col_us (us stats);
     otros := bump col_otros (otros stats) |}.

(** The body of [filtered.forEach].  For a name that [specStats] inherits
    and does not own, [specStats[spec]] is a function or [Object.prototype]
    itself, which is truthy: no row is created, and the increments set
    properties of that object to NaN without throwing.  A later
    [specStats[spec]] that meets such a property reads NaN, which [!] takes
    as it takes a missing property, and [Object.values] lists own
    properties only. *)
Definition count_in_report (specStats : JSObject SpecStats) (record : RadiologyRecord) :
  JSObject SpecStats :=
  let spec := report_key record in
  match get_own specStats spec with
  | Some stats => set_own specStats spec (count_study stats record)
  | None =>
      if inherited spec then specStats
      else set_own specStats spec (count_study (new_stats spec) record)
  end.

(** [Object.values(specStats)] in [exportToWord]. *)
Definition report_rows (data : list RadiologyRecord) (filterSpecialist : jsstring) :
  list SpecStats :=
  Object_values (fold_left count_in_report (report_records data filterSpecialist) []).

(** ** src/utils/excelExport.ts: the sheet by date and kind of study *)

(** [`${curr.fecha_realizado}_${curr.modalidad}_${curr.subcategory ||
    'STANDARD'}`], for records as [classifyRecord] returns them: the
    subcategory is one of three names, none of them empty, and the
    default is not taken. *)
Definition sheet_key (curr : RadiologyRecord) : jsstring :=
  template (fecha_realizado curr) ++ js "_" ++ template (modalidad curr) ++ js "_"
  ++ Subcategory_name (subcategory curr).

(** The reducer of [summaryMap].  Its keys end in the name of a
    subcategory, which no name inherited from [Object.prototype] does (see
    [sheet_key_not_inherited]): the read finds an own property or
    nothing. *)
Definition count_in_sheet (acc : JSObject SummaryRow) (curr : RadiologyRecord) :
  JSObject SummaryRow :=
  let key := sheet_key curr in
  let row :=
    match get_own acc key with
    | Some row => row
    | None => {| Fecha := fecha_realizado curr;
                 Modalidad := modalidad curr;
                 Subcategoria := subcategory curr;
                 Cantidad := 0 |}
    end in
  set_own acc key {| Fecha := Fecha row;
                     Modalidad := Modalidad row;
                     Subcategoria := Subcategoria row;
                     Cantidad := Cantidad row + 1 |}.

(** [Object.values(summaryMap)] in [exportToExcel]. *)
Definition sheet_rows (data : list RadiologyRecord) (specialist : jsstring) :
  list SummaryRow :=
  Object_values (fold_left count_in_sheet (report_records data specialist) []).

(** ** Notions of the properties below *)

(** [s.subcategories[c]], zero when the key is missing. *)
Definition subcategory_count (s : SummaryBySpecialist) (c : Subcategory) : N :=
  match get_own (subcategories s) (Subcategory_name c) with
  | Some n => n
  | None => 0
  end.

(** The counts of the values of [key] over [data], as [acc[k] = (acc[k] ||
    0) + 1] builds them from [{}]. *)
Definition count_by {R : Type} (key : R -> jsstring) (data : list R) : JSObject N :=
  fold_left (fun acc r => increment acc (key r)) data [].

(** The sum of the values of an object of counts. *)
Definition sum_values (o : JSObject N) : N := sum_list (map snd o).

Definition Column_eqb (c d : Column) : bool :=
  match c, d with
  | col_ct_std, col_ct_std | col_ct_cont, col_ct_cont | col_cr_std, col_cr_std
  | col_cr_esp, col_cr_esp | col_mg, col_mg | col_us, col_us
  | col_otros, col_otros => true
  | _, _ => false
  end.

(** The cell of a row in a column. *)
Definition cell (row : SpecStats) (c : Column) : N :=
  match c with
  | col_ct_std => ct_std row
  | col_ct_cont => ct_cont row
  | col_cr_std => cr_std row
  | col_cr_esp => cr_esp row
  | col_mg => mg row
  | col_us => us row
  | col_otros => otros row
  end.

(** The records of a report that belong to the row [k]. *)
Definition report_group (records : list RadiologyRecord) (k : jsstring) :
  list RadiologyRecord :=
  filter (fun r => jsstring_eqb (report_key r) k) records.

(** The row [k] of a report tallies the records of its group: their number,
    and in each column the number of those of that column. *)
Definition tallies (records : list RadiologyRecord) (k : jsstring) (row : SpecStats) : Prop :=
  name row = k /\
  total row = N.of_nat (List.length (report_group records k)) /\
  forall c, cell row c
            = N.of_nat (List.length (filter (fun r => Column_eqb (column r) c)
                                            (report_group records k))).

(** The names of the rows of a report, in order of first appearance: those
    of the records, without the names that the object inherits. *)
Definition report_names (records : list RadiologyRecord) : list jsstring :=
  first_seen (filter (fun k => negb (inherited k)) (map report_key records)).

(** The records of a sheet that are counted in the row of key [k]. *)
Definition sheet_group (records : list RadiologyRecord) (k : jsstring) :
  list RadiologyRecord :=
  filter (fun r => jsstring_eqb (sheet_key r) k) records.

(** The row of key [k] of a sheet shows the date, the modality and the
    subcategory of the first record of its group, and the number of records
    of the group. *)
Definition shows (records : list RadiologyRecord) (k : jsstring) (row : SummaryRow) : Prop :=
  exists r rest,
    sheet_group records k = r :: rest /\
    Fecha row = fecha_realizado r /\
    Modalidad row = modalidad r /\
    Subcategoria row = subcategory r /\
    Cantidad row = N.of_nat (List.length (r :: rest)).

(** The key under which the values of a row are joined. *)
Definition row_key (row : SummaryRow) : jsstring :=
  template (Fecha row) ++ js "_" ++ template (Modalidad row) ++ js "_"
  ++ Subcategory_name (Subcategoria row).


(* ================================================================== *)
(** * The engine conforms to ECMAScript *)

Hypothesis Array_sort_conforms : sort_conforms Array_sort.
Hypothesis Date_parse_conforms : parse_conforms Date_parse.

(* ================================================================== *)
(** * Properties *)

(** ** Strings *)

Lemma jsstring_eqb_eq (s t : jsstring) : jsstring_eqb s t = true <-> s = t.
Proof.
  unfold jsstring_eqb. destruct (list_eq_dec N.eq_dec s t); split; congruence.
Qed.

Lemma jsstring_eqb_refl (s : jsstring) : jsstring_eqb s s = true.
Proof. now apply jsstring_eqb_eq. Qed.

Lemma jsstring_eqb_neq (s t : jsstring) : jsstring_eqb s t = false <-> s <> t.
Proof.
  unfold jsstring_eqb. destruct (list_eq_dec N.eq_dec s t); split; congruence.
Qed.

Lemma jsstring_eqb_sym (s t : jsstring) : jsstring_eqb s t = jsstring_eqb t s.
Proof.
  destruct (jsstring_eqb t s) eqn:E.
  - apply jsstring_eqb_eq in E. subst. apply jsstring_eqb_refl.
  - apply jsstring_eqb_neq in E. apply jsstring_eqb_neq. congruence.
Qed.

Lemma or_else_string (s : jsstring) : or_else (Some s) empty = s.
Proof. now destruct s. Qed.

Lemma trimStart_blank (s : jsstring) :
  forallb is_whitespace s = true -> trimStart s = [].
Proof.
  induction s as [|c s IH]; simpl; [reflexivity|].
  intros H. apply andb_prop in H as [Hc Hs]. rewrite Hc. now apply IH.
Qed.

Lemma trim_blank (s : jsstring) : forallb is_whitespace s = true -> trim s = [].
Proof.
  intros H. unfold trim, trimEnd. now rewrite (trimStart_blank s H).
Qed.

(** ** The classifier *)

Lemma with_subcategory_subcategory (record : RadiologyRecord) (c : Subcategory) :
  subcategory (with_subcategory record c) = c.
Proof. reflexivity. Qed.

(** C1. A record whose normalized description contains CONTRASTE or
    CONTRASTADO is classified CONTRASTADOS: the result is the record with
    that subcategory whatever its modality and whatever the two procedure
    lists hold, so that no rule on the modality takes part. *)
Theorem classifyRecord_contrast_keyword (record : RadiologyRecord) :
  includes (normalized_description record) (js "CONTRASTE") = true \/
  includes (normalized_description record) (js "CONTRASTADO") = true ->
  classifyRecord record = with_subcategory record CONTRASTADOS.
Proof.
  unfold classifyRecord, normalized_description.
  intros [H | H]; rewrite H; [reflexivity | now rewrite orb_true_r].
Qed.

(** C2, as amended.  A record whose modality, upper-cased and trimmed, is US
    or MG, and whose normalized description contains neither CONTRASTE nor
    CONTRASTADO, is classified STANDARD, whatever else the description
    holds and whatever the two procedure lists hold. *)
Theorem classifyRecord_US_MG_standard (record : RadiologyRecord) :
  classifier_modality record = js "US" \/ classifier_modality record = js "MG" ->
  includes (normalized_description record) (js "CONTRASTE") = false ->
  includes (normalized_description record) (js "CONTRASTADO") = false ->
  classifyRecord record = with_subcategory record STANDARD.
Proof.
  unfold classifyRecord, normalized_description, classifier_modality.
  intros Hm H1 H2. rewrite H1, H2. cbn [orb].
  destruct Hm as [-> | ->]; reflexivity.
Qed.

(** ** Sorting *)

Lemma insert_sorted_perm {A : Type} (comparefn : A -> A -> JSNumber) (x : A) (l : list A) :
  Permutation (x :: l) (insert_sorted comparefn x l).
Proof.
  induction l as [|y l IH]; simpl; [reflexivity|].
  destruct (SortCompare comparefn x y <=? 0)%Z; [reflexivity|].
  rewrite perm_swap. now apply perm_skip.
Qed.

Lemma stable_sort_perm {A : Type} (comparefn : A -> A -> JSNumber) (l : list A) :
  Permutation l (stable_sort comparefn l).
Proof.
  induction l as [|x l IH]; simpl; [constructor|].
  rewrite <- insert_sorted_perm. now apply perm_skip.
Qed.

Lemma stable_sort_conforms : sort_conforms (@stable_sort).
Proof. split; intros; [apply stable_sort_perm | reflexivity]. Qed.

Lemma insert_sorted_ext {A : Type} (f g : A -> A -> JSNumber) (x : A) (l : list A) :
  (forall y, In y l -> SortCompare f x y = SortCompare g x y) ->
  insert_sorted f x l = insert_sorted g x l.
Proof.
  induction l as [|y l IH]; simpl; intros H; [reflexivity|].
  rewrite (H y (or_introl eq_refl)).
  destruct (SortCompare g x y <=? 0)%Z; [reflexivity|].
  f_equal. apply IH. intros z Hz. apply H. now right.
Qed.

Lemma stable_sort_ext {A : Type} (f g : A -> A -> JSNumber) (l : list A) :
  (forall x y, In x l -> In y l -> SortCompare f x y = SortCompare g x y) ->
  stable_sort f l = stable_sort g l.
Proof.
  induction l as [|x l IH]; simpl; intros H; [reflexivity|].
  rewrite IH by (intros; apply H; now right).
  apply insert_sorted_ext. intros y Hy. apply H; [now left|right].
  eapply Permutation_in; [symmetry; apply stable_sort_perm | exact Hy].
Qed.

(** A comparator that subtracts integer keys is consistent. *)
Lemma difference_consistent {A : Type} (comparefn : A -> A -> JSNumber) (key : A -> Z)
      (l : list A) :
  (forall a b, In a l -> In b l -> comparefn a b = Some (key a - key b)%Z) ->
  consistent comparefn l.
Proof.
  intros H.
  assert (S : forall a b, In a l -> In b l -> SortCompare comparefn a b = (key a - key b)%Z).
  { intros a b Ha Hb. unfold SortCompare. now rewrite (H a b Ha Hb). }
  repeat split.
  - intros a b Ha Hb. rewrite (H a b Ha Hb). discriminate.
  - intros a Ha. rewrite S by assumption. lia.
  - rewrite !S by assumption. lia.
  - rewrite !S by assumption. lia.
  - intros a b c Ha Hb Hc. rewrite !S by assumption. lia.
Qed.

(** ** The date range *)

Lemma strings_In (l : list (option jsstring)) (s : jsstring) :
  In s (strings l) <-> In (Some s) l.
Proof.
  unfold strings. rewrite in_flat_map. split.
  - intros [[t|] [Hin H]]; simpl in H; [|contradiction].
    destruct H as [<- | []]. exact Hin.
  - intros H. exists (Some s). split; [exact H | now left].
Qed.

Lemma validDates_In (filteredData : list RadiologyRecord) (s : jsstring) :
  In s (validDates filteredData) -> In (Some s) (map fecha_realizado filteredData).
Proof.
  unfold validDates. rewrite strings_In, filter_In. tauto.
Qed.

Lemma is_valid_date_blank (f : option jsstring) : blank f -> is_valid_date f = false.
Proof.
  destruct f as [[|c s]|]; simpl; try reflexivity.
  intros H. change (forallb is_whitespace (c :: s) = true) in H.
  now rewrite (trim_blank _ H).
Qed.

Lemma validDates_blank (filteredData : list RadiologyRecord) :
  (forall d, In d filteredData -> blank (fecha_realizado d)) ->
  validDates filteredData = [].
Proof.
  unfold validDates. induction filteredData as [|d l IH]; intros H; [reflexivity|].
  simpl. rewrite is_valid_date_blank by (apply H; now left).
  apply IH. intros; apply H; now right.
Qed.

Lemma first_and_last {A : Type} (l : list A) :
  l <> [] ->
  exists lo hi, nth_error l 0 = Some lo /\ nth_error l (List.length l - 1) = Some hi
                /\ In lo l /\ In hi l.
Proof.
  intros Hl.
  destruct l as [|x l]; [congruence|].
  destruct (nth_error (x :: l) (List.length (x :: l) - 1)) as [hi|] eqn:E.
  - exists x, hi. repeat split; [now left | eapply nth_error_In; eassumption].
  - apply nth_error_None in E. simpl in E. lia.
Qed.

(** C7. Without records the date range is the pair of empty strings; with
    records whose date performed is, for each of them, missing, empty or
    white space only, it is the pair of N/A, which is another pair. *)
Theorem dateRange_sentinels :
  dateRange [] = {| min := Some empty; max := Some empty |} /\
  (forall filteredData : list RadiologyRecord,
     filteredData <> [] ->
     (forall d, In d filteredData -> blank (fecha_realizado d)) ->
     dateRange filteredData = {| min := Some (js "N/A"); max := Some (js "N/A") |}) /\
  {| min := Some empty; max := Some empty |}
  <> {| min := Some (js "N/A"); max := Some (js "N/A") |}.
Proof.
  split; [reflexivity|]. split; [|discriminate].
  intros filteredData Hne Hblank. unfold dateRange.
  destruct filteredData as [|d l]; [congruence|].
  now rewrite (validDates_blank _ Hblank).
Qed.

(** C6. The comparator of the date range returns a number for every pair
    of strings, and when one of the two does not parse to a time value the
    result is NaN, which the sort reads as zero in both directions: neither
    string is ordered before the other. *)
Theorem compareDates_total (a b : jsstring) :
  (exists v : JSNumber, compareDates a b = v) /\
  (parseDate a = NaN \/ parseDate b = NaN ->
   compareDates a b = NaN /\
   SortCompare compareDates a b = 0%Z /\ SortCompare compareDates b a = 0%Z).
Proof.
  split; [eexists; reflexivity|].
  unfold SortCompare, compareDates, minus.
  intros [H | H]; rewrite H; destruct (parseDate a), (parseDate b); auto.
Qed.

(** C5. For records whose dates performed are 15/03/2024, 2024-01-10 and
    20/02/2024 the range is from 2024-01-10 to 15/03/2024; and whenever a
    date remains after the filter, the two bounds of the range are strings
    that stand, as they are, in the date performed of records of the
    input. *)
Theorem dateRange_original_strings :
  (forall filteredData : list RadiologyRecord,
     map fecha_realizado filteredData
     = [Some (js "15/03/2024"); Some (js "2024-01-10"); Some (js "20/02/2024")] ->
     dateRange filteredData
     = {| min := Some (js "2024-01-10"); max := Some (js "15/03/2024") |}) /\
  (forall filteredData : list RadiologyRecord,
     validDates filteredData <> [] ->
     exists lo hi,
       dateRange filteredData = {| min := Some lo; max := Some hi |} /\
       In (Some lo) (map fecha_realizado filteredData) /\
       In (Some hi) (map fecha_realizado filteredData)).
Proof.
  destruct Array_sort_conforms as [Hperm Hstable].
  split.
  - intros filteredData Hdates.
    assert (Hvalid : validDates filteredData
                     = [js "15/03/2024"; js "2024-01-10"; js "20/02/2024"]).
    { unfold validDates. rewrite Hdates. reflexivity. }
    assert (P1 : parseDate (js "15/03/2024") = Some 1710460800000%Z).
    { change (Date_parse (js "2024-03-15") = Some 1710460800000%Z).
      apply Date_parse_conforms. vm_compute. reflexivity. }
    assert (P2 : parseDate (js "2024-01-10") = Some 1704844800000%Z).
    { change (Date_parse (js "2024-01-10") = Some 1704844800000%Z).
      apply Date_parse_conforms. vm_compute. reflexivity. }
    assert (P3 : parseDate (js "20/02/2024") = Some 1708387200000%Z).
    { change (Date_parse (js "2024-02-20") = Some 1708387200000%Z).
      apply Date_parse_conforms. vm_compute. reflexivity. }
    set (key := fun s : jsstring =>
                  if jsstring_eqb s (js "15/03/2024") then 1710460800000%Z
                  else if jsstring_eqb s (js "2024-01-10") then 1704844800000%Z
                  else 1708387200000%Z).
    assert (Hkey : forall a b,
               In a [js "15/03/2024"; js "2024-01-10"; js "20/02/2024"] ->
               In b [js "15/03/2024"; js "2024-01-10"; js "20/02/2024"] ->
               compareDates a b = Some (key a - key b)%Z).
    { intros a b Ha Hb. unfold compareDates. cbn [In] in Ha, Hb.
      destruct Ha as [<- | [<- | [<- | []]]];
        destruct Hb as [<- | [<- | [<- | []]]];
        rewrite ?P1, ?P2, ?P3; reflexivity. }
    assert (Hsort : Array_sort jsstring compareDates
                      [js "15/03/2024"; js "2024-01-10"; js "20/02/2024"]
                    = [js "2024-01-10"; js "20/02/2024"; js "15/03/2024"]).
    { rewrite Hstable by (exact (difference_consistent _ key _ Hkey)).
      rewrite (stable_sort_ext _ (fun a b => Some (key a - key b)%Z)).
      - vm_compute. reflexivity.
      - intros x y Hx Hy. unfold SortCompare. now rewrite (Hkey x y Hx Hy). }
    unfold dateRange.
    destruct filteredData as [|d l]; [discriminate Hdates|].
    rewrite Hvalid.
    change (match [js "15/03/2024"; js "2024-01-10"; js "20/02/2024"] with
            | [] => {| min := Some (js "N/A"); max := Some (js "N/A") |}
            | _ :: _ =>
                let sorted := Array_sort jsstring compareDates
                                [js "15/03/2024"; js "2024-01-10"; js "20/02/2024"] in
                {| min := nth_error sorted 0;
                   max := nth_error sorted (List.length sorted - 1) |}
            end)
      with (let sorted := Array_sort jsstring compareDates
                            [js "15/03/2024"; js "2024-01-10"; js "20/02/2024"] in
            {| min := nth_error sorted 0;
               max := nth_error sorted (List.length sorted - 1) |}).
    rewrite Hsort. reflexivity.
  - intros filteredData Hne. unfold dateRange.
    destruct filteredData as [|d l]; [now contradiction Hne|].
    remember (validDates (d :: l)) as dates eqn:Hd.
    destruct dates as [|f fs]; [congruence|].
    set (sorted := Array_sort jsstring compareDates (f :: fs)).
    assert (Hs : Permutation (f :: fs) sorted) by apply Hperm.
    destruct (first_and_last sorted) as (lo & hi & Hlo & Hhi & Ilo & Ihi).
    { intros E. rewrite E in Hs. now apply Permutation_sym, Permutation_nil in Hs. }
    exists lo, hi. rewrite Hlo, Hhi. split; [reflexivity|].
    split; apply validDates_In; rewrite <- Hd;
      (eapply Permutation_in; [symmetry; exact Hs | assumption]).
Qed.

(** ** Objects *)

Lemma get_own_set_own_same {V : Type} (o : JSObject V) (k : jsstring) (v : V) :
  get_own (set_own o k v) k = Some v.
Proof.
  induction o as [|[k' v'] o IH]; simpl.
  - now rewrite jsstring_eqb_refl.
  - destruct (jsstring_eqb k' k) eqn:E; simpl; rewrite E; [reflexivity | exact IH].
Qed.

Lemma get_own_set_own_other {V : Type} (o : JSObject V) (k k' : jsstring) (v : V) :
  k' <> k -> get_own (set_own o k v) k' = get_own o k'.
Proof.
  intros Hk. induction o as [|[k0 v0] o IH]; simpl.
  - apply jsstring_eqb_neq in Hk. now rewrite jsstring_eqb_sym, Hk.
  - destruct (jsstring_eqb k0 k) eqn:E; simpl.
    + apply jsstring_eqb_eq in E. subst k0.
      apply jsstring_eqb_neq in Hk. now rewrite jsstring_eqb_sym, Hk.
    + now rewrite IH.
Qed.

Lemma get_own_In {V : Type} (o : JSObject V) (k : jsstring) :
  In k (map fst o) <-> exists v, get_own o k = Some v.
Proof.
  induction o as [|[k' v'] o IH]; simpl.
  - split; [contradiction | intros [v H]; discriminate].
  - destruct (jsstring_eqb k' k) eqn:E.
    + apply jsstring_eqb_eq in E. split; [eauto | now left].
    + apply jsstring_eqb_neq in E. rewrite <- IH. tauto.
Qed.

Lemma get_own_None {V : Type} (o : JSObject V) (k : jsstring) :
  get_own o k = None <-> ~ In k (map fst o).
Proof.
  rewrite get_own_In. destruct (get_own o k).
  - split; [discriminate | intros H; exfalso; eauto].
  - split; [intros _ [v H]; discriminate | reflexivity].
Qed.

Lemma set_own_names {V : Type} (o : JSObject V) (k : jsstring) (v : V) :
  map fst (set_own o k v)
  = match get_own o k with
    | Some _ => map fst o
    | None => map fst o ++ [k]
    end.
Proof.
  induction o as [|[k' v'] o IH]; simpl; [reflexivity|].
  destruct (jsstring_eqb k' k) eqn:E; simpl; [reflexivity|].
  rewrite IH. now destruct (get_own o k).
Qed.

(** ** First appearances *)

Lemma first_seen_In (l : list jsstring) (k : jsstring) :
  In k (first_seen l) <-> In k l.
Proof.
  induction l as [|a l IH]; simpl; [tauto|].
  rewrite filter_In, IH, negb_true_iff, jsstring_eqb_neq.
  destruct (list_eq_dec N.eq_dec a k); [tauto|].
  split; [tauto|]. intros [H | H]; [tauto|]. right. split; congruence.
Qed.

Lemma filter_filter_implies {A : Type} (p q : A -> bool) (l : list A) :
  (forall a, In a l -> p a = true -> q a = true) ->
  filter p (filter q l) = filter p l.
Proof.
  induction l as [|a l IH]; simpl; intros H; [reflexivity|].
  destruct (q a) eqn:Q; simpl.
  - destruct (p a); rewrite IH by (intros; apply H; auto); reflexivity.
  - destruct (p a) eqn:P.
    + rewrite (H a (or_introl eq_refl) P) in Q. discriminate.
    + apply IH. intros; apply H; auto.
Qed.

Lemma filter_none {A : Type} (p : A -> bool) (l : list A) :
  (forall a, In a l -> p a = false) -> filter p l = [].
Proof.
  induction l as [|a l IH]; simpl; intros H; [reflexivity|].
  rewrite (H a (or_introl eq_refl)). apply IH. intros; apply H; now right.
Qed.

Lemma filter_all {A : Type} (p : A -> bool) (l : list A) :
  (forall a, In a l -> p a = true) -> filter p l = l.
Proof.
  induction l as [|a l IH]; simpl; intros H; [reflexivity|].
  rewrite (H a (or_introl eq_refl)). f_equal. apply IH. intros; apply H; now right.
Qed.

Lemma first_seen_snoc (l : list jsstring) (k : jsstring) :
  first_seen (l ++ [k])
  = if existsb (jsstring_eqb k) l then first_seen l else first_seen l ++ [k].
Proof.
  induction l as [|a l IH]; simpl; [reflexivity|].
  rewrite IH. destruct (jsstring_eqb k a) eqn:E; simpl.
  - destruct (existsb (jsstring_eqb k) l); [reflexivity|].
    rewrite filter_app. simpl. rewrite E. simpl. now rewrite app_nil_r.
  - destruct (existsb (jsstring_eqb k) l); [reflexivity|].
    rewrite filter_app. simpl. now rewrite E.
Qed.

Lemma existsb_jsstring_eqb (k : jsstring) (l : list jsstring) :
  existsb (jsstring_eqb k) l = true <-> In k l.
Proof.
  rewrite existsb_exists. split.
  - intros [x [Hx E]]. apply jsstring_eqb_eq in E. now subst.
  - intros H. exists k. split; [exact H | apply jsstring_eqb_refl].
Qed.

Lemma first_seen_NoDup (l : list jsstring) : NoDup (first_seen l).
Proof.
  induction l as [|a l IH]; simpl; constructor.
  - rewrite filter_In, negb_true_iff, jsstring_eqb_neq. tauto.
  - now apply NoDup_filter.
Qed.

(** ** The reducer *)

Lemma reduce_snoc (data : list RadiologyRecord) (curr : RadiologyRecord)
      (acc : JSObject SummaryBySpecialist) :
  reduce (data ++ [curr]) acc
  = match reduce data acc with
    | Normal acc' => reducer acc' curr
    | Throw_TypeError => Throw_TypeError
    end.
Proof.
  revert acc. induction data as [|r data IH]; intros acc; simpl.
  - now destruct (reducer acc curr).
  - destruct (reducer acc r); [apply IH | reflexivity].
Qed.

Lemma reducer_Normal (acc : JSObject SummaryBySpecialist) (curr : RadiologyRecord) :
  (exists s, get_own acc (specialist_key curr) = Some s) \/
  inherited (specialist_key curr) = false ->
  reducer acc curr
  = Normal (set_own acc (specialist_key curr)
                    (count_record (summary_before acc (specialist_key curr)) curr)).
Proof.
  unfold reducer, summary_before. intros [[s H] | H].
  - now rewrite H.
  - rewrite H. now destruct (get_own acc (specialist_key curr)).
Qed.

Lemma reducer_Throw (acc : JSObject SummaryBySpecialist) (curr : RadiologyRecord) :
  get_own acc (specialist_key curr) = None ->
  inherited (specialist_key curr) = true ->
  reducer acc curr = Throw_TypeError.
Proof. unfold reducer. now intros -> ->. Qed.

Lemma reducer_counted_in (acc : JSObject SummaryBySpecialist) (curr : RadiologyRecord) :
  inherited (specialist_key curr) = false ->
  exists acc', reducer acc curr = Normal acc' /\ counted_in acc acc' (specialist_key curr).
Proof.
  intros H. eexists. split; [apply reducer_Normal; now right|].
  split.
  - eexists. split; [apply get_own_set_own_same|].
    unfold summary_before. now destruct (get_own acc (specialist_key curr)).
  - intros k' Hk. now apply get_own_set_own_other.
Qed.

(** ** Counting *)

Lemma group_snoc_same (data : list RadiologyRecord) (curr : RadiologyRecord) :
  group (data ++ [curr]) (specialist_key curr) = group data (specialist_key curr) ++ [curr].
Proof.
  unfold group. rewrite filter_app. simpl. unfold in_group at 2.
  now rewrite jsstring_eqb_refl.
Qed.

Lemma group_snoc_other (data : list RadiologyRecord) (curr : RadiologyRecord) (k : jsstring) :
  k <> specialist_key curr -> group (data ++ [curr]) k = group data k.
Proof.
  intros H. unfold group. rewrite filter_app. simpl. unfold in_group at 2.
  apply not_eq_sym, jsstring_eqb_neq in H. rewrite H. apply app_nil_r.
Qed.

Lemma group_nil (data : list RadiologyRecord) (k : jsstring) :
  ~ In k (map specialist_key data) -> group data k = [].
Proof.
  intros H. apply filter_none. intros r Hr. apply jsstring_eqb_neq.
  intros E. apply H. rewrite <- E. now apply in_map.
Qed.

Lemma counted_value (n : nat) :
  match counted n with Some x => x | None => 0 end = N.of_nat n.
Proof. now destruct n. Qed.

Lemma get_own_increment (o : JSObject N) (k m : jsstring) :
  get_own (increment o k) m
  = if jsstring_eqb k m
    then Some (match get_own o k with Some n => n | None => 0 end + 1)
    else get_own o m.
Proof.
  unfold increment. destruct (jsstring_eqb k m) eqn:E.
  - apply jsstring_eqb_eq in E. subst. apply get_own_set_own_same.
  - apply jsstring_eqb_neq in E. apply get_own_set_own_other. congruence.
Qed.

Lemma increment_subcategories (a b c : N) (x : Subcategory) :
  increment [ (js "CONTRASTADOS", a); (js "ESPECIALES", b); (js "STANDARD", c) ]
            (Subcategory_name x)
  = [ (js "CONTRASTADOS", a + if Subcategory_eqb x CONTRASTADOS then 1 else 0);
      (js "ESPECIALES", b + if Subcategory_eqb x ESPECIALES then 1 else 0);
      (js "STANDARD", c + if Subcategory_eqb x STANDARD then 1 else 0) ].
Proof.
  destruct x; unfold increment; cbn -[N.add]; rewrite !N.add_0_r; reflexivity.
Qed.

Lemma summarizes_new (data : list RadiologyRecord) (k : jsstring) :
  ~ In k (map specialist_key data) -> summarizes data k (new_summary k).
Proof.
  intros H. unfold summarizes, studies. rewrite (group_nil _ _ H). simpl.
  repeat split; reflexivity.
Qed.

Lemma length_filter_snoc {A : Type} (p : A -> bool) (l : list A) (a : A) :
  List.length (filter p (l ++ [a]))
  = (List.length (filter p l) + if p a then 1 else 0)%nat.
Proof.
  rewrite filter_app, length_app. simpl. now destruct (p a).
Qed.

Lemma of_nat_add_bit (n : nat) (b : bool) :
  N.of_nat (n + if b then 1 else 0) = N.of_nat n + if b then 1 else 0.
Proof. destruct b; lia. Qed.

Lemma summarizes_count (data : list RadiologyRecord) (curr : RadiologyRecord)
      (s : SummaryBySpecialist) :
  summarizes data (specialist_key curr) s ->
  summarizes (data ++ [curr]) (specialist_key curr) (count_record s curr).
Proof.
  intros (Hname & Htotal & Hmod & Hsub).
  unfold summarizes, studies. rewrite group_snoc_same.
  repeat split; simpl.
  - exact Hname.
  - rewrite Htotal. unfold studies. rewrite length_app. simpl. lia.
  - intros m. rewrite get_own_increment, length_filter_snoc.
    unfold has_modality at 2.
    destruct (jsstring_eqb (modality_key curr) m) eqn:E.
    + apply jsstring_eqb_eq in E. subst m.
      rewrite Hmod, counted_value.
      destruct (List.length (filter (has_modality (modality_key curr))
                                    (group data (specialist_key curr)))) as [|n];
        simpl; f_equal; lia.
    + now rewrite Hmod, Nat.add_0_r.
  - rewrite Hsub, increment_subcategories, !length_filter_snoc, !of_nat_add_bit.
    reflexivity.
Qed.

Lemma summarizes_other (data : list RadiologyRecord) (curr : RadiologyRecord)
      (k : jsstring) (s : SummaryBySpecialist) :
  k <> specialist_key curr ->
  summarizes data k s -> summarizes (data ++ [curr]) k s.
Proof.
  intros Hk. unfold summarizes, studies. now rewrite (group_snoc_other _ _ _ Hk).
Qed.

Lemma reduce_grouping (data : list RadiologyRecord) :
  (forall r, In r data -> inherited (specialist_key r) = false) ->
  exists grouped, reduce data [] = Normal grouped /\ grouping data grouped.
Proof.
  induction data as [|curr data IH] using rev_ind; intros Hdata.
  - exists []. split; [reflexivity|]. split; [reflexivity|]. intros k s H. discriminate H.
  - destruct IH as (acc & Hred & Hnames & Hsum).
    { intros r Hr. apply Hdata, in_or_app. now left. }
    rewrite reduce_snoc, Hred.
    rewrite reducer_Normal by (right; apply Hdata, in_or_app; right; now left).
    eexists. split; [reflexivity|]. split.
    + rewrite set_own_names, Hnames. unfold groups_first_seen in *.
      rewrite map_app. simpl. rewrite first_seen_snoc.
      destruct (get_own acc (specialist_key curr)) as [s|] eqn:E.
      * assert (Hin : In (specialist_key curr) (map fst acc)) by (apply get_own_In; eauto).
        rewrite Hnames in Hin. apply (proj1 (first_seen_In _ _)) in Hin.
        apply (proj2 (existsb_jsstring_eqb _ _)) in Hin. now rewrite Hin.
      * apply get_own_None in E. rewrite Hnames in E.
        destruct (existsb (jsstring_eqb (specialist_key curr)) (map specialist_key data)) eqn:X;
          [|reflexivity].
        apply (proj1 (existsb_jsstring_eqb _ _)) in X.
        apply (proj2 (first_seen_In _ _)) in X. contradiction.
    + intros k s Hk.
      destruct (list_eq_dec N.eq_dec k (specialist_key curr)) as [-> | Hne].
      * rewrite get_own_set_own_same in Hk. injection Hk as <-.
        apply summarizes_count. unfold summary_before.
        destruct (get_own acc (specialist_key curr)) as [s|] eqn:E.
        -- now apply Hsum.
        -- apply summarizes_new. apply get_own_None in E. rewrite Hnames in E.
           intros Hin. apply E. now apply (proj2 (first_seen_In _ _)).
      * rewrite get_own_set_own_other in Hk by exact Hne.
        apply summarizes_other; [exact Hne | now apply Hsum].
Qed.

Lemma reduce_Normal_inherited (data : list RadiologyRecord)
      (grouped : JSObject SummaryBySpecialist) :
  reduce data [] = Normal grouped ->
  forall r, In r data -> inherited (specialist_key r) = false.
Proof.
  revert grouped. induction data as [|curr data IH] using rev_ind; intros grouped H r Hr.
  - contradiction.
  - rewrite reduce_snoc in H.
    destruct (reduce data []) as [acc|] eqn:Hred; [|discriminate H].
    specialize (IH acc eq_refl).
    apply in_app_or in Hr. destruct Hr as [Hr | [<- | []]]; [now apply IH|].
    destruct (reduce_grouping data IH) as (acc' & Hred' & Hnames & _).
    rewrite Hred in Hred'. injection Hred' as <-.
    destruct (get_own acc (specialist_key curr)) as [s|] eqn:E.
    + assert (Hin : In (specialist_key curr) (map fst acc)) by (apply get_own_In; eauto).
      rewrite Hnames in Hin. unfold groups_first_seen in Hin.
      apply (proj1 (first_seen_In _ _)) in Hin. apply in_map_iff in Hin.
      destruct Hin as (r0 & Hkey & Hr0). rewrite <- Hkey. now apply IH.
    + destruct (inherited (specialist_key curr)) eqn:I; [|reflexivity].
      rewrite (reducer_Throw _ _ E I) in H. discriminate H.
Qed.

(** ** The order of the values of an object *)

Lemma insert_by_index_perm (k : jsstring) (l : list jsstring) :
  Permutation (k :: l) (insert_by_index k l).
Proof.
  induction l as [|a l IH]; simpl; [reflexivity|].
  destruct (index_of k <=? index_of a); [reflexivity|].
  rewrite perm_swap. now apply perm_skip.
Qed.

Lemma filter_split_perm {A : Type} (p : A -> bool) (l : list A) :
  Permutation (filter p l ++ filter (fun a => negb (p a)) l) l.
Proof.
  induction l as [|a l IH]; simpl; [constructor|].
  destruct (p a); simpl.
  - now apply perm_skip.
  - rewrite <- Permutation_middle. now apply perm_skip.
Qed.

Lemma OrdinaryOwnPropertyKeys_perm (names : list jsstring) :
  Permutation (OrdinaryOwnPropertyKeys names) names.
Proof.
  unfold OrdinaryOwnPropertyKeys.
  rewrite <- (filter_split_perm is_index names) at 3.
  apply Permutation_app_tail.
  induction (filter is_index names) as [|k l IH]; simpl; [constructor|].
  rewrite <- insert_by_index_perm. now apply perm_skip.
Qed.

(** Without array indices among the names, the order is the creation
    order. *)
Lemma OrdinaryOwnPropertyKeys_no_index (names : list jsstring) :
  (forall k, In k names -> is_index k = false) ->
  OrdinaryOwnPropertyKeys names = names.
Proof.
  intros H. unfold OrdinaryOwnPropertyKeys.
  rewrite (filter_none is_index names H). simpl.
  apply filter_all. intros k Hk. now rewrite (H k Hk).
Qed.

(** The array indices come in ascending order. *)
Lemma indices_ascending (names : list jsstring) :
  StronglySorted (fun a b => index_of a <= index_of b)
                 (fold_right insert_by_index [] names).
Proof.
  induction names as [|k l IH]; simpl; [constructor|].
  induction IH as [|a r Hr IHr Ha]; simpl.
  - repeat constructor.
  - destruct (index_of k <=? index_of a) eqn:E.
    + apply N.leb_le in E. constructor; [now constructor|].
      constructor; [exact E|].
      eapply Forall_impl; [|exact Ha]. intros b Hb. simpl in Hb. lia.
    + apply N.leb_gt in E. constructor; [exact IHr|].
      eapply Permutation_Forall; [apply insert_by_index_perm|].
      constructor; [lia | exact Ha].
Qed.

Lemma Object_values_In {V : Type} (o : JSObject V) (v : V) :
  In v (Object_values o) -> exists k, get_own o k = Some v.
Proof.
  unfold Object_values. rewrite in_flat_map. intros (k & _ & H).
  exists k. destruct (get_own o k) as [w|]; simpl in H; [|contradiction].
  destruct H as [-> | []]. reflexivity.
Qed.

Lemma Object_values_names {V : Type} (o : JSObject V) (name : V -> jsstring) :
  (forall k v, get_own o k = Some v -> name v = k) ->
  map name (Object_values o) = OrdinaryOwnPropertyKeys (map fst o).
Proof.
  intros Hname. unfold Object_values.
  assert (H : forall k, In k (OrdinaryOwnPropertyKeys (map fst o)) ->
                        exists v, get_own o k = Some v).
  { intros k Hk. apply get_own_In.
    eapply Permutation_in; [apply OrdinaryOwnPropertyKeys_perm | exact Hk]. }
  induction (OrdinaryOwnPropertyKeys (map fst o)) as [|k ks IH]; simpl; [reflexivity|].
  destruct (H k (or_introl eq_refl)) as [v Hv]. rewrite Hv. simpl.
  rewrite (Hname k v Hv). f_equal. apply IH. intros; apply H; now right.
Qed.

(** ** The sort by total *)

Lemma by_total_descending_key (a b : SummaryBySpecialist) :
  by_total_descending a b
  = Some (- Z.of_N (totalStudies a) - - Z.of_N (totalStudies b))%Z.
Proof. unfold by_total_descending, minus. f_equal. lia. Qed.

Lemma by_total_descending_consistent (l : list SummaryBySpecialist) :
  consistent by_total_descending l.
Proof.
  apply difference_consistent with (key := fun s => (- Z.of_N (totalStudies s))%Z).
  intros a b _ _. apply by_total_descending_key.
Qed.

Section KeyedSort.
Variable A : Type.
Variable comparefn : A -> A -> JSNumber.
Variable key : A -> Z.
Hypothesis comparefn_key : forall a b, comparefn a b = Some (key a - key b)%Z.

Lemma SortCompare_key (a b : A) : SortCompare comparefn a b = (key a - key b)%Z.
Proof. unfold SortCompare. now rewrite comparefn_key. Qed.

Lemma insert_sorted_sorted (x : A) (l : list A) :
  StronglySorted (fun a b => key a <= key b)%Z l ->
  StronglySorted (fun a b => key a <= key b)%Z (insert_sorted comparefn x l).
Proof.
  intros H. induction H as [|y l Hl IH Hy]; simpl.
  - repeat constructor.
  - rewrite SortCompare_key. destruct (key x - key y <=? 0)%Z eqn:E.
    + apply Z.leb_le in E. constructor; [now constructor|].
      constructor; [lia|].
      eapply Forall_impl; [|exact Hy]. intros b Hb. simpl in Hb. lia.
    + apply Z.leb_gt in E. constructor; [exact IH|].
      eapply Permutation_Forall; [apply insert_sorted_perm|].
      constructor; [lia | exact Hy].
Qed.

Lemma stable_sort_sorted (l : list A) :
  StronglySorted (fun a b => key a <= key b)%Z (stable_sort comparefn l).
Proof.
  induction l as [|x l IH]; simpl; [constructor | now apply insert_sorted_sorted].
Qed.

(** Stability: the elements of one key keep their order. *)
Lemma insert_sorted_stable (n : Z) (x : A) (l : list A) :
  filter (fun a => key a =? n)%Z (insert_sorted comparefn x l)
  = filter (fun a => key a =? n)%Z (x :: l).
Proof.
  induction l as [|y l IH]; [reflexivity|].
  cbn [insert_sorted]. rewrite SortCompare_key.
  destruct (key x - key y <=? 0)%Z eqn:E; [reflexivity|].
  apply Z.leb_gt in E. cbn [filter] in *.
  destruct (key y =? n)%Z eqn:Y.
  - apply Z.eqb_eq in Y. rewrite IH.
    destruct (key x =? n)%Z eqn:X; [|reflexivity].
    apply Z.eqb_eq in X. lia.
  - exact IH.
Qed.

Lemma stable_sort_stable (n : Z) (l : list A) :
  filter (fun a => key a =? n)%Z (stable_sort comparefn l)
  = filter (fun a => key a =? n)%Z l.
Proof.
  induction l as [|x l IH]; [reflexivity|].
  cbn [stable_sort fold_right]. fold (stable_sort comparefn l).
  rewrite insert_sorted_stable. cbn [filter]. now rewrite IH.
Qed.
End KeyedSort.

Lemma map_filter_names {A B : Type} (name : A -> B) (p : A -> bool) (q : B -> bool)
      (l : list A) :
  (forall a, In a l -> p a = q (name a)) ->
  map name (filter p l) = filter q (map name l).
Proof.
  induction l as [|a l IH]; simpl; intros H; [reflexivity|].
  rewrite <- (H a (or_introl eq_refl)).
  destruct (p a); simpl; rewrite IH by (intros; apply H; now right); reflexivity.
Qed.

Lemma subcategories_partition (g : list RadiologyRecord) :
  N.of_nat (List.length (filter (has_subcategory CONTRASTADOS) g))
  + N.of_nat (List.length (filter (has_subcategory ESPECIALES) g))
  + N.of_nat (List.length (filter (has_subcategory STANDARD) g))
  = N.of_nat (List.length g).
Proof.
  induction g as [|r g IH]; [reflexivity|].
  unfold has_subcategory in *. simpl filter.
  destruct (subcategory r); simpl Subcategory_eqb; cbv iota; simpl List.length; lia.
Qed.

(** ** The summaries *)

Lemma getSummaryBySpecialist_grouping (data : list RadiologyRecord) :
  (forall r, In r data -> inherited (specialist_key r) = false) ->
  exists grouped,
    grouping data grouped /\
    getSummaryBySpecialist data
    = Normal (stable_sort by_total_descending (Object_values grouped)).
Proof.
  intros H. destruct (reduce_grouping data H) as (grouped & Hred & Hg).
  exists grouped. split; [exact Hg|].
  unfold getSummaryBySpecialist. rewrite Hred. f_equal.
  apply Array_sort_conforms, by_total_descending_consistent.
Qed.

Lemma getSummaryBySpecialist_Normal (data : list RadiologyRecord)
      (out : list SummaryBySpecialist) :
  getSummaryBySpecialist data = Normal out ->
  forall r, In r data -> inherited (specialist_key r) = false.
Proof.
  unfold getSummaryBySpecialist.
  destruct (reduce data []) as [grouped|] eqn:E; [|discriminate].
  intros _. exact (reduce_Normal_inherited data grouped E).
Qed.

(** A specialist's name that the grouping object inherits makes the call
    throw. *)
Lemma getSummaryBySpecialist_throws (data : list RadiologyRecord) (r : RadiologyRecord) :
  In r data -> inherited (specialist_key r) = true ->
  getSummaryBySpecialist data = Throw_TypeError.
Proof.
  intros Hr Hi.
  destruct (getSummaryBySpecialist data) as [out|] eqn:E; [|reflexivity].
  rewrite (getSummaryBySpecialist_Normal data out E r Hr) in Hi. discriminate Hi.
Qed.

Lemma values_summarize (data : list RadiologyRecord)
      (grouped : JSObject SummaryBySpecialist) :
  grouping data grouped ->
  Forall (fun s => summarizes data (specialist s) s) (Object_values grouped).
Proof.
  intros [_ Hsum]. apply Forall_forall. intros s Hs.
  destruct (Object_values_In grouped s Hs) as [k Hk].
  specialize (Hsum k s Hk). destruct Hsum as [Hname Hrest].
  rewrite Hname. now split.
Qed.

Lemma values_names (data : list RadiologyRecord)
      (grouped : JSObject SummaryBySpecialist) :
  grouping data grouped ->
  map specialist (Object_values grouped)
  = OrdinaryOwnPropertyKeys (groups_first_seen data).
Proof.
  intros [Hnames Hsum]. rewrite <- Hnames. apply Object_values_names.
  intros k s Hk. now destruct (Hsum k s Hk).
Qed.

Lemma StronglySorted_weaken {A : Type} (R R' : A -> A -> Prop) (l : list A) :
  (forall a b, R a b -> R' a b) -> StronglySorted R l -> StronglySorted R' l.
Proof.
  intros H S. induction S as [|a l S IH Ha]; constructor; [exact IH|].
  eapply Forall_impl; [|exact Ha]. intros b. apply H.
Qed.

Lemma filter_ext_in {A : Type} (p q : A -> bool) (l : list A) :
  (forall a, In a l -> p a = q a) -> filter p l = filter q l.
Proof.
  induction l as [|a l IH]; simpl; intros H; [reflexivity|].
  rewrite (H a (or_introl eq_refl)), IH by (intros; apply H; now right).
  reflexivity.
Qed.

(** C3. Every summary that [getSummaryBySpecialist] returns holds the three
    subcategory keys, and their three counts add up to its totalStudies;
    and summaries are returned for every collection in which no specialist
    is named as a property that the grouping object inherits. *)
Theorem subcategory_counts_sum (data : list RadiologyRecord) :
  ((forall r, In r data -> inherited (specialist_key r) = false) ->
   exists out, getSummaryBySpecialist data = Normal out) /\
  (forall out, getSummaryBySpecialist data = Normal out ->
     Forall (fun s => exists c e t,
                 subcategories s
                 = [ (js "CONTRASTADOS", c); (js "ESPECIALES", e); (js "STANDARD", t) ] /\
                 c + e + t = totalStudies s) out).
Proof.
  split.
  - intros H. destruct (getSummaryBySpecialist_grouping data H) as (g & _ & E). eauto.
  - intros out Hout.
    pose proof (getSummaryBySpecialist_Normal data out Hout) as H.
    destruct (getSummaryBySpecialist_grouping data H) as (g & Hg & E).
    rewrite Hout in E. injection E as ->.
    eapply Permutation_Forall; [apply stable_sort_perm|].
    eapply Forall_impl; [|exact (values_summarize data g Hg)].
    intros s (_ & Htotal & _ & Hsub). do 3 eexists. split; [exact Hsub|].
    rewrite Htotal. apply subcategories_partition.
Qed.

(** C4, as amended.  For a collection in which no specialist is named as a
    property that the grouping object inherits, [getSummaryBySpecialist]
    returns the summaries of the groups, one for each group, sorted by
    totalStudies, descending;
    summaries of equal total stand in the order in which the grouping
    object enumerates its keys: the names that are array indices first, in
    ascending numeric order, then the other names in the order in which
    their groups were first seen.  When no name is an array index, summaries
    of equal total stand in first-seen order; so for specialists A, B and C
    first seen in that order with 2, 5 and 5 studies the order is B, C, A. *)
Theorem getSummaryBySpecialist_order (data : list RadiologyRecord) :
  (forall r, In r data -> inherited (specialist_key r) = false) ->
  exists out,
    getSummaryBySpecialist data = Normal out /\
    StronglySorted (fun a b => totalStudies b <= totalStudies a) out /\
    Permutation (groups_first_seen data) (map specialist out) /\
    Forall (fun s => totalStudies s = studies data (specialist s)) out /\
    (forall n,
       map specialist (filter (fun s => totalStudies s =? n) out)
       = filter (fun k => studies data k =? n)
                (OrdinaryOwnPropertyKeys (groups_first_seen data))) /\
    ((forall r, In r data -> is_index (specialist_key r) = false) ->
     forall n,
       map specialist (filter (fun s => totalStudies s =? n) out)
       = filter (fun k => studies data k =? n) (groups_first_seen data)) /\
    (groups_first_seen data = [js "A"; js "B"; js "C"] ->
     studies data (js "A") = 2 -> studies data (js "B") = 5 -> studies data (js "C") = 5 ->
     map specialist out = [js "B"; js "C"; js "A"]).
Proof.
  intros H. destruct (getSummaryBySpecialist_grouping data H) as (g & Hg & E).
  pose proof (values_summarize data g Hg) as Hvals.
  pose proof (values_names data g Hg) as Hnames.
  set (vals := Object_values g) in *.
  set (key := fun s => (- Z.of_N (totalStudies s))%Z).
  assert (Htotals : Forall (fun s => totalStudies s = studies data (specialist s)) vals).
  { eapply Forall_impl; [|exact Hvals]. now intros s (_ & Ht & _). }
  assert (Hties : forall n,
             map specialist (filter (fun s => totalStudies s =? n)
                                    (stable_sort by_total_descending vals))
             = filter (fun k => studies data k =? n)
                      (OrdinaryOwnPropertyKeys (groups_first_seen data))).
  { intros n.
    rewrite (filter_ext_in _ (fun s => key s =? - Z.of_N n)%Z)
      by (intros s _; unfold key;
          destruct (N.eqb_spec (totalStudies s) n);
          [symmetry; apply Z.eqb_eq; lia | symmetry; apply Z.eqb_neq; lia]).
    rewrite (stable_sort_stable _ by_total_descending key by_total_descending_key).
    rewrite <- Hnames. apply map_filter_names.
    intros s Hs. rewrite Forall_forall in Htotals. rewrite <- (Htotals s Hs).
    unfold key. destruct (N.eqb_spec (totalStudies s) n);
      [apply Z.eqb_eq; lia | apply Z.eqb_neq; lia]. }
  eexists. split; [exact E|]. split; [|split; [|split; [|split; [|split]]]].
  - eapply StronglySorted_weaken;
      [|exact (stable_sort_sorted _ by_total_descending key by_total_descending_key vals)].
    unfold key. intros a b Hab. simpl in Hab. lia.
  - rewrite <- (OrdinaryOwnPropertyKeys_perm (groups_first_seen data)), <- Hnames.
    apply Permutation_map, stable_sort_perm.
  - eapply Permutation_Forall; [apply stable_sort_perm | exact Htotals].
  - exact Hties.
  - intros Hidx n. rewrite Hties. f_equal.
    apply OrdinaryOwnPropertyKeys_no_index. intros k Hk.
    unfold groups_first_seen in Hk. apply (proj1 (first_seen_In _ _)) in Hk.
    apply in_map_iff in Hk. destruct Hk as (r & <- & Hr). now apply Hidx.
  - intros Hseen nA nB nC. rewrite Hseen in Hnames.
    change (OrdinaryOwnPropertyKeys [js "A"; js "B"; js "C"])
      with [js "A"; js "B"; js "C"] in Hnames.
    destruct vals as [|sA [|sB [|sC [|s vals]]]]; try discriminate Hnames.
    injection Hnames as HA HB HC.
    inversion Htotals as [|? ? tA Ht1]; subst.
    inversion Ht1 as [|? ? tB Ht2]; subst.
    inversion Ht2 as [|? ? tC _]; subst.
    rewrite HA, nA in tA. rewrite HB, nB in tB. rewrite HC, nC in tC.
    assert (cBC : SortCompare by_total_descending sB sC = 0%Z)
      by (unfold SortCompare, by_total_descending, minus; now rewrite tB, tC).
    assert (cAB : SortCompare by_total_descending sA sB = 3%Z)
      by (unfold SortCompare, by_total_descending, minus; now rewrite tA, tB).
    assert (cAC : SortCompare by_total_descending sA sC = 3%Z)
      by (unfold SortCompare, by_total_descending, minus; now rewrite tA, tC).
    unfold stable_sort. cbn [fold_right insert_sorted].
    rewrite cBC. change (0 <=? 0)%Z with true. cbv iota.
    cbn [insert_sorted]. rewrite cAB. change (3 <=? 0)%Z with false. cbv iota.
    cbn [insert_sorted]. rewrite cAC. change (3 <=? 0)%Z with false. cbv iota.
    cbn [insert_sorted].
    cbn [map]. now rewrite HA, HB, HC.
Qed.

(** ** Normalization *)

Lemma code_points_id (s : jsstring) :
  Forall (fun c => is_high_surrogate c = false) s -> code_points s = s.
Proof.
  induction 1 as [|c s Hc Hs IH]; [reflexivity|].
  cbn [code_points]. rewrite Hc. cbn [andb]. rewrite IH. now destruct s.
Qed.

Lemma from_code_points_id (l : list N) :
  Forall (fun c => c < 0x10000) l -> from_code_points l = l.
Proof.
  unfold from_code_points. induction 1 as [|c l Hc Hl IH]; [reflexivity|].
  cbn [flat_map]. rewrite IH. unfold utf16_units.
  apply N.ltb_lt in Hc. now rewrite Hc.
Qed.

Lemma flat_map_singletons {A : Type} (f : A -> list A) (l : list A) :
  Forall (fun c => f c = [c]) l -> flat_map f l = l.
Proof.
  induction 1 as [|c l Hc Hl IH]; [reflexivity|].
  cbn [flat_map]. now rewrite Hc, IH.
Qed.

Lemma canonical_order_starters (l : list N) :
  Forall (fun c => combining_class U c = 0) l -> canonical_order U l = l.
Proof.
  unfold canonical_order. induction 1 as [|c l Hc Hl IH]; [reflexivity|].
  cbn [fold_right]. now rewrite IH, Hc.
Qed.

Lemma normalize_NFD_settled (s : jsstring) :
  Forall settled s -> normalize_NFD U s = s.
Proof.
  intros H. unfold normalize_NFD.
  rewrite code_points_id, flat_map_singletons, canonical_order_starters,
    from_code_points_id; try reflexivity;
    (eapply Forall_impl; [|exact H]); unfold settled; tauto.
Qed.

Lemma toUpperCase_settled (s : jsstring) :
  Forall settled s -> toUpperCase U s = s.
Proof.
  intros H. unfold toUpperCase.
  rewrite code_points_id, flat_map_singletons, from_code_points_id; try reflexivity;
    (eapply Forall_impl; [|exact H]); unfold settled; tauto.
Qed.

Lemma remove_accents_settled (s : jsstring) :
  Forall settled s -> remove_accents s = s.
Proof.
  intros H. apply filter_all. rewrite Forall_forall in H.
  intros c Hc. destruct (H c Hc) as (_ & _ & _ & _ & _ & ->). reflexivity.
Qed.

Lemma replace_punctuation_none (s : jsstring) :
  Forall (fun c => is_punctuation c = false) s -> replace_punctuation s = s.
Proof.
  unfold replace_punctuation. induction 1 as [|c s Hc Hs IH]; [reflexivity|].
  cbn [map]. now rewrite Hc, IH.
Qed.

Lemma replace_punctuation_Forall (Q : N -> Prop) (s : jsstring) :
  Q space -> Forall Q s -> Forall Q (replace_punctuation s).
Proof.
  intros Hq H. unfold replace_punctuation. induction H as [|c s Hc Hs IH]; cbn [map].
  - constructor.
  - constructor; [now destruct (is_punctuation c) | exact IH].
Qed.

Lemma replace_punctuation_clean (s : jsstring) :
  Forall (fun c => is_punctuation c = false) (replace_punctuation s).
Proof.
  unfold replace_punctuation. induction s as [|c s IH]; cbn [map]; constructor.
  - destruct (is_punctuation c) eqn:E; [reflexivity | exact E].
  - exact IH.
Qed.

(** *** Collapsing *)

Lemma collapse_from_Forall (Q : N -> Prop) (b : bool) (s : jsstring) :
  Q space -> Forall Q s -> Forall Q (collapse_from b s).
Proof.
  intros Hq H. revert b. induction H as [|c s Hc Hs IH]; intros b; cbn [collapse_from].
  - constructor.
  - destruct (is_whitespace c); [destruct b|]; auto.
Qed.

Lemma collapse_from_collapsed (b : bool) (s : jsstring) :
  collapsed_from b (collapse_from b s) = true.
Proof.
  revert b. induction s as [|c s IH]; intros b; cbn [collapse_from]; [reflexivity|].
  destruct (is_whitespace c) eqn:W.
  - destruct b; [apply IH|].
    cbn [collapsed_from]. change (is_whitespace space) with true. cbv iota.
    rewrite IH. reflexivity.
  - cbn [collapsed_from]. rewrite W. apply IH.
Qed.

Lemma collapsed_from_fixed (b : bool) (s : jsstring) :
  collapsed_from b s = true -> collapse_from b s = s.
Proof.
  revert b. induction s as [|c s IH]; intros b; cbn [collapsed_from collapse_from];
    [reflexivity|].
  destruct (is_whitespace c).
  - intros H. apply andb_prop in H as [H Hs]. apply andb_prop in H as [Hc Hb].
    apply N.eqb_eq in Hc. apply negb_true_iff in Hb. subst b c.
    now rewrite (IH true Hs).
  - intros H. now rewrite (IH false H).
Qed.

Lemma collapsed_from_weaken (b : bool) (s : jsstring) :
  collapsed_from b s = true -> collapsed_from false s = true.
Proof.
  destruct s as [|c s]; [reflexivity|]. cbn [collapsed_from].
  destruct (is_whitespace c); [|auto].
  intros H. apply andb_prop in H as [H Hs]. apply andb_prop in H as [Hc _].
  now rewrite Hc, Hs.
Qed.

Lemma collapsed_from_suffix (b : bool) (p s : jsstring) :
  collapsed_from b (p ++ s) = true -> collapsed_from false s = true.
Proof.
  revert b. induction p as [|c p IH]; intros b; cbn [app].
  - apply collapsed_from_weaken.
  - cbn [collapsed_from]. destruct (is_whitespace c); [|apply IH].
    intros H. apply andb_prop in H as [_ Hs]. exact (IH true Hs).
Qed.

Lemma collapsed_from_prefix (b : bool) (s q : jsstring) :
  collapsed_from b (s ++ q) = true -> collapsed_from b s = true.
Proof.
  revert b. induction s as [|c s IH]; intros b; cbn [app]; [reflexivity|].
  cbn [collapsed_from]. destruct (is_whitespace c); [|apply IH].
  intros H. apply andb_prop in H as [H Hs]. now rewrite H, (IH true Hs).
Qed.

(** *** Trimming *)

Lemma trimStart_suffix (s : jsstring) : exists p, s = p ++ trimStart s.
Proof.
  induction s as [|c s [p Hp]]; [now exists []|].
  cbn [trimStart]. destruct (is_whitespace c).
  - exists (c :: p). cbn [app]. now f_equal.
  - now exists [].
Qed.

Lemma trimEnd_prefix (s : jsstring) : exists q, s = trimEnd s ++ q.
Proof.
  unfold trimEnd. destruct (trimStart_suffix (rev s)) as [p Hp].
  exists (rev p). rewrite <- rev_app_distr, <- Hp. now rewrite rev_involutive.
Qed.

Lemma trimStart_idempotent (s : jsstring) : trimStart (trimStart s) = trimStart s.
Proof.
  induction s as [|c s IH]; [reflexivity|].
  cbn [trimStart]. destruct (is_whitespace c) eqn:W; [exact IH|].
  cbn [trimStart]. now rewrite W.
Qed.

Lemma trimEnd_idempotent (s : jsstring) : trimEnd (trimEnd s) = trimEnd s.
Proof.
  unfold trimEnd. now rewrite rev_involutive, trimStart_idempotent.
Qed.

Lemma trimStart_trimEnd (s : jsstring) :
  trimStart s = s -> trimStart (trimEnd s) = trimEnd s.
Proof.
  intros H. destruct (trimEnd_prefix s) as [q Hq].
  destruct (trimEnd s) as [|c y]; [reflexivity|].
  rewrite Hq in H. cbn [app trimStart] in H. cbn [trimStart].
  destruct (is_whitespace c); [|reflexivity].
  exfalso. destruct (trimStart_suffix (y ++ q)) as [p Hp].
  rewrite H in Hp. apply (f_equal (@List.length N)) in Hp.
  rewrite !length_app in Hp. cbn [List.length] in Hp. rewrite ?length_app in Hp. lia.
Qed.

Lemma trim_idempotent (s : jsstring) : trim (trim s) = trim s.
Proof.
  unfold trim.
  rewrite (trimStart_trimEnd (trimStart s) (trimStart_idempotent s)).
  apply trimEnd_idempotent.
Qed.

(** What [trim] returns stands in its argument. *)
Lemma trim_factor (s : jsstring) : exists p q, s = p ++ trim s ++ q.
Proof.
  unfold trim. destruct (trimStart_suffix s) as [p Hp].
  destruct (trimEnd_prefix (trimStart s)) as [q Hq].
  exists p, q. now rewrite <- Hq.
Qed.

Lemma trim_Forall (Q : N -> Prop) (s : jsstring) : Forall Q s -> Forall Q (trim s).
Proof.
  destruct (trim_factor s) as (p & q & E). intros H. rewrite E in H.
  apply Forall_app in H as [_ H]. now apply Forall_app in H as [H _].
Qed.

Lemma trim_collapsed (s : jsstring) :
  collapsed_from false s = true -> collapsed_from false (trim s) = true.
Proof.
  destruct (trim_factor s) as (p & q & E). intros H. rewrite E in H.
  apply collapsed_from_suffix in H. now apply collapsed_from_prefix in H.
Qed.

(** *** Fixed points *)

Lemma normalize_fixed (y : jsstring) :
  Forall settled y ->
  Forall (fun c => is_punctuation c = false) y ->
  collapsed_from false y = true ->
  trim y = y ->
  normalize U y = y.
Proof.
  intros Hs Hp Hc Ht. unfold normalize.
  rewrite or_else_string, (normalize_NFD_settled y Hs), (remove_accents_settled y Hs),
    (toUpperCase_settled y Hs), (replace_punctuation_none y Hp).
  unfold collapse_spaces. now rewrite (collapsed_from_fixed false y Hc).
Qed.

Lemma normalize_idempotent_settled (x : jsstring) :
  settled space ->
  Forall (fun c => Forall settled (upper_case U c))
         (code_points (remove_accents (normalize_NFD U x))) ->
  normalize U (normalize U x) = normalize U x.
Proof.
  intros Hspace H. apply normalize_fixed; unfold normalize; rewrite or_else_string.
  - apply trim_Forall, collapse_from_Forall, replace_punctuation_Forall; try exact Hspace.
    unfold toUpperCase. apply Forall_flat_map in H.
    rewrite from_code_points_id; [exact H|].
    eapply Forall_impl; [|exact H]. unfold settled; tauto.
  - apply trim_Forall, collapse_from_Forall; [reflexivity|].
    apply replace_punctuation_clean.
  - apply trim_collapsed, collapse_from_collapsed.
  - apply trim_idempotent.
Qed.

(** *** Code points and code units *)

Lemma code_points_unpaired (c : N) (s : jsstring) :
  is_high_surrogate c
  && match s with lo :: _ => is_low_surrogate lo | [] => false end = false ->
  code_points (c :: s) = c :: code_points s.
Proof.
  destruct s as [|lo s]; cbn [code_points]; [reflexivity|]. now intros ->.
Qed.

Lemma code_points_paired (hi lo : N) (s : jsstring) :
  is_high_surrogate hi = true -> is_low_surrogate lo = true ->
  code_points (hi :: lo :: s)
  = (0x10000 + (hi - 0xD800) * 0x400 + (lo - 0xDC00)) :: code_points s.
Proof. intros Hh Hl. cbn [code_points]. now rewrite Hh, Hl. Qed.

(** Induction on a string by its code points: a code unit that is not the
    first of a pair, or a pair. *)
Lemma jsstring_pairs_ind (P : jsstring -> Prop) :
  P [] ->
  (forall c s,
      is_high_surrogate c
      && match s with lo :: _ => is_low_surrogate lo | [] => false end = false ->
      P s -> P (c :: s)) ->
  (forall hi lo s,
      is_high_surrogate hi = true -> is_low_surrogate lo = true ->
      P s -> P (hi :: lo :: s)) ->
  forall s, P s.
Proof.
  intros H0 H1 H2 s.
  assert (H : P s /\ forall c, P (c :: s)).
  { induction s as [|d s [IHs IHc]].
    - split; [exact H0|]. intros c. apply H1; [apply andb_false_r | exact H0].
    - split; [apply IHc|]. intros c.
      destruct (is_high_surrogate c && is_low_surrogate d) eqn:E.
      + apply andb_prop in E as [Eh El]. now apply H2.
      + apply H1; [exact E | apply IHc]. }
  exact (proj1 H).
Qed.

Lemma surrogate_pair_above (hi lo : N) :
  is_high_surrogate hi = true -> is_low_surrogate lo = true ->
  0x10000 <= 0x10000 + (hi - 0xD800) * 0x400 + (lo - 0xDC00).
Proof. intros _ _. lia. Qed.

Lemma utf16_units_pair (hi lo : N) :
  is_high_surrogate hi = true -> is_low_surrogate lo = true ->
  utf16_units (0x10000 + (hi - 0xD800) * 0x400 + (lo - 0xDC00)) = [hi; lo].
Proof.
  unfold is_high_surrogate, is_low_surrogate, utf16_units. intros Hh Hl.
  apply andb_prop in Hh as [H1 H2]. apply andb_prop in Hl as [L1 L2].
  apply N.leb_le in H1, H2, L1, L2.
  destruct (N.ltb_spec (0x10000 + (hi - 0xD800) * 0x400 + (lo - 0xDC00)) 0x10000); [lia|].
  replace (0x10000 + (hi - 0xD800) * 0x400 + (lo - 0xDC00) - 0x10000)
    with ((lo - 0xDC00) + (hi - 0xD800) * 0x400) by lia.
  rewrite N.div_add by discriminate. rewrite N.Div0.mod_add.
  rewrite N.div_small by lia. rewrite N.mod_small by lia.
  f_equal; [lia|]. f_equal. lia.
Qed.

(** A string is the UTF-16 form of its code points. *)
Lemma from_code_points_code_points (s : jsstring) :
  Forall (fun c => c < 0x10000) s -> from_code_points (code_points s) = s.
Proof.
  induction s as [|c s Hc IH|hi lo s Hh Hl IH] using jsstring_pairs_ind; intros H.
  - reflexivity.
  - rewrite (code_points_unpaired c s Hc). inversion H as [|? ? Hlt Hs]; subst.
    unfold from_code_points in *. cbn [flat_map]. rewrite (IH Hs).
    unfold utf16_units. apply N.ltb_lt in Hlt. now rewrite Hlt.
  - rewrite (code_points_paired hi lo s Hh Hl).
    inversion H as [|? ? _ Hs]; subst. inversion Hs as [|? ? _ Hs']; subst.
    unfold from_code_points in *. cbn [flat_map].
    now rewrite (utf16_units_pair hi lo Hh Hl), (IH Hs').
Qed.

Lemma whitespace_range (c : N) : is_whitespace c = true -> c < 0xD800 \/ c = 0xFEFF.
Proof.
  unfold is_whitespace. intros H.
  repeat (apply orb_prop in H as [H | H]);
    try (apply N.eqb_eq in H; subst c; (left; reflexivity) || (right; reflexivity));
    apply andb_prop in H as [_ H]; apply N.leb_le in H; left; lia.
Qed.

Lemma punctuation_range (c : N) : is_punctuation c = true -> c < 0xD800.
Proof.
  unfold is_punctuation. intros H.
  repeat (apply orb_prop in H as [H | H]); apply N.eqb_eq in H; subst c; reflexivity.
Qed.

Lemma accent_range (c : N) : is_accent c = true -> c < 0xD800.
Proof.
  unfold is_accent. intros H. apply andb_prop in H as [_ H]. apply N.leb_le in H. lia.
Qed.

Lemma not_surrogate (c : N) :
  c < 0xD800 \/ c = 0xFEFF -> is_high_surrogate c = false /\ is_low_surrogate c = false.
Proof.
  unfold is_high_surrogate, is_low_surrogate. intros [H | ->]; [|split; reflexivity].
  destruct (N.leb_spec 0xD800 c); [lia|]. destruct (N.leb_spec 0xDC00 c); [lia|].
  split; reflexivity.
Qed.

Lemma whitespace_not_surrogate (c : N) :
  is_whitespace c = true -> is_high_surrogate c = false /\ is_low_surrogate c = false.
Proof. intros H. apply not_surrogate, whitespace_range, H. Qed.

Lemma above_plain (c : N) :
  0x10000 <= c ->
  is_whitespace c = false /\ is_punctuation c = false /\ is_accent c = false.
Proof.
  intros H. repeat split.
  - destruct (is_whitespace c) eqn:E; [|reflexivity].
    apply whitespace_range in E. lia.
  - destruct (is_punctuation c) eqn:E; [|reflexivity].
    apply punctuation_range in E. lia.
  - destruct (is_accent c) eqn:E; [|reflexivity].
    apply accent_range in E. lia.
Qed.

Lemma surrogate_plain (c : N) :
  is_high_surrogate c = true \/ is_low_surrogate c = true ->
  is_whitespace c = false /\ is_punctuation c = false /\ is_accent c = false.
Proof.
  intros H.
  assert (R : 0xD800 <= c <= 0xDFFF).
  { unfold is_high_surrogate, is_low_surrogate in H.
    destruct H as [H | H]; apply andb_prop in H as [H1 H2]; apply N.leb_le in H1, H2; lia. }
  repeat split.
  - destruct (is_whitespace c) eqn:E; [|reflexivity].
    apply whitespace_range in E. lia.
  - destruct (is_punctuation c) eqn:E; [|reflexivity].
    apply punctuation_range in E. lia.
  - destruct (is_accent c) eqn:E; [|reflexivity].
    apply accent_range in E. lia.
Qed.

(** The head of a string after a step that keeps, replaces by a space or
    removes its white space is no low surrogate when the head of the string
    is none. *)
Lemma unpaired_head (c d : N) :
  is_high_surrogate c && is_low_surrogate d = false ->
  forall e, (e = d \/ is_low_surrogate e = false) ->
            is_high_surrogate c && is_low_surrogate e = false.
Proof.
  intros H e [-> | He]; [exact H | rewrite He; apply andb_false_r].
Qed.

(** The replacement of punctuation, on code units and on code points. *)
Lemma code_points_replace_punctuation (s : jsstring) :
  code_points (replace_punctuation s) = replace_punctuation (code_points s).
Proof.
  unfold replace_punctuation.
  induction s as [|c s Hc IH|hi lo s Hh Hl IH] using jsstring_pairs_ind.
  - reflexivity.
  - rewrite (code_points_unpaired c s Hc). cbn [map]. rewrite <- IH.
    apply code_points_unpaired.
    destruct (is_punctuation c) eqn:Pc; [reflexivity|].
    destruct s as [|d s]; [exact Hc|]. cbn [map].
    destruct (is_punctuation d); [apply andb_false_r | exact Hc].
  - rewrite (code_points_paired hi lo s Hh Hl). cbn [map].
    destruct (surrogate_plain hi (or_introl Hh)) as (_ & -> & _).
    destruct (surrogate_plain lo (or_intror Hl)) as (_ & -> & _).
    rewrite (code_points_paired hi lo _ Hh Hl), IH.
    destruct (above_plain _ (surrogate_pair_above hi lo Hh Hl)) as (_ & -> & _).
    reflexivity.
Qed.

(** The collapsing of white space, on code units and on code points. *)
Lemma code_points_collapse_from (b : bool) (s : jsstring) :
  code_points (collapse_from b s) = collapse_from b (code_points s).
Proof.
  revert b.
  induction s as [|c s Hc IH|hi lo s Hh Hl IH] using jsstring_pairs_ind; intros b.
  - reflexivity.
  - rewrite (code_points_unpaired c s Hc). cbn [collapse_from].
    destruct (is_whitespace c) eqn:W.
    + destruct b; [apply IH|].
      rewrite code_points_unpaired by reflexivity. now rewrite IH.
    + rewrite <- IH. apply code_points_unpaired.
      destruct s as [|d s]; [exact Hc|]. cbn [collapse_from].
      destruct (is_whitespace d); [apply andb_false_r | exact Hc].
  - rewrite (code_points_paired hi lo s Hh Hl). cbn [collapse_from].
    destruct (surrogate_plain hi (or_introl Hh)) as (-> & _ & _).
    destruct (surrogate_plain lo (or_intror Hl)) as (-> & _ & _).
    destruct (above_plain _ (surrogate_pair_above hi lo Hh Hl)) as (-> & _ & _).
    now rewrite (code_points_paired hi lo _ Hh Hl), IH.
Qed.

Lemma code_points_whitespace_app (p s : jsstring) :
  forallb is_whitespace p = true -> code_points (p ++ s) = p ++ code_points s.
Proof.
  induction p as [|c p IH]; [reflexivity|]. cbn [forallb app]. intros H.
  apply andb_prop in H as [Hc Hp].
  rewrite code_points_unpaired
    by (rewrite (proj1 (whitespace_not_surrogate c Hc)); reflexivity).
  now rewrite (IH Hp).
Qed.

Lemma code_points_app_whitespace (s q : jsstring) :
  forallb is_whitespace q = true -> code_points (s ++ q) = code_points s ++ q.
Proof.
  intros Hq.
  induction s as [|c s Hc IH|hi lo s Hh Hl IH] using jsstring_pairs_ind.
  - cbn [app code_points]. rewrite <- (app_nil_r q) at 1.
    rewrite (code_points_whitespace_app q [] Hq). apply app_nil_r.
  - rewrite (code_points_unpaired c s Hc). cbn [app]. rewrite <- IH.
    apply code_points_unpaired.
    destruct s as [|d s]; [|exact Hc]. cbn [app].
    destruct q as [|e q]; [exact Hc|]. cbn [forallb] in Hq.
    apply andb_prop in Hq as [He _].
    rewrite (proj2 (whitespace_not_surrogate e He)). apply andb_false_r.
  - rewrite (code_points_paired hi lo s Hh Hl). cbn [app].
    now rewrite (code_points_paired hi lo _ Hh Hl), IH.
Qed.

(** What [trim] removes is white space. *)
Lemma trimStart_whitespace (s : jsstring) :
  exists p, s = p ++ trimStart s /\ forallb is_whitespace p = true.
Proof.
  induction s as [|c s (p & Hp & Wp)]; [now exists []|].
  cbn [trimStart]. destruct (is_whitespace c) eqn:W.
  - exists (c :: p). cbn [app forallb]. rewrite W, Wp. split; [now f_equal | reflexivity].
  - now exists [].
Qed.

Lemma forallb_rev {A : Type} (f : A -> bool) (l : list A) :
  forallb f l = true -> forallb f (rev l) = true.
Proof.
  rewrite !forallb_forall. intros H a Ha. apply H. now apply in_rev.
Qed.

Lemma trim_whitespace (s : jsstring) :
  exists p q, s = p ++ trim s ++ q /\
              forallb is_whitespace p = true /\ forallb is_whitespace q = true.
Proof.
  unfold trim, trimEnd.
  destruct (trimStart_whitespace s) as (p & Hp & Wp).
  destruct (trimStart_whitespace (rev (trimStart s))) as (q & Hq & Wq).
  exists p, (rev q). split; [|split; [exact Wp | now apply forallb_rev]].
  rewrite <- rev_app_distr, <- Hq, rev_involutive. exact Hp.
Qed.

(** *** Canonical order *)

Lemma ordered_from_weaken (k : N) (l : list N) :
  ordered_from k l = true -> ordered_from 0 l = true.
Proof.
  destruct l as [|c r]; [reflexivity|]. cbn [ordered_from].
  intros H. apply andb_prop in H as [_ H]. rewrite H.
  destruct (combining_class U c <? 0) eqn:E; [apply N.ltb_lt in E; lia|].
  now rewrite andb_false_r.
Qed.

Lemma ordered_from_suffix (k : N) (p l : list N) :
  ordered_from k (p ++ l) = true -> ordered_from 0 l = true.
Proof.
  revert k. induction p as [|c p IH]; intros k; cbn [app].
  - apply ordered_from_weaken.
  - cbn [ordered_from]. intros H. apply andb_prop in H as [_ H]. exact (IH _ H).
Qed.

Lemma ordered_from_prefix (k : N) (l q : list N) :
  ordered_from k (l ++ q) = true -> ordered_from k l = true.
Proof.
  revert k. induction l as [|c l IH]; intros k; cbn [app]; [reflexivity|].
  cbn [ordered_from]. intros H. apply andb_prop in H as [H1 H2].
  now rewrite H1, (IH _ H2).
Qed.

Lemma ordered_from_replace_punctuation (k : N) (l : list N) :
  combining_class U space = 0 ->
  ordered_from k l = true -> ordered_from k (replace_punctuation l) = true.
Proof.
  intros Hs. unfold replace_punctuation.
  revert k. induction l as [|c l IH]; intros k; [reflexivity|].
  cbn [map ordered_from]. intros H. apply andb_prop in H as [H1 H2].
  destruct (is_punctuation c).
  - rewrite Hs. cbn [N.ltb N.compare andb negb]. apply IH.
    exact (ordered_from_weaken _ _ H2).
  - rewrite H1. now apply IH.
Qed.

Lemma ordered_from_collapse_from (b : bool) (k : N) (l : list N) :
  combining_class U space = 0 ->
  ordered_from k l = true ->
  ordered_from (if b then 0 else k) (collapse_from b l) = true.
Proof.
  intros Hs. revert b k. induction l as [|c l IH]; intros b k; [reflexivity|].
  cbn [ordered_from collapse_from]. intros H. apply andb_prop in H as [H1 H2].
  destruct (is_whitespace c).
  - pose proof (IH true 0 (ordered_from_weaken _ _ H2)) as R. cbv iota in R.
    destruct b; [exact R|].
    cbn [ordered_from]. rewrite Hs. cbn [N.ltb N.compare andb negb]. exact R.
  - cbn [ordered_from]. rewrite (IH false _ H2), andb_true_r.
    destruct b; [|exact H1].
    destruct (combining_class U c <? 0) eqn:E; [apply N.ltb_lt in E; lia|].
    now rewrite andb_false_r.
Qed.

Lemma canonical_order_fixed (l : list N) :
  in_canonical_order l = true -> canonical_order U l = l.
Proof.
  unfold in_canonical_order, canonical_order.
  induction l as [|c l IH]; [reflexivity|].
  cbn [ordered_from fold_right]. intros H. apply andb_prop in H as [_ H].
  rewrite (IH (ordered_from_weaken _ _ H)).
  destruct (combining_class U c =? 0); [reflexivity|].
  destruct l as [|d l]; [reflexivity|].
  cbn [ordered_from] in H. apply andb_prop in H as [H _].
  apply negb_true_iff in H. cbn [insert_mark]. now rewrite H.
Qed.

(** *** Fixed points in general *)

Lemma code_points_no_accents (s : jsstring) :
  Forall (fun c => is_accent c = false) (code_points s) -> remove_accents s = s.
Proof.
  unfold remove_accents.
  induction s as [|c s Hc IH|hi lo s Hh Hl IH] using jsstring_pairs_ind; intros H.
  - reflexivity.
  - rewrite (code_points_unpaired c s Hc) in H. inversion H as [|? ? Ha Hs]; subst.
    cbn [filter]. rewrite Ha. cbn [negb]. now rewrite (IH Hs).
  - rewrite (code_points_paired hi lo s Hh Hl) in H. inversion H as [|? ? _ Hs]; subst.
    cbn [filter].
    destruct (surrogate_plain hi (or_introl Hh)) as (_ & _ & ->).
    destruct (surrogate_plain lo (or_intror Hl)) as (_ & _ & ->).
    cbn [negb]. now rewrite (IH Hs).
Qed.

Lemma normalize_fixed_unchanged (y : jsstring) :
  Forall (fun c => c < 0x10000) y ->
  Forall unchanged (code_points y) ->
  in_canonical_order (code_points y) = true ->
  Forall (fun c => is_punctuation c = false) y ->
  collapsed_from false y = true ->
  trim y = y ->
  normalize U y = y.
Proof.
  intros Hw Hu Ho Hp Hc Ht.
  assert (N1 : normalize_NFD U y = y).
  { unfold normalize_NFD.
    rewrite flat_map_singletons
      by (eapply Forall_impl; [|exact Hu]; unfold unchanged; tauto).
    rewrite (canonical_order_fixed _ Ho). exact (from_code_points_code_points y Hw). }
  assert (N2 : remove_accents y = y).
  { apply code_points_no_accents.
    eapply Forall_impl; [|exact Hu]. unfold unchanged; tauto. }
  assert (N3 : toUpperCase U y = y).
  { unfold toUpperCase.
    rewrite flat_map_singletons
      by (eapply Forall_impl; [|exact Hu]; unfold unchanged; tauto).
    exact (from_code_points_code_points y Hw). }
  unfold normalize.
  rewrite or_else_string, N1, N2, N3, (replace_punctuation_none y Hp).
  unfold collapse_spaces. now rewrite (collapsed_from_fixed false y Hc).
Qed.

Lemma normalize_idempotent_unchanged (x : jsstring) :
  unchanged space -> combining_class U space = 0 ->
  Forall (fun c => c < 0x10000)
         (toUpperCase U (remove_accents (normalize_NFD U x))) ->
  Forall unchanged
         (code_points (toUpperCase U (remove_accents (normalize_NFD U x)))) ->
  in_canonical_order
    (code_points (toUpperCase U (remove_accents (normalize_NFD U x)))) = true ->
  normalize U (normalize U x) = normalize U x.
Proof.
  intros Hspace Hclass Hw Hu Ho.
  unfold normalize at 2 3. rewrite or_else_string.
  set (z := toUpperCase U (remove_accents (normalize_NFD U x))) in *.
  set (w := collapse_spaces (replace_punctuation z)).
  assert (Ew : code_points w
               = collapse_from false (replace_punctuation (code_points z))).
  { unfold w, collapse_spaces.
    now rewrite code_points_collapse_from, code_points_replace_punctuation. }
  destruct (trim_whitespace w) as (p & q & E & Wp & Wq).
  assert (Et : code_points w = p ++ code_points (trim w) ++ q).
  { rewrite E at 1.
    now rewrite (code_points_whitespace_app p _ Wp), (code_points_app_whitespace _ q Wq). }
  apply normalize_fixed_unchanged.
  - apply trim_Forall, collapse_from_Forall, replace_punctuation_Forall;
      [reflexivity | reflexivity | exact Hw].
  - assert (F : Forall unchanged (code_points w)).
    { rewrite Ew. apply collapse_from_Forall, replace_punctuation_Forall; assumption. }
    rewrite Et in F. apply Forall_app in F as [_ F]. now apply Forall_app in F as [F _].
  - assert (F : ordered_from 0 (code_points w) = true).
    { rewrite Ew.
      apply (ordered_from_collapse_from false 0 _ Hclass).
      now apply ordered_from_replace_punctuation. }
    rewrite Et in F. apply ordered_from_suffix in F.
    now apply ordered_from_prefix in F.
  - apply trim_Forall, collapse_from_Forall; [reflexivity|].
    apply replace_punctuation_clean.
  - apply trim_collapsed, collapse_from_collapsed.
  - apply trim_idempotent.
Qed.

(** *** Latin-1 *)

Lemma code_points_eqb_eq (l m : list N) : code_points_eqb l m = true -> l = m.
Proof. unfold code_points_eqb. now destruct (list_eq_dec N.eq_dec l m). Qed.

Lemma latin1_rows (c : N) : c < 256 -> latin1_row c = true.
Proof.
  assert (H : forallb latin1_row (map N.of_nat (seq 0 256)) = true)
    by (vm_compute; reflexivity).
  intros Hc. rewrite forallb_forall in H. apply H.
  rewrite <- (N2Nat.id c). apply in_map, in_seq. lia.
Qed.

Lemma base_letter_below (c : N) : c < 256 -> base_letter c < 256.
Proof.
  intros Hc. pose proof (latin1_rows c Hc) as R. unfold latin1_row in R.
  unfold base_letter.
  destruct (canonical_decomposition ucd_latin c) as [|b [|m [|? ?]]]; try exact Hc.
  apply andb_prop in R as [R _]. apply andb_prop in R as [R _].
  apply N.ltb_lt in R. lia.
Qed.

Lemma base_letter_images (c : N) :
  c < 256 -> forallb latin1_upper_image (latin1_upper (base_letter c)) = true.
Proof.
  intros Hc. pose proof (latin1_rows c Hc) as R. unfold latin1_row in R.
  unfold base_letter.
  destruct (canonical_decomposition ucd_latin c) as [|b [|m [|? ?]]]; try discriminate R.
  - now apply andb_prop in R as [_ R].
  - now apply andb_prop in R as [_ R].
Qed.

Lemma remove_accents_row (c : N) :
  c < 256 -> remove_accents (canonical_decomposition ucd_latin c) = [base_letter c].
Proof.
  intros Hc. pose proof (latin1_rows c Hc) as R. unfold latin1_row in R.
  unfold base_letter, remove_accents.
  destruct (canonical_decomposition ucd_latin c) as [|b [|m [|? ?]]]; try discriminate R.
  - apply andb_prop in R as [R _]. apply N.eqb_eq in R. subst b.
    cbn [filter]. unfold is_accent.
    destruct (N.leb_spec 0x300 c); [lia | reflexivity].
  - apply andb_prop in R as [R _]. apply andb_prop in R as [Rb Rm].
    apply N.ltb_lt in Rb. cbn [filter]. rewrite Rm. unfold is_accent.
    destruct (N.leb_spec 0x300 b); [lia | reflexivity].
Qed.

Lemma remove_accents_app (s t : jsstring) :
  remove_accents (s ++ t) = remove_accents s ++ remove_accents t.
Proof. apply filter_app. Qed.

Lemma remove_accents_rows (x : jsstring) :
  Forall (fun c => c < 256) x ->
  remove_accents (flat_map (canonical_decomposition ucd_latin) x) = map base_letter x.
Proof.
  intros H. induction H as [|c x Hc Hx IH]; [reflexivity|].
  cbn [flat_map map]. now rewrite remove_accents_app, IH, (remove_accents_row c Hc).
Qed.

Section Latin1.
Hypothesis Unicode_latin1 : latin1 U.

Lemma latin1_starter (c : N) : c < 256 -> combining_class U c = 0.
Proof. intros Hc. now destruct (proj1 Unicode_latin1 c Hc) as (_ & K & _). Qed.

(** The decompositions of Latin-1 begin with a character of Latin-1. *)
Lemma latin1_decompositions_head (x : jsstring) :
  Forall (fun c => c < 256) x ->
  match flat_map (canonical_decomposition ucd_latin) x with
  | [] => True
  | d :: _ => combining_class U d = 0
  end.
Proof.
  intros H. destruct H as [|c x Hc Hx]; [exact I|].
  cbn [flat_map]. pose proof (latin1_rows c Hc) as R. unfold latin1_row in R.
  destruct (canonical_decomposition ucd_latin c) as [|b [|m [|? ?]]]; try discriminate R.
  - apply andb_prop in R as [R _]. apply N.eqb_eq in R. subst b.
    now apply latin1_starter.
  - apply andb_prop in R as [R _]. apply andb_prop in R as [R _].
    apply N.ltb_lt in R. apply latin1_starter. lia.
Qed.

Lemma insert_mark_starter (m : N) (l : list N) :
  match l with [] => True | d :: _ => combining_class U d = 0 end ->
  insert_mark U m l = m :: l.
Proof.
  destruct l as [|d l]; [reflexivity|]. intros H. cbn [insert_mark]. now rewrite H.
Qed.

Lemma latin1_canonical_order (x : jsstring) :
  Forall (fun c => c < 256) x ->
  canonical_order U (flat_map (canonical_decomposition ucd_latin) x)
  = flat_map (canonical_decomposition ucd_latin) x.
Proof.
  intros H. induction H as [|c x Hc Hx IH]; [reflexivity|].
  cbn [flat_map]. unfold canonical_order in *. rewrite fold_right_app, IH.
  pose proof (latin1_decompositions_head x Hx) as Hhead.
  pose proof (latin1_rows c Hc) as R. unfold latin1_row in R.
  destruct (canonical_decomposition ucd_latin c) as [|b [|m [|? ?]]]; try discriminate R.
  - apply andb_prop in R as [R _]. apply N.eqb_eq in R. subst b.
    cbn [fold_right app]. now rewrite (latin1_starter c Hc).
  - apply andb_prop in R as [R _]. apply andb_prop in R as [R _].
    apply N.ltb_lt in R. cbn [fold_right app].
    rewrite (insert_mark_starter m _ Hhead).
    destruct (combining_class U m =? 0); rewrite latin1_starter by lia; reflexivity.
Qed.

Lemma latin1_decompositions_BMP (x : jsstring) :
  Forall (fun c => c < 256) x ->
  Forall (fun c => c < 0x10000) (flat_map (canonical_decomposition ucd_latin) x).
Proof.
  intros H. apply Forall_flat_map. eapply Forall_impl; [|exact H].
  cbv beta. intros c Hc. pose proof (latin1_rows c Hc) as R. unfold latin1_row in R.
  destruct (canonical_decomposition ucd_latin c) as [|b [|m [|? ?]]]; try discriminate R.
  - apply andb_prop in R as [R _]. apply N.eqb_eq in R. subst b.
    constructor; [lia | constructor].
  - apply andb_prop in R as [R _]. apply andb_prop in R as [Rb Rm].
    apply N.ltb_lt in Rb. unfold is_accent in Rm. apply andb_prop in Rm as [_ Rm].
    apply N.leb_le in Rm. repeat constructor; lia.
Qed.

Lemma no_high_surrogate_below (x : jsstring) :
  Forall (fun c => c < 256) x -> Forall (fun c => is_high_surrogate c = false) x.
Proof.
  intros H. eapply Forall_impl; [|exact H]. cbv beta. intros c Hc.
  unfold is_high_surrogate. destruct (N.leb_spec 0xD800 c); [lia | reflexivity].
Qed.

Lemma latin1_remove_accents (x : jsstring) :
  Forall (fun c => c < 256) x ->
  remove_accents (normalize_NFD U x) = map base_letter x.
Proof.
  intros H. unfold normalize_NFD.
  rewrite (code_points_id x (no_high_surrogate_below x H)).
  assert (E : flat_map (canonical_decomposition U) x
              = flat_map (canonical_decomposition ucd_latin) x).
  { clear -H Unicode_latin1. induction H as [|c x Hc Hx IH]; [reflexivity|].
    cbn [flat_map]. rewrite IH. f_equal.
    now destruct (proj1 Unicode_latin1 c Hc) as (D & _ & _). }
  rewrite E, (latin1_canonical_order x H),
    (from_code_points_id _ (latin1_decompositions_BMP x H)).
  now apply remove_accents_rows.
Qed.

Lemma latin1_upper_image_settled (e : N) : latin1_upper_image e = true -> settled e.
Proof.
  unfold latin1_upper_image. intros H. apply orb_prop in H as [H | H].
  - apply andb_prop in H as [H V]. apply andb_prop in H as [L D].
    apply N.ltb_lt in L. apply code_points_eqb_eq in D, V.
    destruct (proj1 Unicode_latin1 e L) as (DU & KU & VU).
    unfold settled, is_high_surrogate, is_accent.
    repeat split; try congruence; try lia.
    + destruct (N.leb_spec 0xD800 e); [lia | reflexivity].
    + destruct (N.leb_spec 0x300 e); [lia | reflexivity].
  - apply N.eqb_eq in H. subst e.
    destruct Unicode_latin1 as (_ & D & K & V).
    unfold settled. repeat split; assumption || reflexivity.
Qed.

Lemma latin1_idempotent (x : jsstring) :
  Forall (fun c => c < 256) x -> normalize U (normalize U x) = normalize U x.
Proof.
  intros H. apply normalize_idempotent_settled.
  - apply latin1_upper_image_settled. reflexivity.
  - rewrite (latin1_remove_accents x H), code_points_id.
    + apply Forall_map. eapply Forall_impl; [|exact H]. cbv beta. intros c Hc.
      destruct (proj1 Unicode_latin1 (base_letter c) (base_letter_below c Hc))
        as (_ & _ & ->).
      pose proof (base_letter_images c Hc) as I. rewrite forallb_forall in I.
      apply Forall_forall. intros e He. apply latin1_upper_image_settled. now apply I.
    + apply no_high_surrogate_below, Forall_map.
      eapply Forall_impl; [|exact H]. apply base_letter_below.
Qed.
End Latin1.

(** *** Basic Latin *)

Lemma latin1_upper_basic (c : N) :
  c < 128 ->
  latin1_upper c = if (97 <=? c) && (c <=? 122) then [c - 32] else [c].
Proof.
  intros H. unfold latin1_upper.
  destruct ((97 <=? c) && (c <=? 122)); [reflexivity|].
  destruct (N.eqb_spec c 181); [lia|].
  destruct (N.eqb_spec c 223); [lia|].
  destruct (N.eqb_spec c 247); [reflexivity|].
  destruct (N.leb_spec 224 c); [lia|]. cbn [andb].
  destruct (N.eqb_spec c 255); [lia | reflexivity].
Qed.

Section BasicLatin.
Hypothesis Unicode_basic_latin : basic_latin U.

Lemma basic_latin_settled (c : N) :
  c < 128 -> (97 <=? c) && (c <=? 122) = false -> settled c.
Proof.
  intros H L. destruct (Unicode_basic_latin c H) as (D & K & V).
  rewrite (latin1_upper_basic c H), L in V.
  unfold settled, is_high_surrogate, is_accent.
  repeat split; try assumption; try lia.
  - destruct (N.leb_spec 0xD800 c); [lia | reflexivity].
  - destruct (N.leb_spec 0x300 c); [lia | reflexivity].
Qed.

Lemma basic_latin_upper_settled (c : N) :
  c < 128 -> Forall settled (upper_case U c).
Proof.
  intros H. destruct (Unicode_basic_latin c H) as (_ & _ & ->).
  rewrite (latin1_upper_basic c H).
  destruct ((97 <=? c) && (c <=? 122)) eqn:L.
  - apply andb_prop in L as [L1 L2]. apply N.leb_le in L1, L2.
    constructor; [|constructor]. apply basic_latin_settled; [lia|].
    destruct (N.leb_spec 97 (c - 32)); [|reflexivity].
    destruct (N.leb_spec (c - 32) 122); [lia | reflexivity].
  - constructor; [|constructor]. now apply basic_latin_settled.
Qed.

Lemma basic_latin_NFD (x : jsstring) :
  Forall (fun c => c < 128) x -> normalize_NFD U x = x.
Proof.
  intros H. unfold normalize_NFD.
  rewrite code_points_id, flat_map_singletons, canonical_order_starters,
    from_code_points_id; try reflexivity;
    (eapply Forall_impl; [|exact H]); cbv beta; intros c Hc;
    try (destruct (Unicode_basic_latin c Hc) as (D & K & V); assumption).
  - lia.
  - unfold is_high_surrogate. destruct (N.leb_spec 0xD800 c); [lia | reflexivity].
Qed.

Lemma basic_latin_no_accents (x : jsstring) :
  Forall (fun c => c < 128) x -> remove_accents x = x.
Proof.
  intros H. apply filter_all. rewrite Forall_forall in H. intros c Hc.
  specialize (H c Hc). cbv beta in H. unfold is_accent.
  destruct (N.leb_spec 0x300 c); [lia | reflexivity].
Qed.

Lemma toUpperCase_NA : toUpperCase U (js "N/A") = js "N/A".
Proof.
  unfold toUpperCase.
  change (code_points (js "N/A")) with [78; 47; 65].
  cbn [flat_map].
  rewrite (proj2 (proj2 (Unicode_basic_latin 78 eq_refl))).
  rewrite (proj2 (proj2 (Unicode_basic_latin 47 eq_refl))).
  rewrite (proj2 (proj2 (Unicode_basic_latin 65 eq_refl))).
  reflexivity.
Qed.

(** *** A mark of class 0 in the removed block *)

(** COMBINING GRAPHEME JOINER, U+034F, is of class 0 and stands in the
    block that [normalize] removes.  Between a mark of class 230 and a mark
    of class 220 it keeps the two in their order; once it is removed, a
    second decomposition exchanges them. *)
Lemma normalize_joiner :
  canonical_decomposition U 0x483 = [0x483] ->
  canonical_decomposition U 0x34F = [0x34F] ->
  canonical_decomposition U 0x591 = [0x591] ->
  combining_class U 0x483 = 230 ->
  combining_class U 0x34F = 0 ->
  combining_class U 0x591 = 220 ->
  upper_case U 0x483 = [0x483] ->
  upper_case U 0x591 = [0x591] ->
  normalize U [0x61; 0x483; 0x34F; 0x591] = [0x41; 0x483; 0x591] /\
  normalize U [0x41; 0x483; 0x591] = [0x41; 0x591; 0x483].
Proof.
  intros D1 D2 D3 K1 K2 K3 V1 V3.
  destruct (Unicode_basic_latin 0x61 eq_refl) as (Da & Ka & Va).
  destruct (Unicode_basic_latin 0x41 eq_refl) as (DA & KA & VA).
  assert (N1 : normalize_NFD U [0x61; 0x483; 0x34F; 0x591] = [0x61; 0x483; 0x34F; 0x591]).
  { unfold normalize_NFD.
    change (code_points [0x61; 0x483; 0x34F; 0x591]) with [0x61; 0x483; 0x34F; 0x591].
    cbn [flat_map]. rewrite Da, D1, D2, D3. cbn [app].
    unfold canonical_order. cbn [fold_right].
    repeat (rewrite ?K1, ?K2, ?K3, ?Ka;
            cbn [N.eqb Pos.eqb insert_mark N.ltb N.compare Pos.compare Pos.compare_cont andb]).
    reflexivity. }
  assert (N2 : normalize_NFD U [0x41; 0x483; 0x591] = [0x41; 0x591; 0x483]).
  { unfold normalize_NFD.
    change (code_points [0x41; 0x483; 0x591]) with [0x41; 0x483; 0x591].
    cbn [flat_map]. rewrite DA, D1, D3. cbn [app].
    unfold canonical_order. cbn [fold_right].
    repeat (rewrite ?K1, ?K3, ?KA;
            cbn [N.eqb Pos.eqb insert_mark N.ltb N.compare Pos.compare Pos.compare_cont andb]).
    reflexivity. }
  assert (T1 : toUpperCase U [0x61; 0x483; 0x591] = [0x41; 0x483; 0x591]).
  { unfold toUpperCase.
    change (code_points [0x61; 0x483; 0x591]) with [0x61; 0x483; 0x591].
    cbn [flat_map]. rewrite Va, V1, V3. reflexivity. }
  assert (T2 : toUpperCase U [0x41; 0x591; 0x483] = [0x41; 0x591; 0x483]).
  { unfold toUpperCase.
    change (code_points [0x41; 0x591; 0x483]) with [0x41; 0x591; 0x483].
    cbn [flat_map]. rewrite VA, V1, V3. reflexivity. }
  split; unfold normalize; rewrite or_else_string.
  - rewrite N1.
    change (remove_accents [0x61; 0x483; 0x34F; 0x591]) with [0x61; 0x483; 0x591].
    rewrite T1. reflexivity.
  - rewrite N2.
    change (remove_accents [0x41; 0x591; 0x483]) with [0x41; 0x591; 0x483].
    rewrite T2. reflexivity.
Qed.
End BasicLatin.

(** C9, as amended.  [normalize] is idempotent on every string [x] such
    that in the string obtained from [x] by decomposition, removal of the
    marks U+0300..U+036F and upper-casing, every character (a code point,
    of any plane; a surrogate without its pair counts as one) has no
    canonical decomposition and no upper-case mapping, lies outside
    U+0300..U+036F, and no character of non-zero combining class directly
    follows a character of greater class; the space is taken to be such a
    character, of class 0, and the string to be one of 16-bit code units, as
    an engine returns it.  The strings of Basic Latin characters, and those
    of Basic Latin and Latin-1 Supplement characters, are idempotent
    too. *)
Theorem normalize_idempotent (x : jsstring) :
  (unchanged space -> combining_class U space = 0 ->
   Forall (fun c => c < 0x10000)
          (toUpperCase U (remove_accents (normalize_NFD U x))) ->
   Forall unchanged
          (code_points (toUpperCase U (remove_accents (normalize_NFD U x)))) ->
   in_canonical_order
     (code_points (toUpperCase U (remove_accents (normalize_NFD U x)))) = true ->
   normalize U (normalize U x) = normalize U x) /\
  (basic_latin U -> Forall (fun c => c < 128) x ->
   normalize U (normalize U x) = normalize U x) /\
  (latin1 U -> Forall (fun c => c < 256) x ->
   normalize U (normalize U x) = normalize U x).
Proof.
  split; [apply normalize_idempotent_unchanged|].
  split; [|intros HL H; exact (latin1_idempotent HL x H)].
  intros HU H. apply normalize_idempotent_settled.
  - now apply basic_latin_settled.
  - rewrite (basic_latin_NFD HU x H), (basic_latin_no_accents x H), code_points_id.
    + eapply Forall_impl; [|exact H]. now apply basic_latin_upper_settled.
    + eapply Forall_impl; [|exact H]. cbv beta. intros c Hc.
      unfold is_high_surrogate. destruct (N.leb_spec 0xD800 c); [lia | reflexivity].
Qed.

(** ** The keys of the counts *)

Lemma utf16_units_without_lower (e : N) :
  is_lower_case_letter e = false ->
  Forall (fun c => is_lower_case_letter c = false) (utf16_units e).
Proof.
  intros H. unfold utf16_units. destruct (N.ltb_spec e 0x10000).
  - now constructor.
  - unfold is_lower_case_letter.
    generalize ((e - 0x10000) / 0x400) ((e - 0x10000) mod 0x400). intros q r.
    repeat constructor.
    + destruct (N.leb_spec (0xD800 + q) 122); [lia | apply andb_false_r].
    + destruct (N.leb_spec (0xDC00 + r) 122); [lia | apply andb_false_r].
Qed.

Lemma toUpperCase_without_lower (s : jsstring) :
  upper_case_without_lower U ->
  Forall (fun c => is_lower_case_letter c = false) (toUpperCase U s).
Proof.
  intros HU. unfold toUpperCase, from_code_points.
  apply Forall_flat_map, Forall_forall. intros e He.
  apply utf16_units_without_lower.
  apply in_flat_map in He. destruct He as (c & _ & He). exact (HU c e He).
Qed.

Lemma inherited_lower_case (k : jsstring) :
  inherited k = true -> existsb is_lower_case_letter k = true.
Proof.
  unfold inherited. intros H. apply existsb_exists in H.
  destruct H as (name & Hname & E). apply jsstring_eqb_eq in E. subst name.
  cbn [Object_prototype_names map In] in Hname.
  repeat (destruct Hname as [<- | Hname]; [reflexivity|]). contradiction Hname.
Qed.

(** The key of a modality count is not a name that the object inherits:
    reading it finds an own property or nothing. *)
Lemma modality_key_not_inherited (curr : RadiologyRecord) :
  upper_case_without_lower U -> inherited (modality_key curr) = false.
Proof.
  intros HU. destruct (inherited (modality_key curr)) eqn:E; [|reflexivity].
  apply inherited_lower_case, existsb_exists in E. destruct E as (c & Hc & L).
  pose proof (toUpperCase_without_lower
                (trim (or_else (modalidad curr) (js "N/A"))) HU) as F.
  rewrite Forall_forall in F. rewrite (F c Hc) in L. discriminate L.
Qed.

(** C8, as amended.  In the summaries that [getSummaryBySpecialist]
    returns, the modality count of a key is the number of records of the
    group whose modality, trimmed and upper-cased, is that key, and a key
    that no record of the group has is not there.  A modality that is
    missing or empty is counted under N/A; any other modality, recognized
    or not, is counted under its own trimmed, upper-cased text. *)
Theorem modality_counts (data : list RadiologyRecord) :
  (forall r, In r data -> inherited (specialist_key r) = false) ->
  (exists out,
     getSummaryBySpecialist data = Normal out /\
     Forall (fun s => forall m,
                 get_own (modalities s) m
                 = counted (List.length (filter (has_modality m)
                                                (group data (specialist s))))) out) /\
  (basic_latin U ->
   forall curr, modalidad curr = None \/ modalidad curr = Some empty ->
                modality_key curr = js "N/A") /\
  (forall curr m, modalidad curr = Some m -> m <> empty ->
                  modality_key curr = toUpperCase U (trim m)).
Proof.
  intros H. split; [|split].
  - destruct (getSummaryBySpecialist_grouping data H) as (g & Hg & E).
    eexists. split; [exact E|].
    eapply Permutation_Forall; [apply stable_sort_perm|].
    eapply Forall_impl; [|exact (values_summarize data g Hg)].
    now intros s (_ & _ & Hmod & _).
  - intros HU curr [E | E]; unfold modality_key; rewrite E; exact (toUpperCase_NA HU).
  - intros curr m E Hm. unfold modality_key. rewrite E.
    destruct m; [now contradiction Hm | reflexivity].
Qed.

Lemma specialist_key_unassigned (curr : RadiologyRecord) :
  specialist_key curr = js "SIN ASIGNAR" <->
  realizado_por curr = None \/ realizado_por curr = Some empty \/
  exists s, realizado_por curr = Some s /\ trim s = js "SIN ASIGNAR".
Proof.
  unfold specialist_key. destruct (realizado_por curr) as [[|c s]|]; simpl or_else.
  - split; auto.
  - split.
    + intros H. right. right. eauto.
    + intros [H | [H | (s' & H & T)]]; try discriminate H.
      injection H as <-. exact T.
  - split; auto.
Qed.

Lemma trim_empty_blank (s : jsstring) : trim s = [] -> forallb is_whitespace s = true.
Proof.
  intros H. destruct (trim_whitespace s) as (p & q & E & Wp & Wq).
  rewrite H in E. cbn [app] in E. rewrite E, forallb_app, Wp, Wq. reflexivity.
Qed.

Lemma in_group_whitespace (r : RadiologyRecord) : in_group empty r = whitespace_name r.
Proof.
  unfold in_group, whitespace_name, specialist_key.
  destruct (realizado_por r) as [[|c s]|]; cbn [or_else]; try reflexivity.
  destruct (forallb is_whitespace (c :: s)) eqn:W.
  - rewrite (trim_blank _ W). reflexivity.
  - apply jsstring_eqb_neq. intros T. apply trim_empty_blank in T.
    rewrite T in W. discriminate W.
Qed.

Lemma in_group_unassigned (r : RadiologyRecord) :
  in_group (js "SIN ASIGNAR") r = unassigned_name r.
Proof.
  unfold in_group, unassigned_name, specialist_key.
  destruct (realizado_por r) as [[|c s]|]; reflexivity.
Qed.

(** The summaries returned: one for each group, with the number of its
    records. *)
Lemma getSummaryBySpecialist_groups (data : list RadiologyRecord) :
  (forall r, In r data -> inherited (specialist_key r) = false) ->
  exists out,
    getSummaryBySpecialist data = Normal out /\
    Permutation (groups_first_seen data) (map specialist out) /\
    Forall (fun s => totalStudies s = studies data (specialist s)) out.
Proof.
  intros H. destruct (getSummaryBySpecialist_grouping data H) as (g & Hg & E).
  eexists. split; [exact E|]. split.
  - rewrite <- (Permutation_map specialist (stable_sort_perm by_total_descending _)).
    rewrite (values_names data g Hg). symmetry. apply OrdinaryOwnPropertyKeys_perm.
  - eapply Permutation_Forall; [apply stable_sort_perm|].
    eapply Forall_impl; [|exact (values_summarize data g Hg)].
    now intros s (_ & Ht & _).
Qed.

Lemma group_summary (data : list RadiologyRecord) (out : list SummaryBySpecialist)
      (k : jsstring) (named : RadiologyRecord -> bool) :
  (forall r, in_group k r = named r) ->
  Permutation (groups_first_seen data) (map specialist out) ->
  Forall (fun s => totalStudies s = studies data (specialist s)) out ->
  (existsb named data = true -> exists s, In s out /\ specialist s = k) /\
  (forall s, In s out -> specialist s = k ->
             totalStudies s = N.of_nat (List.length (filter named data))).
Proof.
  intros Hk Hperm Htotal. split.
  - intros E. apply existsb_exists in E. destruct E as (r & Hr & Hn).
    rewrite <- Hk in Hn. apply jsstring_eqb_eq in Hn.
    assert (Hin : In k (map specialist out)).
    { eapply Permutation_in; [exact Hperm|].
      apply (proj2 (first_seen_In _ _)). rewrite <- Hn. now apply in_map. }
    apply in_map_iff in Hin. destruct Hin as (s & Hs & Hin). eauto.
  - intros s Hs Hname. rewrite Forall_forall in Htotal.
    rewrite (Htotal s Hs), Hname. unfold studies, group. do 2 f_equal.
    apply filter_ext_in. intros r _. apply Hk.
Qed.

(** C10, as amended.  For a collection in which no specialist is named as
    a property that the grouping object inherits, [getSummaryBySpecialist]
    returns at most one summary for a name; the summary of the empty string
    is there when a record has a specialist name that is not empty and is
    white space only, and counts these records and no other; the summary
    SIN ASIGNAR is there when a record has a name that is missing, empty or
    reads SIN ASIGNAR once trimmed, and counts these records and no other.
    A record whose name is white space only is none of the latter. *)
Theorem whitespace_specialist_bucket (data : list RadiologyRecord) :
  (forall r, In r data -> inherited (specialist_key r) = false) ->
  exists out,
    getSummaryBySpecialist data = Normal out /\
    NoDup (map specialist out) /\
    (existsb whitespace_name data = true ->
     exists s, In s out /\ specialist s = empty) /\
    (forall s, In s out -> specialist s = empty ->
               totalStudies s = N.of_nat (List.length (filter whitespace_name data))) /\
    (existsb unassigned_name data = true ->
     exists s, In s out /\ specialist s = js "SIN ASIGNAR") /\
    (forall s, In s out -> specialist s = js "SIN ASIGNAR" ->
               totalStudies s = N.of_nat (List.length (filter unassigned_name data))) /\
    (forall r, whitespace_name r = true -> unassigned_name r = false).
Proof.
  intros H. destruct (getSummaryBySpecialist_groups data H) as (out & Hout & Hperm & Htotal).
  exists out. split; [exact Hout|]. split.
  { eapply Permutation_NoDup; [exact Hperm | apply first_seen_NoDup]. }
  destruct (group_summary data out empty whitespace_name in_group_whitespace Hperm Htotal)
    as [W1 W2].
  destruct (group_summary data out (js "SIN ASIGNAR") unassigned_name in_group_unassigned
              Hperm Htotal) as [U1 U2].
  repeat (split; [assumption|]).
  intros r Hr. rewrite <- in_group_whitespace in Hr. rewrite <- in_group_unassigned.
  unfold in_group in *. apply jsstring_eqb_eq in Hr. rewrite Hr. reflexivity.
Qed.

(* ================================================================== *)
(** * Further properties *)

(** ** Sums *)

Lemma sum_list_app (l m : list N) : sum_list (l ++ m) = sum_list l + sum_list m.
Proof. induction l as [|a l IH]; simpl; [reflexivity | rewrite IH; lia]. Qed.

Lemma sum_list_perm (l m : list N) : Permutation l m -> sum_list l = sum_list m.
Proof. induction 1; simpl; lia. Qed.

Lemma sum_list_map_add {A : Type} (f g : A -> N) (l : list A) :
  sum_list (map (fun a => f a + g a) l) = sum_list (map f l) + sum_list (map g l).
Proof. induction l as [|a l IH]; simpl; [reflexivity | rewrite IH; lia]. Qed.

Lemma sum_list_map_ext {A : Type} (f g : A -> N) (l : list A) :
  (forall a, In a l -> f a = g a) -> sum_list (map f l) = sum_list (map g l).
Proof.
  induction l as [|a l IH]; simpl; intros H; [reflexivity|].
  rewrite (H a (or_introl eq_refl)), IH by (intros; apply H; now right). reflexivity.
Qed.

Lemma sum_list_zero {A : Type} (l : list A) : sum_list (map (fun _ => 0) l) = 0.
Proof. induction l as [|a l IH]; simpl; [reflexivity | exact IH]. Qed.

(** One name of a list without repetition. *)
Lemma sum_list_indicator (x : jsstring) (ks : list jsstring) :
  NoDup ks -> In x ks ->
  sum_list (map (fun k => if jsstring_eqb x k then 1 else 0) ks) = 1.
Proof.
  induction 1 as [|k ks Hk Hks IH]; [contradiction|]. simpl.
  destruct (jsstring_eqb x k) eqn:E.
  - apply jsstring_eqb_eq in E. subst k. intros _.
    rewrite (sum_list_map_ext _ (fun _ => 0)), sum_list_zero; [reflexivity|].
    intros a Ha. destruct (jsstring_eqb x a) eqn:X; [|reflexivity].
    apply jsstring_eqb_eq in X. subst a. contradiction.
  - apply jsstring_eqb_neq in E. intros [H | H]; [congruence|]. now rewrite IH.
Qed.

(** The groups of a list by a key part it: the sizes of what [p] keeps of
    each group add up to the size of what [p] keeps of the list. *)
Lemma partition_by_key {R : Type} (key : R -> jsstring) (p : R -> bool)
      (ks : list jsstring) (l : list R) :
  NoDup ks -> (forall r, In r l -> In (key r) ks) ->
  sum_list (map (fun k => N.of_nat (List.length
                             (filter p (filter (fun r => jsstring_eqb (key r) k) l)))) ks)
  = N.of_nat (List.length (filter p l)).
Proof.
  intros Hks. induction l as [|r l IH]; intros Hin.
  - simpl. apply sum_list_zero.
  - rewrite (sum_list_map_ext _
               (fun k => N.of_nat (List.length
                           (filter p (filter (fun r => jsstring_eqb (key r) k) l)))
                         + (if jsstring_eqb (key r) k then (if p r then 1 else 0) else 0))).
    + rewrite sum_list_map_add, IH by (intros; apply Hin; now right).
      cbn [filter]. destruct (p r).
      * rewrite (sum_list_indicator (key r) ks Hks (Hin r (or_introl eq_refl))).
        cbn [List.length]. lia.
      * rewrite (sum_list_map_ext _ (fun _ => 0)), sum_list_zero; [lia|].
        intros a _. now destruct (jsstring_eqb (key r) a).
    + intros k _. cbn [filter]. destruct (jsstring_eqb (key r) k); [|lia].
      cbn [filter]. destruct (p r); cbn [List.length]; lia.
Qed.

Lemma sum_values_set_own_new (o : JSObject N) (k : jsstring) (v : N) :
  get_own o k = None -> sum_values (set_own o k v) = sum_values o + v.
Proof.
  unfold sum_values. induction o as [|[k' v'] o IH]; simpl; intros H; [lia|].
  destruct (jsstring_eqb k' k); [discriminate H|]. simpl. rewrite IH by exact H. lia.
Qed.

Lemma sum_values_set_own_old (o : JSObject N) (k : jsstring) (v w : N) :
  get_own o k = Some w -> sum_values (set_own o k v) + w = sum_values o + v.
Proof.
  unfold sum_values. induction o as [|[k' v'] o IH]; simpl; intros H; [discriminate H|].
  destruct (jsstring_eqb k' k).
  - injection H as ->. simpl. lia.
  - simpl. specialize (IH H). lia.
Qed.

Lemma sum_values_increment (o : JSObject N) (k : jsstring) :
  sum_values (increment o k) = sum_values o + 1.
Proof.
  unfold increment. destruct (get_own o k) as [w|] eqn:E.
  - pose proof (sum_values_set_own_old o k (w + 1) w E). lia.
  - now rewrite sum_values_set_own_new.
Qed.

(** ** What the reducer keeps *)

(** A property of the new summary that counting a record keeps holds of
    every summary of the reduction. *)
Lemma reduce_keeps (P : SummaryBySpecialist -> Prop) :
  (forall spec, P (new_summary spec)) ->
  (forall s curr, P s -> P (count_record s curr)) ->
  forall data acc acc',
    (forall k s, get_own acc k = Some s -> P s) ->
    reduce data acc = Normal acc' ->
    forall k s, get_own acc' k = Some s -> P s.
Proof.
  intros Hnew Hcount. induction data as [|curr data IH]; intros acc acc' Hacc Hred.
  - injection Hred as <-. exact Hacc.
  - cbn [reduce] in Hred. destruct (reducer acc curr) as [acc1|] eqn:E; [|discriminate Hred].
    apply (IH acc1 acc'); [|exact Hred].
    unfold reducer in E. intros k s Hk.
    assert (Hstep : forall s0, P s0 ->
              get_own (set_own acc (specialist_key curr) (count_record s0 curr)) k = Some s ->
              P s).
    { intros s0 Hs0 H.
      destruct (list_eq_dec N.eq_dec k (specialist_key curr)) as [-> | Hne].
      - rewrite get_own_set_own_same in H. injection H as <-. now apply Hcount.
      - rewrite get_own_set_own_other in H by exact Hne. now apply (Hacc k). }
    destruct (get_own acc (specialist_key curr)) as [s0|] eqn:G.
    + injection E as <-. apply (Hstep s0); [now apply (Hacc _ _ G) | exact Hk].
    + destruct (inherited (specialist_key curr)); [discriminate E|].
      injection E as <-. apply (Hstep (new_summary (specialist_key curr)));
        [apply Hnew | exact Hk].
Qed.

Lemma getSummaryBySpecialist_keeps (P : SummaryBySpecialist -> Prop)
      (data : list RadiologyRecord) (out : list SummaryBySpecialist) :
  (forall spec, P (new_summary spec)) ->
  (forall s curr, P s -> P (count_record s curr)) ->
  getSummaryBySpecialist data = Normal out -> Forall P out.
Proof.
  intros Hnew Hcount. unfold getSummaryBySpecialist.
  destruct (reduce data []) as [grouped|] eqn:E; [|discriminate].
  intros H. injection H as <-.
  eapply Permutation_Forall; [apply Array_sort_conforms|].
  apply Forall_forall. intros s Hs. destruct (Object_values_In grouped s Hs) as [k Hk].
  apply (reduce_keeps P Hnew Hcount data [] grouped) with (k := k);
    [intros ? ? H; discriminate H | exact E | exact Hk].
Qed.

(** ** The summaries account for the records *)

Lemma sum_over_groups (p : RadiologyRecord -> bool) (data : list RadiologyRecord) :
  sum_list (map (fun k => N.of_nat (List.length (filter p (group data k))))
                (groups_first_seen data))
  = N.of_nat (List.length (filter p data)).
Proof.
  apply (partition_by_key specialist_key p).
  - apply first_seen_NoDup.
  - intros r Hr. apply (proj2 (first_seen_In _ _)). now apply in_map.
Qed.

Lemma sum_over_summaries (f : SummaryBySpecialist -> N) (h : jsstring -> N)
      (data : list RadiologyRecord) (out : list SummaryBySpecialist) :
  getSummaryBySpecialist data = Normal out ->
  (forall s, summarizes data (specialist s) s -> f s = h (specialist s)) ->
  sum_list (map f out) = sum_list (map h (groups_first_seen data)).
Proof.
  intros Hout Hf.
  pose proof (getSummaryBySpecialist_Normal data out Hout) as H.
  destruct (getSummaryBySpecialist_grouping data H) as (g & Hg & E).
  rewrite Hout in E. injection E as ->.
  pose proof (values_summarize data g Hg) as Hvals.
  pose proof (values_names data g Hg) as Hnames.
  rewrite <- (sum_list_perm _ _ (Permutation_map f (stable_sort_perm by_total_descending
                                                      (Object_values g)))).
  rewrite (sum_list_map_ext f (fun s => h (specialist s)))
    by (intros s Hs; apply Hf; rewrite Forall_forall in Hvals; now apply Hvals).
  rewrite <- (map_map specialist h), Hnames.
  apply sum_list_perm, Permutation_map, OrdinaryOwnPropertyKeys_perm.
Qed.

(** X1. In every summary returned, the modality counts are at least one
    each and add up to totalStudies. *)
Theorem modality_counts_sum (data : list RadiologyRecord)
        (out : list SummaryBySpecialist) :
  getSummaryBySpecialist data = Normal out ->
  Forall (fun s => sum_values (modalities s) = totalStudies s /\
                   Forall (fun e => 1 <= snd e) (modalities s)) out.
Proof.
  apply getSummaryBySpecialist_keeps.
  - intros spec. split; [reflexivity | constructor].
  - intros s curr [Hsum Hpos]. cbn [count_record modalities totalStudies]. split.
    + rewrite sum_values_increment. lia.
    + unfold increment. generalize (modality_key curr). intros k.
      generalize (match get_own (modalities s) k with Some n => n | None => 0 end).
      intros n. clear Hsum.
      induction Hpos as [|[k' v'] o Hv Ho IH]; cbn [set_own].
      * repeat constructor. simpl. lia.
      * destruct (jsstring_eqb k' k); constructor; try assumption. simpl. lia.
Qed.

(** X2. The totals of the summaries returned add up to the number of
    records: each record is counted in one summary, once. *)
Theorem totals_cover_records (data : list RadiologyRecord)
        (out : list SummaryBySpecialist) :
  getSummaryBySpecialist data = Normal out ->
  sum_list (map totalStudies out) = N.of_nat (List.length data).
Proof.
  intros Hout.
  rewrite (sum_over_summaries totalStudies (studies data) data out Hout)
    by (now intros s (_ & Ht & _)).
  assert (E : N.of_nat (List.length data)
              = N.of_nat (List.length (filter (fun _ => true) data)))
    by (now rewrite filter_all).
  rewrite E, <- sum_over_groups. apply sum_list_map_ext. intros k _.
  unfold studies. now rewrite (filter_all (fun _ => true)).
Qed.

(** X3. The counters of the dashboard agree with the table: over the
    summaries returned for the records shown, the counts of CONTRASTADOS
    add up to [contrastCount] and those of ESPECIALES to [specialCount]. *)
Theorem subcategory_counts_cover (filteredData : list RadiologyRecord)
        (out : list SummaryBySpecialist) :
  getSummaryBySpecialist filteredData = Normal out ->
  sum_list (map (fun s => subcategory_count s CONTRASTADOS) out)
  = contrastCount filteredData /\
  sum_list (map (fun s => subcategory_count s ESPECIALES) out)
  = specialCount filteredData.
Proof.
  intros Hout.
  change (contrastCount filteredData)
    with (N.of_nat (List.length (filter (has_subcategory CONTRASTADOS) filteredData))).
  change (specialCount filteredData)
    with (N.of_nat (List.length (filter (has_subcategory ESPECIALES) filteredData))).
  split.
  - rewrite <- (sum_over_groups (has_subcategory CONTRASTADOS) filteredData).
    apply (sum_over_summaries _ _ filteredData out Hout).
    intros s (_ & _ & _ & Hsub). unfold subcategory_count. now rewrite Hsub.
  - rewrite <- (sum_over_groups (has_subcategory ESPECIALES) filteredData).
    apply (sum_over_summaries _ _ filteredData out Hout).
    intros s (_ & _ & _ & Hsub). unfold subcategory_count. now rewrite Hsub.
Qed.

(** X4. [getSummaryBySpecialist] throws a TypeError exactly when the
    trimmed name of the specialist of some record is a name that the
    grouping object inherits from [Object.prototype]; otherwise it
    returns. *)
Theorem getSummaryBySpecialist_throws_iff (data : list RadiologyRecord) :
  getSummaryBySpecialist data = Throw_TypeError <->
  exists r, In r data /\ inherited (specialist_key r) = true.
Proof.
  split.
  - intros Hthrow.
    destruct (existsb (fun r => inherited (specialist_key r)) data) eqn:E.
    + apply existsb_exists in E. exact E.
    + exfalso.
      destruct (getSummaryBySpecialist_grouping data) as (g & _ & Hg).
      * intros r Hr. destruct (inherited (specialist_key r)) eqn:I; [|reflexivity].
        assert (X : existsb (fun r => inherited (specialist_key r)) data = true)
          by (apply existsb_exists; eauto).
        rewrite X in E. discriminate E.
      * rewrite Hg in Hthrow. discriminate Hthrow.
  - intros (r & Hr & Hi). exact (getSummaryBySpecialist_throws data r Hr Hi).
Qed.

(** ** The classifier, further *)

Lemma includes_empty (s : jsstring) : includes s empty = true.
Proof. now destruct s. Qed.

(** X5. Where a subcategory comes from: a record is classified ESPECIALES
    only when its modality reads CR, its description has no contrast
    keyword and holds an entry of the list of special procedures; it is
    classified CONTRASTADOS only by a contrast keyword, or when its
    modality reads CT and its description holds an entry of the list of
    contrast procedures. *)
Theorem classifyRecord_sources (record : RadiologyRecord) :
  (subcategory (classifyRecord record) = ESPECIALES ->
   classifier_modality record = js "CR" /\
   includes (normalized_description record) (js "CONTRASTE") = false /\
   includes (normalized_description record) (js "CONTRASTADO") = false /\
   exists p, In p ESPECIALES_PROCEDURES /\
             includes (normalized_description record) (normalize U p) = true) /\
  (subcategory (classifyRecord record) = CONTRASTADOS ->
   includes (normalized_description record) (js "CONTRASTE") = true \/
   includes (normalized_description record) (js "CONTRASTADO") = true \/
   (classifier_modality record = js "CT" /\
    exists p, In p CONTRASTADOS_PROCEDURES /\
              includes (normalized_description record) (normalize U p) = true)).
Proof.
  unfold classifyRecord, normalized_description, classifier_modality.
  cbn [subcategory with_subcategory].
  set (d := normalize U (or_else (descripcion record) empty)).
  set (m := trim (toUpperCase U (or_else (modalidad record) empty))).
  destruct (includes d (js "CONTRASTE")) eqn:K1;
    [split; [discriminate | auto]|].
  destruct (includes d (js "CONTRASTADO")) eqn:K2;
    [split; [discriminate | auto]|].
  cbn [orb].
  destruct (jsstring_eqb m (js "CT")) eqn:CT.
  - apply jsstring_eqb_eq in CT.
    destruct (existsb (fun p => includes d (normalize U p)) CONTRASTADOS_PROCEDURES) eqn:L;
      split; try discriminate.
    intros _. right. right. split; [exact CT|]. now apply existsb_exists in L.
  - destruct (jsstring_eqb m (js "CR")) eqn:CR.
    + apply jsstring_eqb_eq in CR.
      destruct (existsb (fun p => includes d (normalize U p)) ESPECIALES_PROCEDURES) eqn:L;
        split; try discriminate.
      intros _. repeat split; try reflexivity; try exact CR. now apply existsb_exists in L.
    + split; discriminate.
Qed.

(** X6. An entry of a procedure list that normalizes to the empty string,
    such as one made of punctuation, is found in every description: with
    such an entry in the list of contrast procedures every record whose
    modality reads CT is CONTRASTADOS, and with one in the list of special
    procedures every record whose modality reads CR and whose description
    has no contrast keyword is ESPECIALES. *)
Theorem empty_procedure_matches_all (record : RadiologyRecord) :
  ((exists p, In p CONTRASTADOS_PROCEDURES /\ normalize U p = empty) ->
   classifier_modality record = js "CT" ->
   subcategory (classifyRecord record) = CONTRASTADOS) /\
  ((exists p, In p ESPECIALES_PROCEDURES /\ normalize U p = empty) ->
   classifier_modality record = js "CR" ->
   includes (normalized_description record) (js "CONTRASTE") = false ->
   includes (normalized_description record) (js "CONTRASTADO") = false ->
   subcategory (classifyRecord record) = ESPECIALES).
Proof.
  unfold classifyRecord, normalized_description, classifier_modality.
  cbn [subcategory with_subcategory].
  set (d := normalize U (or_else (descripcion record) empty)).
  set (m := trim (toUpperCase U (or_else (modalidad record) empty))).
  split.
  - intros (p & Hp & E) ->.
    destruct (includes d (js "CONTRASTE") || includes d (js "CONTRASTADO")); [reflexivity|].
    change (jsstring_eqb (js "CT") (js "CT")) with true. cbv iota.
    assert (L : existsb (fun p => includes d (normalize U p)) CONTRASTADOS_PROCEDURES = true).
    { apply existsb_exists. exists p. split; [exact Hp|]. rewrite E. apply includes_empty. }
    now rewrite L.
  - intros (p & Hp & E) -> K1 K2. rewrite K1, K2. cbn [orb].
    change (jsstring_eqb (js "CR") (js "CT")) with false.
    change (jsstring_eqb (js "CR") (js "CR")) with true. cbv iota.
    assert (L : existsb (fun p => includes d (normalize U p)) ESPECIALES_PROCEDURES = true).
    { apply existsb_exists. exists p. split; [exact Hp|]. rewrite E. apply includes_empty. }
    now rewrite L.
Qed.

(** ** The shape of a normalized string *)

Lemma trimStart_head (s : jsstring) (c : codeunit) (r : jsstring) :
  trimStart s = c :: r -> is_whitespace c = false.
Proof.
  induction s as [|a s IH]; cbn [trimStart]; [discriminate|].
  destruct (is_whitespace a) eqn:W; [exact IH|].
  intros H. injection H as <- _. exact W.
Qed.

Lemma trim_ends (s : jsstring) :
  (forall c r, trim s = c :: r -> is_whitespace c = false) /\
  (forall c r, trim s = r ++ [c] -> is_whitespace c = false).
Proof.
  split; intros c r H.
  - rewrite <- (trim_idempotent s) in H. unfold trim at 1 in H.
    unfold trim in H at 1.
    apply (trimStart_head (trimEnd (trimStart s)) c r).
    rewrite (trimStart_trimEnd (trimStart s) (trimStart_idempotent s)).
    unfold trim in H.
    rewrite (trimStart_trimEnd (trimStart s) (trimStart_idempotent s)) in H.
    now rewrite trimEnd_idempotent in H.
  - unfold trim, trimEnd in H.
    apply (f_equal (@rev N)) in H. rewrite rev_involutive, rev_app_distr in H.
    cbn [rev app] in H. exact (trimStart_head _ c _ H).
Qed.

(** X7. What [normalize] returns holds none of the punctuation marks it
    replaces, its white space is single spaces, none of them first or last,
    and with Unicode data whose upper-case mappings yield no letter a..z it
    holds no such letter. *)
Theorem normalize_shape (x : jsstring) :
  Forall (fun c => is_punctuation c = false) (normalize U x) /\
  collapsed_from false (normalize U x) = true /\
  (forall c r, normalize U x = c :: r -> is_whitespace c = false) /\
  (forall c r, normalize U x = r ++ [c] -> is_whitespace c = false) /\
  (upper_case_without_lower U ->
   Forall (fun c => is_lower_case_letter c = false) (normalize U x)).
Proof.
  unfold normalize. repeat split.
  - apply trim_Forall, collapse_from_Forall; [reflexivity | apply replace_punctuation_clean].
  - apply trim_collapsed, collapse_from_collapsed.
  - apply trim_ends.
  - apply trim_ends.
  - intros HU. apply trim_Forall, collapse_from_Forall, replace_punctuation_Forall;
      try reflexivity.
    now apply toUpperCase_without_lower.
Qed.

(** ** Dates, further *)

Lemma split_whole (sep : codeunit -> bool) (s : jsstring) :
  forallb (fun c => negb (sep c)) s = true -> split sep s = [s].
Proof.
  induction s as [|c s IH]; cbn [forallb split]; [reflexivity|].
  intros H. apply andb_prop in H as [Hc Hs]. apply negb_true_iff in Hc.
  now rewrite Hc, (IH Hs).
Qed.

Lemma split_at (sep : codeunit -> bool) (a : jsstring) (c : codeunit) (b : jsstring) :
  forallb (fun c => negb (sep c)) a = true -> sep c = true ->
  split sep (a ++ c :: b) = a :: split sep b.
Proof.
  intros Ha Hc. induction a as [|x a IH]; cbn [app split].
  - now rewrite Hc.
  - cbn [forallb] in Ha. apply andb_prop in Ha as [Hx Ha]. apply negb_true_iff in Hx.
    now rewrite Hx, (IH Ha).
Qed.

(** X8. A date written day first, as two code units, a separator, the
    month, a separator and four code units, is read as the date written
    year first with hyphens: the two spellings of one date parse to the
    same number and the sort compares them as equal. *)
Theorem parseDate_day_first (dd mm yyyy : jsstring) (s1 s2 : codeunit) :
  forallb (fun c => negb (is_slash_or_hyphen c)) dd = true ->
  forallb (fun c => negb (is_slash_or_hyphen c)) mm = true ->
  forallb (fun c => negb (is_slash_or_hyphen c)) yyyy = true ->
  is_slash_or_hyphen s1 = true -> is_slash_or_hyphen s2 = true ->
  List.length dd = 2%nat -> List.length yyyy = 4%nat ->
  parseDate (dd ++ s1 :: mm ++ s2 :: yyyy)
  = Date_parse (yyyy ++ js "-" ++ mm ++ js "-" ++ dd) /\
  parseDate (yyyy ++ js "-" ++ mm ++ js "-" ++ dd)
  = Date_parse (yyyy ++ js "-" ++ mm ++ js "-" ++ dd) /\
  SortCompare compareDates (dd ++ s1 :: mm ++ s2 :: yyyy)
              (yyyy ++ js "-" ++ mm ++ js "-" ++ dd) = 0%Z.
Proof.
  intros Hd Hm Hy H1 H2 Ld Ly.
  assert (P1 : parseDate (dd ++ s1 :: mm ++ s2 :: yyyy)
               = Date_parse (yyyy ++ js "-" ++ mm ++ js "-" ++ dd)).
  { unfold parseDate.
    rewrite (split_at _ dd s1 _ Hd H1), (split_at _ mm s2 _ Hm H2), (split_whole _ yyyy Hy).
    now rewrite Ld, Ly. }
  assert (P2 : parseDate (yyyy ++ js "-" ++ mm ++ js "-" ++ dd)
               = Date_parse (yyyy ++ js "-" ++ mm ++ js "-" ++ dd)).
  { unfold parseDate. change (js "-") with [45].
    cbn [app].
    rewrite (split_at _ yyyy 45 _ Hy eq_refl), (split_at _ mm 45 _ Hm eq_refl),
      (split_whole _ dd Hd).
    now rewrite Ly. }
  split; [exact P1|]. split; [exact P2|].
  unfold SortCompare, compareDates. rewrite P1, P2.
  destruct (Date_parse (yyyy ++ js "-" ++ mm ++ js "-" ++ dd)); cbn [minus];
    [f_equal; lia | reflexivity].
Qed.

Lemma StronglySorted_first {A : Type} (R : A -> A -> Prop) (l : list A) (lo : A) :
  StronglySorted R l -> nth_error l 0 = Some lo ->
  forall d, In d l -> d = lo \/ R lo d.
Proof.
  intros HS H d Hd. destruct HS as [|a l HS Ha]; [discriminate H|].
  injection H as ->. destruct Hd as [<- | Hd]; [now left|].
  right. rewrite Forall_forall in Ha. now apply Ha.
Qed.

Lemma StronglySorted_last {A : Type} (R : A -> A -> Prop) (l : list A) (hi : A) :
  StronglySorted R l -> nth_error l (List.length l - 1) = Some hi ->
  forall d, In d l -> d = hi \/ R d hi.
Proof.
  intros HS. induction HS as [|a l HS IH Ha]; intros H d Hd; [contradiction|].
  destruct l as [|b l].
  - cbn in H. injection H as <-. destruct Hd as [<- | []]. now left.
  - assert (H' : nth_error (b :: l) (List.length (b :: l) - 1) = Some hi).
    { cbn [List.length] in *. replace (S (S (List.length l)) - 1)%nat
        with (S (List.length l)) in H by lia.
      cbn [nth_error] in H. replace (S (List.length l) - 1)%nat with (List.length l) by lia.
      exact H. }
    destruct Hd as [<- | Hd]; [|now apply IH].
    right. rewrite Forall_forall in Ha. apply Ha.
    eapply nth_error_In. exact H'.
Qed.

(** X9. When every date that passes the filter parses to a time value, the
    range is from an earliest to a latest of them: no date of the column is
    before the minimum or after the maximum. *)
Theorem dateRange_chronological (filteredData : list RadiologyRecord) :
  validDates filteredData <> [] ->
  (forall d, In d (validDates filteredData) -> parseDate d <> NaN) ->
  exists lo hi tlo thi,
    dateRange filteredData = {| min := Some lo; max := Some hi |} /\
    parseDate lo = Some tlo /\ parseDate hi = Some thi /\
    forall d t, In d (validDates filteredData) -> parseDate d = Some t ->
                (tlo <= t <= thi)%Z.
Proof.
  intros Hne Hparse. destruct Array_sort_conforms as [Hperm Hstable].
  set (key := fun s => match parseDate s with Some t => t | None => 0%Z end).
  assert (Hkey : forall a b, In a (validDates filteredData) ->
                             In b (validDates filteredData) ->
                             compareDates a b = Some (key a - key b)%Z).
  { intros a b Ha Hb. unfold compareDates, key.
    pose proof (Hparse a Ha). pose proof (Hparse b Hb).
    destruct (parseDate a), (parseDate b); try reflexivity; now exfalso. }
  assert (Hsort : Array_sort jsstring compareDates (validDates filteredData)
                  = stable_sort (fun a b => Some (key a - key b)%Z)
                                (validDates filteredData)).
  { rewrite Hstable by (exact (difference_consistent _ key _ Hkey)).
    apply stable_sort_ext. intros x y Hx Hy. unfold SortCompare.
    now rewrite (Hkey x y Hx Hy). }
  pose proof (stable_sort_sorted jsstring (fun a b => Some (key a - key b)%Z) key
                (fun a b => eq_refl) (validDates filteredData)) as Hsorted.
  pose proof (stable_sort_perm (fun a b => Some (key a - key b)%Z)
                               (validDates filteredData)) as Hp.
  set (sorted := stable_sort (fun a b => Some (key a - key b)%Z)
                             (validDates filteredData)) in *.
  destruct (first_and_last sorted) as (lo & hi & Hlo & Hhi & Ilo & Ihi).
  { intros E. rewrite E in Hp. apply Permutation_sym, Permutation_nil in Hp.
    contradiction. }
  assert (Vlo : In lo (validDates filteredData))
    by (eapply Permutation_in; [symmetry; exact Hp | exact Ilo]).
  assert (Vhi : In hi (validDates filteredData))
    by (eapply Permutation_in; [symmetry; exact Hp | exact Ihi]).
  assert (Klo : parseDate lo = Some (key lo)).
  { unfold key. pose proof (Hparse lo Vlo). destruct (parseDate lo); [reflexivity|].
    now exfalso. }
  assert (Khi : parseDate hi = Some (key hi)).
  { unfold key. pose proof (Hparse hi Vhi). destruct (parseDate hi); [reflexivity|].
    now exfalso. }
  exists lo, hi, (key lo), (key hi).
  split; [|split; [exact Klo | split; [exact Khi|]]].
  - unfold dateRange. destruct filteredData as [|r l]; [now contradiction Hne|].
    destruct (validDates (r :: l)) as [|f fs] eqn:V; [now contradiction Hne|].
    cbv zeta. rewrite Hsort. fold sorted. now rewrite Hlo, Hhi.
  - intros d t Hd Ht.
    assert (Kd : key d = t) by (unfold key; now rewrite Ht).
    assert (Id : In d sorted) by (eapply Permutation_in; [exact Hp | exact Hd]).
    split.
    + destruct (StronglySorted_first _ sorted lo Hsorted Hlo d Id) as [-> | L]; lia.
    + destruct (StronglySorted_last _ sorted hi Hsorted Hhi d Id) as [-> | L]; lia.
Qed.

(** ** Objects of counts *)

Lemma increment_names (o : JSObject N) (k : jsstring) :
  map fst (increment o k)
  = if existsb (jsstring_eqb k) (map fst o) then map fst o else map fst o ++ [k].
Proof.
  unfold increment. rewrite set_own_names.
  destruct (get_own o k) as [n|] eqn:E.
  - assert (H : In k (map fst o)) by (apply get_own_In; eauto).
    apply (proj2 (existsb_jsstring_eqb _ _)) in H. now rewrite H.
  - apply get_own_None in E.
    destruct (existsb (jsstring_eqb k) (map fst o)) eqn:X; [|reflexivity].
    apply (proj1 (existsb_jsstring_eqb _ _)) in X. contradiction.
Qed.

Section CountBy.
Variable R : Type.
Variable key : R -> jsstring.

Lemma count_by_snoc (data : list R) (r : R) :
  count_by key (data ++ [r]) = increment (count_by key data) (key r).
Proof. unfold count_by. now rewrite fold_left_app. Qed.

Lemma count_by_names (data : list R) :
  map fst (count_by key data) = first_seen (map key data).
Proof.
  induction data as [|r data IH] using rev_ind; [reflexivity|].
  rewrite count_by_snoc, increment_names, map_app, IH. cbn [map].
  rewrite first_seen_snoc.
  destruct (existsb (jsstring_eqb (key r)) (map key data)) eqn:E.
  - apply (proj1 (existsb_jsstring_eqb _ _)) in E.
    apply (proj2 (first_seen_In _ _)) in E.
    apply (proj2 (existsb_jsstring_eqb _ _)) in E. now rewrite E.
  - destruct (existsb (jsstring_eqb (key r)) (first_seen (map key data))) eqn:X;
      [|reflexivity].
    apply (proj1 (existsb_jsstring_eqb _ _)) in X.
    apply (proj1 (first_seen_In _ _)) in X.
    apply (proj2 (existsb_jsstring_eqb _ _)) in X. rewrite X in E. discriminate E.
Qed.

Lemma count_by_value (data : list R) (k : jsstring) :
  get_own (count_by key data) k
  = counted (List.length (filter (fun r => jsstring_eqb (key r) k) data)).
Proof.
  induction data as [|r data IH] using rev_ind; [reflexivity|].
  rewrite count_by_snoc, get_own_increment, length_filter_snoc.
  destruct (jsstring_eqb (key r) k) eqn:E.
  - apply jsstring_eqb_eq in E. subst k. rewrite IH, counted_value.
    destruct (List.length (filter (fun r0 => jsstring_eqb (key r0) (key r)) data));
      simpl; f_equal; lia.
  - now rewrite IH, Nat.add_0_r.
Qed.

Lemma count_by_sum (data : list R) :
  sum_values (count_by key data) = N.of_nat (List.length data).
Proof.
  induction data as [|r data IH] using rev_ind; [reflexivity|].
  rewrite count_by_snoc, sum_values_increment, IH, length_app. simpl. lia.
Qed.
End CountBy.

(** ** The entries and the values of an object *)

Lemma flat_map_ext_in {A B : Type} (f g : A -> list B) (l : list A) :
  (forall a, In a l -> f a = g a) -> flat_map f l = flat_map g l.
Proof.
  induction l as [|a l IH]; cbn [flat_map]; intros H; [reflexivity|].
  rewrite (H a (or_introl eq_refl)), IH by (intros; apply H; now right). reflexivity.
Qed.

Lemma own_entries {V : Type} (o : JSObject V) :
  NoDup (map fst o) ->
  flat_map (fun k => match get_own o k with Some v => [(k, v)] | None => [] end)
           (map fst o) = o.
Proof.
  induction o as [|[k v] o IH]; cbn [map flat_map fst]; intros H; [reflexivity|].
  apply NoDup_cons_iff in H as [Hk Ho].
  cbn [get_own]. rewrite jsstring_eqb_refl. cbn [app]. f_equal.
  rewrite <- (IH Ho) at 2. apply flat_map_ext_in.
  intros k' Hk'. destruct (jsstring_eqb k k') eqn:X; [|reflexivity].
  apply jsstring_eqb_eq in X. subst k'. contradiction.
Qed.

Lemma Object_entries_perm {V : Type} (o : JSObject V) :
  NoDup (map fst o) -> Permutation (Object_entries o) o.
Proof.
  intros H. unfold Object_entries.
  etransitivity; [apply Permutation_flat_map, OrdinaryOwnPropertyKeys_perm|].
  now rewrite (own_entries o H).
Qed.

Lemma Object_entries_names {V : Type} (o : JSObject V) :
  map fst (Object_entries o) = OrdinaryOwnPropertyKeys (map fst o).
Proof.
  unfold Object_entries.
  assert (H : forall k, In k (OrdinaryOwnPropertyKeys (map fst o)) ->
                        exists v, get_own o k = Some v).
  { intros k Hk. apply get_own_In.
    eapply Permutation_in; [apply OrdinaryOwnPropertyKeys_perm | exact Hk]. }
  induction (OrdinaryOwnPropertyKeys (map fst o)) as [|k ks IH]; [reflexivity|].
  cbn [flat_map]. destruct (H k (or_introl eq_refl)) as [v Hv]. rewrite Hv.
  cbn [app map fst]. f_equal. apply IH. intros; apply H; now right.
Qed.

Lemma Object_entries_In {V : Type} (o : JSObject V) (k : jsstring) (v : V) :
  In (k, v) (Object_entries o) -> get_own o k = Some v.
Proof.
  unfold Object_entries. rewrite in_flat_map. intros (k' & _ & H).
  destruct (get_own o k') as [w|] eqn:E; [|contradiction].
  destruct H as [H | []]. injection H as -> ->. exact E.
Qed.

Lemma Object_values_entries {V : Type} (o : JSObject V) :
  Object_values o = map snd (Object_entries o).
Proof.
  unfold Object_values, Object_entries.
  induction (OrdinaryOwnPropertyKeys (map fst o)) as [|k ks IH]; [reflexivity|].
  cbn [flat_map]. rewrite map_app, IH. now destruct (get_own o k).
Qed.

Lemma Object_values_perm {V : Type} (o : JSObject V) :
  NoDup (map fst o) -> Permutation (Object_values o) (map snd o).
Proof.
  intros H. rewrite Object_values_entries. now apply Permutation_map, Object_entries_perm.
Qed.

(** ** The chart of modalities *)

Lemma modality_stats_count_by (data : list RadiologyRecord) :
  modality_stats data = count_by modality_key data.
Proof. reflexivity. Qed.

(** X10. [getModalityStats] returns one point for each distinct modality
    key of the records, in the order of enumeration of those keys, and the
    value of a point is the number of records with its key, which is at
    least one. *)
Theorem getModalityStats_counts (data : list RadiologyRecord) :
  map ChartDataPoint.name (getModalityStats data)
  = OrdinaryOwnPropertyKeys (first_seen (map modality_key data)) /\
  NoDup (map ChartDataPoint.name (getModalityStats data)) /\
  Forall (fun pt =>
            ChartDataPoint.value pt
            = N.of_nat (List.length (filter (has_modality (ChartDataPoint.name pt)) data))
            /\ 1 <= ChartDataPoint.value pt)
         (getModalityStats data).
Proof.
  unfold getModalityStats. rewrite modality_stats_count_by.
  assert (Hnames : map ChartDataPoint.name
                     (map (fun e => {| ChartDataPoint.name := fst e;
                                       ChartDataPoint.value := snd e |})
                          (Object_entries (count_by modality_key data)))
                   = OrdinaryOwnPropertyKeys (first_seen (map modality_key data))).
  { rewrite map_map. cbn [ChartDataPoint.name].
    change (map (fun x : jsstring * N => fst x)) with (@map (jsstring * N) _ fst).
    now rewrite Object_entries_names, count_by_names. }
  split; [exact Hnames|]. split.
  - rewrite Hnames.
    eapply Permutation_NoDup;
      [symmetry; apply OrdinaryOwnPropertyKeys_perm | apply first_seen_NoDup].
  - apply Forall_map, Forall_forall. intros [k v] He. cbn [ChartDataPoint.name
      ChartDataPoint.value fst snd].
    apply Object_entries_In in He. rewrite count_by_value in He.
    change (fun r => jsstring_eqb (modality_key r) k) with (has_modality k) in He.
    destruct (List.length (filter (has_modality k) data)) as [|n]; [discriminate He|].
    injection He as <-. split; [reflexivity | lia].
Qed.

(** X11. The values of the points of [getModalityStats] add up to the
    number of records. *)
Theorem getModalityStats_sum (data : list RadiologyRecord) :
  sum_list (map ChartDataPoint.value (getModalityStats data))
  = N.of_nat (List.length data).
Proof.
  unfold getModalityStats. rewrite modality_stats_count_by, map_map.
  cbn [ChartDataPoint.value].
  change (map (fun x : jsstring * N => snd x)) with (@map (jsstring * N) _ snd).
  rewrite <- (count_by_sum _ modality_key data). unfold sum_values.
  apply sum_list_perm, Permutation_map, Object_entries_perm.
  rewrite count_by_names. apply first_seen_NoDup.
Qed.

(** ** The records kept of an upload *)

Lemma toUpperCase_empty : toUpperCase U empty = empty.
Proof. reflexivity. Qed.

Lemma isAllowedMod_key (d : RadiologyRecord) :
  isAllowedMod d = true -> In (modality_key d) ALLOWED_MODALITIES.
Proof.
  unfold isAllowedMod, modality_key. intros H.
  destruct (modalidad d) as [[|c m]|]; try discriminate H.
  cbn [or_else] in *. now apply existsb_jsstring_eqb.
Qed.

(** X12. The records that an upload keeps have an identifier that is not
    blank and a modality whose key is one of CT, US, CR and MG; and in the
    summaries returned for them every modality count is under one of these
    four keys, none under N/A. *)
Theorem cleanData_modalities (parsed : list RadiologyRecord) :
  (forall d, In d (cleanData parsed) ->
             In d parsed /\ ~ blank (id_paciente d) /\
             In (modality_key d) ALLOWED_MODALITIES) /\
  (forall out, getSummaryBySpecialist (cleanData parsed) = Normal out ->
     forall s m n, In s out -> get_own (modalities s) m = Some n ->
                   In m ALLOWED_MODALITIES /\ m <> js "N/A").
Proof.
  assert (Hclean : forall d, In d (cleanData parsed) ->
                             In d parsed /\ ~ blank (id_paciente d) /\
                             In (modality_key d) ALLOWED_MODALITIES).
  { intros d Hd. unfold cleanData in Hd. apply filter_In in Hd as [Hin H].
    apply andb_prop in H as [Hid Hmod]. split; [exact Hin|]. split.
    - unfold hasId in Hid. unfold blank. intros B.
      destruct (id_paciente d) as [[|c s]|]; try discriminate Hid.
      rewrite (trim_blank _ B) in Hid. discriminate Hid.
    - now apply isAllowedMod_key. }
  split; [exact Hclean|].
  intros out Hout s m n Hs Hm.
  pose proof (getSummaryBySpecialist_Normal _ out Hout) as H.
  destruct (getSummaryBySpecialist_grouping _ H) as (g & Hg & E).
  rewrite Hout in E. injection E as ->.
  pose proof (values_summarize _ g Hg) as Hvals. rewrite Forall_forall in Hvals.
  assert (Hs' : In s (Object_values g))
    by (eapply Permutation_in; [symmetry; apply stable_sort_perm | exact Hs]).
  destruct (Hvals s Hs') as (_ & _ & Hmod & _).
  rewrite Hmod in Hm.
  destruct (filter (has_modality m) (group (cleanData parsed) (specialist s)))
    as [|r rs] eqn:F; [discriminate Hm|].
  assert (Hr : In r (filter (has_modality m) (group (cleanData parsed) (specialist s))))
    by (rewrite F; now left).
  apply filter_In in Hr as [Hr Hkey]. apply filter_In in Hr as [Hr _].
  apply jsstring_eqb_eq in Hkey. subst m.
  destruct (Hclean r Hr) as (_ & _ & A). split; [exact A|].
  intros X. rewrite X in A. cbn in A.
  repeat (destruct A as [A | A]; [discriminate A|]). exact A.
Qed.

(** ** The records shown *)

Section Shown.
Variable toLowerCase : jsstring -> jsstring.

(** X13. With the filter All and an empty search every record is shown;
    with any other filter and an empty search the records shown are those
    whose specialist is the filter, as it is written. *)
Theorem filteredData_empty_search (data : list RadiologyRecord)
        (filterSpecialist : jsstring) :
  filteredData toLowerCase data (js "All") empty = data /\
  (filterSpecialist <> js "All" ->
   filteredData toLowerCase data filterSpecialist empty
   = filter (fun d => strict_equal (realizado_por d) filterSpecialist) data).
Proof.
  unfold filteredData. split.
  - apply filter_all. intros d _.
    rewrite (includes_empty (or_else (id_paciente d) empty)), orb_true_r. reflexivity.
  - intros H. apply jsstring_eqb_neq in H. apply filter_ext_in. intros d _.
    rewrite H, (includes_empty (or_else (id_paciente d) empty)), orb_true_r.
    cbn [orb]. apply andb_true_r.
Qed.

Lemma first_seen_constant (k : jsstring) (l : list jsstring) :
  l <> [] -> (forall x, In x l -> x = k) -> first_seen l = [k].
Proof.
  induction l as [|a l IH]; intros Hne H; [now contradiction Hne|].
  cbn [first_seen]. rewrite (H a (or_introl eq_refl)). f_equal.
  apply filter_none. intros x Hx. apply (proj1 (first_seen_In _ _)) in Hx.
  rewrite (H x (or_intror Hx)). now rewrite jsstring_eqb_refl.
Qed.

Lemma OrdinaryOwnPropertyKeys_single (k : jsstring) : OrdinaryOwnPropertyKeys [k] = [k].
Proof. unfold OrdinaryOwnPropertyKeys. cbn [filter]. now destruct (is_index k). Qed.

(** X14. With a specialist selected, the records shown are all of one
    group: when any is shown, [getSummaryBySpecialist] returns one summary,
    under the trimmed name, whose total is the number of records shown, or
    throws a TypeError when that name is one that the grouping object
    inherits. *)
Theorem selected_specialist_summary (data : list RadiologyRecord)
        (filterSpecialist searchTerm : jsstring) :
  filterSpecialist <> js "All" ->
  filteredData toLowerCase data filterSpecialist searchTerm <> [] ->
  (inherited (trim (or_else (Some filterSpecialist) (js "SIN ASIGNAR"))) = false ->
   exists s,
     getSummaryBySpecialist (filteredData toLowerCase data filterSpecialist searchTerm)
     = Normal [s] /\
     specialist s = trim (or_else (Some filterSpecialist) (js "SIN ASIGNAR")) /\
     totalStudies s
     = N.of_nat (List.length (filteredData toLowerCase data filterSpecialist searchTerm))) /\
  (inherited (trim (or_else (Some filterSpecialist) (js "SIN ASIGNAR"))) = true ->
   getSummaryBySpecialist (filteredData toLowerCase data filterSpecialist searchTerm)
   = Throw_TypeError).
Proof.
  intros Hf Hne.
  set (shown := filteredData toLowerCase data filterSpecialist searchTerm) in *.
  set (k := trim (or_else (Some filterSpecialist) (js "SIN ASIGNAR"))).
  assert (Hkey : forall r, In r shown -> specialist_key r = k).
  { intros r Hr. unfold shown, filteredData in Hr. apply filter_In in Hr as [_ H].
    apply andb_prop in H as [H _]. apply jsstring_eqb_neq in Hf. rewrite Hf in H.
    cbn [orb] in H. unfold strict_equal in H.
    destruct (realizado_por r) as [t|] eqn:E; [|discriminate H].
    apply jsstring_eqb_eq in H. subst t. unfold specialist_key, k. now rewrite E. }
  split.
  - intros Hi.
    destruct (getSummaryBySpecialist_grouping shown) as (g & Hg & E).
    { intros r Hr. now rewrite (Hkey r Hr). }
    pose proof (values_summarize shown g Hg) as Hvals.
    pose proof (values_names shown g Hg) as Hnames.
    assert (Hseen : groups_first_seen shown = [k]).
    { apply first_seen_constant.
      - intros X. apply map_eq_nil in X. contradiction.
      - intros x Hx. apply in_map_iff in Hx. destruct Hx as (r & <- & Hr). now apply Hkey. }
    rewrite Hseen, OrdinaryOwnPropertyKeys_single in Hnames.
    destruct (Object_values g) as [|s [|s' vals]]; try discriminate Hnames.
    injection Hnames as Hs.
    exists s. split; [exact E|]. split; [exact Hs|].
    inversion Hvals as [|? ? (_ & Ht & _) _]; subst.
    rewrite Ht, Hs. unfold studies, group. f_equal. f_equal.
    apply filter_all. intros r Hr. unfold in_group. rewrite (Hkey r Hr).
    apply jsstring_eqb_refl.
  - intros Hi. destruct shown as [|r l] eqn:S; [now contradiction Hne|].
    apply (getSummaryBySpecialist_throws (r :: l) r); [now left|].
    rewrite (Hkey r (or_introl eq_refl)). exact Hi.
Qed.
End Shown.

(** ** The table of the Word report *)

Lemma cell_count_study (row : SpecStats) (r : RadiologyRecord) (c : Column) :
  cell (count_study row r) c = cell row c + if Column_eqb (column r) c then 1 else 0.
Proof.
  unfold count_study. destruct (column r), c; cbn [cell ct_std ct_cont cr_std cr_esp mg us
    otros Column_eqb]; lia.
Qed.

Lemma report_group_snoc_same (records : list RadiologyRecord) (r : RadiologyRecord) :
  report_group (records ++ [r]) (report_key r) = report_group records (report_key r) ++ [r].
Proof.
  unfold report_group. rewrite filter_app. cbn [filter]. now rewrite jsstring_eqb_refl.
Qed.

Lemma report_group_snoc_other (records : list RadiologyRecord) (r : RadiologyRecord)
      (k : jsstring) :
  k <> report_key r -> report_group (records ++ [r]) k = report_group records k.
Proof.
  intros H. unfold report_group. rewrite filter_app. cbn [filter].
  apply not_eq_sym, jsstring_eqb_neq in H. rewrite H. apply app_nil_r.
Qed.

Lemma tallies_new (records : list RadiologyRecord) (k : jsstring) :
  ~ In k (map report_key records) -> tallies records k (new_stats k).
Proof.
  intros H. unfold tallies.
  assert (E : report_group records k = []).
  { apply filter_none. intros r Hr. apply jsstring_eqb_neq. intros X. apply H.
    rewrite <- X. now apply in_map. }
  rewrite E. repeat split. now intros [].
Qed.

Lemma tallies_count (records : list RadiologyRecord) (r : RadiologyRecord)
      (row : SpecStats) :
  tallies records (report_key r) row ->
  tallies (records ++ [r]) (report_key r) (count_study row r).
Proof.
  intros (Hname & Htotal & Hcells). unfold tallies. rewrite report_group_snoc_same.
  split; [exact Hname|]. split.
  - cbn [count_study total]. rewrite Htotal, length_app. cbn [List.length]. lia.
  - intros c. rewrite cell_count_study, Hcells, length_filter_snoc, of_nat_add_bit.
    reflexivity.
Qed.

Lemma report_names_snoc (records : list RadiologyRecord) (r : RadiologyRecord) :
  report_names (records ++ [r])
  = if inherited (report_key r) then report_names records
    else if existsb (jsstring_eqb (report_key r)) (report_names records)
         then report_names records
         else report_names records ++ [report_key r].
Proof.
  unfold report_names. rewrite map_app, filter_app. cbn [map filter].
  destruct (inherited (report_key r)) eqn:I; cbn [negb].
  - now rewrite app_nil_r.
  - rewrite first_seen_snoc.
    set (l := filter (fun k => negb (inherited k)) (map report_key records)).
    destruct (existsb (jsstring_eqb (report_key r)) l) eqn:E.
    + apply (proj1 (existsb_jsstring_eqb _ _)) in E.
      apply (proj2 (first_seen_In _ _)) in E.
      apply (proj2 (existsb_jsstring_eqb _ _)) in E. now rewrite E.
    + destruct (existsb (jsstring_eqb (report_key r)) (first_seen l)) eqn:X; [|reflexivity].
      apply (proj1 (existsb_jsstring_eqb _ _)) in X.
      apply (proj1 (first_seen_In _ _)) in X.
      apply (proj2 (existsb_jsstring_eqb _ _)) in X. rewrite X in E. discriminate E.
Qed.

Lemma report_names_In (records : list RadiologyRecord) (k : jsstring) :
  In k (report_names records) <-> In k (map report_key records) /\ inherited k = false.
Proof.
  unfold report_names. rewrite first_seen_In, filter_In, negb_true_iff. reflexivity.
Qed.

Lemma report_fold (records : list RadiologyRecord) :
  map fst (fold_left count_in_report records []) = report_names records /\
  forall k row, get_own (fold_left count_in_report records []) k = Some row ->
                tallies records k row.
Proof.
  induction records as [|r records [Hnames Hrows]] using rev_ind.
  - split; [reflexivity|]. intros k row H. discriminate H.
  - rewrite fold_left_app. cbn [fold_left].
    set (acc := fold_left count_in_report records []) in *.
    rewrite report_names_snoc. unfold count_in_report.
    destruct (get_own acc (report_key r)) as [row0|] eqn:G.
    + assert (Hin : In (report_key r) (report_names records))
        by (rewrite <- Hnames; apply get_own_In; eauto).
      pose proof (proj2 (proj1 (report_names_In _ _) Hin)) as I.
      apply (proj2 (existsb_jsstring_eqb _ _)) in Hin. rewrite I, Hin.
      split; [now rewrite set_own_names, G|].
      intros k row Hk.
      destruct (list_eq_dec N.eq_dec k (report_key r)) as [-> | Hne].
      * rewrite get_own_set_own_same in Hk. injection Hk as <-.
        apply tallies_count. now apply Hrows.
      * rewrite get_own_set_own_other in Hk by exact Hne.
        unfold tallies. rewrite (report_group_snoc_other _ _ _ Hne). now apply Hrows.
    + assert (Hout : forall k row, get_own acc k = Some row -> k <> report_key r).
      { intros k row Hk X. rewrite X, G in Hk. discriminate Hk. }
      destruct (inherited (report_key r)) eqn:I.
      * split; [exact Hnames|]. intros k row Hk.
        unfold tallies. rewrite (report_group_snoc_other _ _ _ (Hout k row Hk)).
        now apply Hrows.
      * assert (Hnot : ~ In (report_key r) (report_names records))
          by (rewrite <- Hnames; now apply get_own_None).
        destruct (existsb (jsstring_eqb (report_key r)) (report_names records)) eqn:X.
        { apply (proj1 (existsb_jsstring_eqb _ _)) in X. contradiction. }
        split; [now rewrite set_own_names, G, Hnames|].
        intros k row Hk.
        destruct (list_eq_dec N.eq_dec k (report_key r)) as [-> | Hne].
        -- rewrite get_own_set_own_same in Hk. injection Hk as <-.
           apply tallies_count, tallies_new. intros Hin. apply Hnot.
           apply report_names_In. now split.
        -- rewrite get_own_set_own_other in Hk by exact Hne.
           unfold tallies. rewrite (report_group_snoc_other _ _ _ Hne). now apply Hrows.
Qed.

Lemma columns_partition (g : list RadiologyRecord) :
  sum_list (map (fun c => N.of_nat (List.length (filter (fun r => Column_eqb (column r) c) g)))
                [col_ct_std; col_ct_cont; col_cr_std; col_cr_esp; col_mg; col_us; col_otros])
  = N.of_nat (List.length g).
Proof.
  induction g as [|r g IH]; [reflexivity|].
  cbn [map sum_list fold_right filter] in *.
  destruct (column r); cbn [Column_eqb List.length]; lia.
Qed.

Lemma report_rows_names (data : list RadiologyRecord) (filterSpecialist : jsstring) :
  map name (report_rows data filterSpecialist)
  = OrdinaryOwnPropertyKeys (report_names (report_records data filterSpecialist)).
Proof.
  unfold report_rows.
  destruct (report_fold (report_records data filterSpecialist)) as [Hnames Hrows].
  rewrite <- Hnames. apply Object_values_names.
  intros k row Hk. now destruct (Hrows k row Hk).
Qed.

Lemma report_rows_tallies (data : list RadiologyRecord) (filterSpecialist : jsstring) :
  Forall (fun row => tallies (report_records data filterSpecialist) (name row) row)
         (report_rows data filterSpecialist).
Proof.
  unfold report_rows.
  destruct (report_fold (report_records data filterSpecialist)) as [Hnames Hrows].
  apply Forall_forall. intros row Hrow.
  destruct (Object_values_In _ row Hrow) as [k Hk].
  pose proof (Hrows k row Hk) as T. destruct T as [Hn T]. rewrite Hn. now split.
Qed.

(** X15. The table of the Word report has one row for each distinct
    trimmed name of the records of the report that the object does not
    inherit, in the order of enumeration of these names; a row holds the
    number of records of its name, and in each column the number of those
    whose modality and subcategory are of that column. *)
Theorem report_rows_tally (data : list RadiologyRecord) (filterSpecialist : jsstring) :
  map name (report_rows data filterSpecialist)
  = OrdinaryOwnPropertyKeys (report_names (report_records data filterSpecialist)) /\
  Forall (fun row => tallies (report_records data filterSpecialist) (name row) row)
         (report_rows data filterSpecialist).
Proof. split; [apply report_rows_names | apply report_rows_tallies]. Qed.

(** X16. In every row of the table of the Word report the total is the sum
    of the seven columns. *)
Theorem report_row_total (data : list RadiologyRecord) (filterSpecialist : jsstring) :
  Forall (fun row => total row
                     = ct_std row + ct_cont row + cr_std row + cr_esp row
                       + mg row + us row + otros row)
         (report_rows data filterSpecialist).
Proof.
  eapply Forall_impl; [|exact (report_rows_tallies data filterSpecialist)].
  intros row (_ & Ht & Hc).
  rewrite Ht, <- (columns_partition (report_group _ (name row))).
  cbn [map sum_list fold_right]. rewrite <- !Hc. cbn [cell]. lia.
Qed.

(** X17. The totals of the rows of the Word report add up to the number of
    records of the report whose trimmed name the object does not inherit:
    the records of a specialist named constructor, say, are in no row, and
    nothing is thrown. *)
Theorem report_rows_cover (data : list RadiologyRecord) (filterSpecialist : jsstring) :
  sum_list (map total (report_rows data filterSpecialist))
  = N.of_nat (List.length
                (filter (fun r => negb (inherited (report_key r)))
                        (report_records data filterSpecialist))).
Proof.
  pose proof (report_rows_names data filterSpecialist) as Hnames.
  pose proof (report_rows_tallies data filterSpecialist) as Hrows.
  set (records := report_records data filterSpecialist) in *.
  set (kept := filter (fun r => negb (inherited (report_key r))) records).
  rewrite (sum_list_map_ext total
             (fun row => N.of_nat (List.length (report_group records (name row)))))
    by (intros row Hrow; rewrite Forall_forall in Hrows; now destruct (Hrows row Hrow) as (_ & ? & _)).
  rewrite <- (map_map name (fun k => N.of_nat (List.length (report_group records k)))), Hnames.
  rewrite (sum_list_perm _ _ (Permutation_map _ (OrdinaryOwnPropertyKeys_perm _))).
  assert (E : N.of_nat (List.length kept)
              = N.of_nat (List.length (filter (fun _ => true) kept)))
    by (now rewrite filter_all).
  rewrite E, <- (partition_by_key report_key (fun _ => true) (report_names records) kept).
  - apply sum_list_map_ext. intros k Hk. rewrite (filter_all (fun _ => true)) by reflexivity.
    unfold report_group, kept. f_equal. f_equal.
    rewrite (filter_ext_in (fun r => jsstring_eqb (report_key r) k)
               (fun r => negb (inherited (report_key r)) && jsstring_eqb (report_key r) k)).
    + clear. induction records as [|r l IH]; [reflexivity|]. cbn [filter].
      destruct (negb (inherited (report_key r))); cbn [andb filter];
        [destruct (jsstring_eqb (report_key r) k); now rewrite IH | exact IH].
    + intros r _. destruct (jsstring_eqb (report_key r) k) eqn:X; [|now rewrite andb_false_r].
      apply jsstring_eqb_eq in X. apply report_names_In in Hk as [_ I].
      now rewrite X, I.
  - apply first_seen_NoDup.
  - intros r Hr. unfold kept in Hr. apply filter_In in Hr as [Hr I].
    apply report_names_In. split; [now apply in_map | now apply negb_true_iff].
Qed.

(** ** The sheet of the Excel report *)

Lemma last_app_nonempty {A : Type} (l m : list A) (d : A) :
  m <> [] -> last (l ++ m) d = last m d.
Proof.
  intros Hm. induction l as [|a l IH]; [reflexivity|].
  cbn [app]. destruct (l ++ m) eqn:E.
  - apply app_eq_nil in E as [_ E]. contradiction.
  - cbn [last]. exact IH.
Qed.

Lemma sheet_key_last (curr : RadiologyRecord) :
  last (sheet_key curr) 0 = 83 \/ last (sheet_key curr) 0 = 68.
Proof.
  unfold sheet_key. rewrite !app_assoc.
  rewrite last_app_nonempty by (destruct (subcategory curr); discriminate).
  destruct (subcategory curr); [left | left | right]; reflexivity.
Qed.

(** The keys of the sheet are not names that the object inherits, and not
    array indices: the reads find own properties or nothing, and the
    object enumerates its keys in the order of their creation. *)
Lemma sheet_key_not_inherited (curr : RadiologyRecord) :
  inherited (sheet_key curr) = false.
Proof.
  destruct (inherited (sheet_key curr)) eqn:I; [|reflexivity].
  unfold inherited in I. apply existsb_exists in I. destruct I as (n & Hn & E).
  apply jsstring_eqb_eq in E. pose proof (sheet_key_last curr) as L. rewrite E in L.
  cbn [Object_prototype_names map In] in Hn.
  repeat (destruct Hn as [<- | Hn]; [destruct L as [L | L]; discriminate L|]).
  contradiction Hn.
Qed.

Lemma decimal_from_letter (s : jsstring) (acc : N) :
  existsb (fun c => negb (is_digit c)) s = true -> decimal_from acc s = None.
Proof.
  revert acc. induction s as [|c s IH]; intros acc; cbn [existsb decimal_from];
    [discriminate|].
  destruct (is_digit c); cbn [negb orb]; [apply IH | reflexivity].
Qed.

Lemma sheet_key_not_index (curr : RadiologyRecord) : is_index (sheet_key curr) = false.
Proof.
  assert (H : existsb (fun c => negb (is_digit c)) (sheet_key curr) = true).
  { apply existsb_exists. exists 95. split; [|reflexivity].
    unfold sheet_key. apply in_or_app. right. now left. }
  unfold is_index, array_index.
  destruct (sheet_key curr) as [|c r] eqn:E; [reflexivity|].
  destruct ((c =? 48) && negb match r with [] => true | _ :: _ => false end); [reflexivity|].
  unfold decimal. now rewrite (decimal_from_letter (c :: r) 0 H).
Qed.

Lemma sheet_group_snoc (records : list RadiologyRecord) (r : RadiologyRecord) (k : jsstring) :
  sheet_group (records ++ [r]) k
  = sheet_group records k ++ if jsstring_eqb (sheet_key r) k then [r] else [].
Proof. unfold sheet_group. rewrite filter_app. reflexivity. Qed.

Lemma sheet_fold (records : list RadiologyRecord) :
  map fst (fold_left count_in_sheet records []) = first_seen (map sheet_key records) /\
  forall k row, get_own (fold_left count_in_sheet records []) k = Some row ->
                row_key row = k /\ shows records k row.
Proof.
  induction records as [|r records [Hnames Hrows]] using rev_ind.
  - split; [reflexivity|]. intros k row H. discriminate H.
  - rewrite fold_left_app. cbn [fold_left].
    set (acc := fold_left count_in_sheet records []) in *.
    unfold count_in_sheet. split.
    + rewrite set_own_names, map_app, Hnames. cbn [map]. rewrite first_seen_snoc.
      destruct (get_own acc (sheet_key r)) as [row0|] eqn:G.
      * assert (Hin : In (sheet_key r) (map fst acc)) by (apply get_own_In; eauto).
        rewrite Hnames in Hin. apply (proj1 (first_seen_In _ _)) in Hin.
        apply (proj2 (existsb_jsstring_eqb _ _)) in Hin. now rewrite Hin.
      * apply get_own_None in G. rewrite Hnames in G.
        destruct (existsb (jsstring_eqb (sheet_key r)) (map sheet_key records)) eqn:X;
          [|reflexivity].
        apply (proj1 (existsb_jsstring_eqb _ _)) in X.
        apply (proj2 (first_seen_In _ _)) in X. contradiction.
    + intros k row Hk.
      destruct (list_eq_dec N.eq_dec k (sheet_key r)) as [-> | Hne].
      * rewrite get_own_set_own_same in Hk. injection Hk as <-.
        unfold shows. rewrite sheet_group_snoc, jsstring_eqb_refl.
        destruct (get_own acc (sheet_key r)) as [row0|] eqn:G.
        -- destruct (Hrows _ row0 G) as (Hkey & r0 & rest & Hg & Hf & Hm & Hs & Hc).
           split; [exact Hkey|]. exists r0, (rest ++ [r]). rewrite Hg.
           repeat split; try assumption.
           cbn [Cantidad]. rewrite Hc. cbn [List.length]. rewrite length_app.
           cbn [List.length]. lia.
        -- split; [reflexivity|]. exists r, [].
           assert (E : sheet_group records (sheet_key r) = []).
           { apply filter_none. intros x Hx. apply jsstring_eqb_neq. intros X.
             apply get_own_None in G. apply G. rewrite Hnames.
             apply (proj2 (first_seen_In _ _)). rewrite <- X. now apply in_map. }
           rewrite E. repeat split.
      * rewrite get_own_set_own_other in Hk by exact Hne.
        destruct (Hrows k row Hk) as [Hkey Hshow]. split; [exact Hkey|].
        unfold shows. rewrite sheet_group_snoc.
        apply not_eq_sym, jsstring_eqb_neq in Hne. rewrite Hne, app_nil_r. exact Hshow.
Qed.

Lemma sheet_rows_keys (data : list RadiologyRecord) (specialist : jsstring) :
  map row_key (sheet_rows data specialist)
  = first_seen (map sheet_key (report_records data specialist)).
Proof.
  unfold sheet_rows.
  destruct (sheet_fold (report_records data specialist)) as [Hnames Hrows].
  rewrite (Object_values_names _ row_key) by (intros k row Hk; now destruct (Hrows k row Hk)).
  rewrite Hnames. apply OrdinaryOwnPropertyKeys_no_index.
  intros k Hk. apply (proj1 (first_seen_In _ _)) in Hk. apply in_map_iff in Hk.
  destruct Hk as (r & <- & _). apply sheet_key_not_index.
Qed.

Lemma sheet_rows_shows (data : list RadiologyRecord) (specialist : jsstring) :
  Forall (fun row => shows (report_records data specialist) (row_key row) row)
         (sheet_rows data specialist).
Proof.
  unfold sheet_rows.
  destruct (sheet_fold (report_records data specialist)) as [Hnames Hrows].
  apply Forall_forall. intros row Hrow.
  destruct (Object_values_In _ row Hrow) as [k Hk].
  destruct (Hrows k row Hk) as [Hkey Hshow]. now rewrite Hkey.
Qed.

(** X18. The sheet of the Excel report has one row for each distinct key
    (date, modality and subcategory joined by underscores) of the records
    of the report, in the order in which the keys first appear; a row shows
    the date, the modality and the subcategory of the first record of its
    key and the number of records of its key. *)
Theorem sheet_rows_show (data : list RadiologyRecord) (specialist : jsstring) :
  map row_key (sheet_rows data specialist)
  = first_seen (map sheet_key (report_records data specialist)) /\
  Forall (fun row => shows (report_records data specialist) (row_key row) row)
         (sheet_rows data specialist).
Proof. split; [apply sheet_rows_keys | apply sheet_rows_shows]. Qed.

(** X19. The counts of the rows of the sheet of the Excel report add up to
    the number of records of the report. *)
Theorem sheet_rows_sum (data : list RadiologyRecord) (specialist : jsstring) :
  sum_list (map Cantidad (sheet_rows data specialist))
  = N.of_nat (List.length (report_records data specialist)).
Proof.
  pose proof (sheet_rows_keys data specialist) as Hnames.
  pose proof (sheet_rows_shows data specialist) as Hrows.
  set (records := report_records data specialist) in *.
  rewrite (sum_list_map_ext Cantidad
             (fun row => N.of_nat (List.length (sheet_group records (row_key row))))).
  - rewrite <- (map_map row_key (fun k => N.of_nat (List.length (sheet_group records k)))),
      Hnames.
    assert (E : N.of_nat (List.length records)
                = N.of_nat (List.length (filter (fun _ => true) records)))
      by (now rewrite filter_all).
    rewrite E, <- (partition_by_key sheet_key (fun _ => true)
                     (first_seen (map sheet_key records)) records).
    + apply sum_list_map_ext. intros k _. now rewrite (filter_all (fun _ => true)).
    + apply first_seen_NoDup.
    + intros r Hr. apply (proj2 (first_seen_In _ _)). now apply in_map.
  - intros row Hrow. rewrite Forall_forall in Hrows.
    destruct (Hrows row Hrow) as (r & rest & Hg & _ & _ & _ & Hc). now rewrite Hg.
Qed.

(** ** The list of specialists *)

Lemma code_unit_compare_refl (x : jsstring) : code_unit_compare x x = Eq.
Proof. induction x as [|a x IH]; cbn [code_unit_compare]; [|rewrite N.compare_refl]; auto. Qed.

Lemma code_unit_compare_eq (x y : jsstring) : code_unit_compare x y = Eq -> x = y.
Proof.
  revert y. induction x as [|a x IH]; intros [|b y]; cbn [code_unit_compare];
    try discriminate; [reflexivity|].
  destruct (a ?= b) eqn:E; try discriminate.
  apply N.compare_eq in E. subst b. intros H. now rewrite (IH y H).
Qed.

Lemma code_unit_compare_antisym (x y : jsstring) :
  code_unit_compare y x = CompOpp (code_unit_compare x y).
Proof.
  revert y. induction x as [|a x IH]; intros [|b y]; cbn [code_unit_compare]; try reflexivity.
  rewrite (N.compare_antisym a b). destruct (a ?= b); cbn [CompOpp]; auto.
Qed.

Lemma code_unit_compare_trans (x y z : jsstring) :
  code_unit_compare x y <> Gt -> code_unit_compare y z <> Gt ->
  code_unit_compare x z <> Gt.
Proof.
  revert y z. induction x as [|a x IH]; intros [|b y] [|c z]; cbn [code_unit_compare];
    try congruence.
  destruct (a ?= b) eqn:AB; destruct (b ?= c) eqn:BC; try congruence.
  - apply N.compare_eq in AB, BC. subst. rewrite N.compare_refl. apply IH.
  - apply N.compare_eq in AB. subst. rewrite BC. congruence.
  - apply N.compare_eq in BC. subst. rewrite AB. congruence.
  - rewrite N.compare_lt_iff in AB, BC.
    assert (L : a < c) by lia. apply N.compare_lt_iff in L. rewrite L. congruence.
Qed.

Lemma SortCompare_default (x y : jsstring) :
  (SortCompare default_compare x y <= 0)%Z <-> code_unit_compare x y <> Gt.
Proof.
  unfold SortCompare, default_compare.
  destruct (code_unit_compare x y); split; intros; try lia; congruence.
Qed.

Lemma default_compare_consistent (l : list jsstring) : consistent default_compare l.
Proof.
  repeat split.
  - intros a b _ _. unfold default_compare. destruct (code_unit_compare a b); discriminate.
  - intros a _. unfold SortCompare, default_compare. now rewrite code_unit_compare_refl.
  - unfold SortCompare, default_compare. rewrite (code_unit_compare_antisym a b).
    destruct (code_unit_compare a b); cbn [CompOpp]; lia.
  - unfold SortCompare, default_compare. rewrite (code_unit_compare_antisym a b).
    destruct (code_unit_compare a b); cbn [CompOpp]; lia.
  - intros a b c _ _ _. rewrite !SortCompare_default. apply code_unit_compare_trans.
Qed.

Lemma default_sort_sorted (l : list jsstring) :
  StronglySorted (fun a b => code_unit_compare a b <> Gt) (stable_sort default_compare l).
Proof.
  induction l as [|x l IH]; cbn [stable_sort fold_right]; [constructor|].
  fold (stable_sort default_compare l).
  induction IH as [|y r Hr IHr Hy]; cbn [insert_sorted]; [repeat constructor|].
  destruct (SortCompare default_compare x y <=? 0)%Z eqn:E.
  - apply Z.leb_le, SortCompare_default in E.
    constructor; [now constructor|]. constructor; [exact E|].
    eapply Forall_impl; [|exact Hy]. intros z Hz.
    now apply (code_unit_compare_trans x y z).
  - apply Z.leb_gt in E.
    assert (L : code_unit_compare y x <> Gt).
    { rewrite (code_unit_compare_antisym x y).
      unfold SortCompare, default_compare in E.
      destruct (code_unit_compare x y); cbn [CompOpp]; try lia; congruence. }
    constructor; [exact IHr|].
    eapply Permutation_Forall; [apply insert_sorted_perm|].
    constructor; [exact L | exact Hy].
Qed.

Lemma same_value_eq (v w : option jsstring) : same_value v w = true <-> v = w.
Proof.
  destruct v as [s|], w as [t|]; cbn [same_value]; try (split; congruence).
  rewrite jsstring_eqb_eq. split; congruence.
Qed.

Lemma Set_values_In (l : list (option jsstring)) (v : option jsstring) :
  In v (Set_values l) <-> In v l.
Proof.
  induction l as [|a l IH]; cbn [Set_values In]; [tauto|].
  rewrite filter_In, IH, negb_true_iff.
  destruct (same_value v a) eqn:E.
  - apply same_value_eq in E. subst. split; auto.
  - assert (a <> v) by (intros ->; rewrite (proj2 (same_value_eq v v) eq_refl) in E;
                        discriminate E).
    tauto.
Qed.

Lemma Set_values_NoDup (l : list (option jsstring)) : NoDup (Set_values l).
Proof.
  induction l as [|a l IH]; cbn [Set_values]; constructor.
  - rewrite filter_In, negb_true_iff. intros [_ H].
    rewrite (proj2 (same_value_eq a a) eq_refl) in H. discriminate H.
  - now apply NoDup_filter.
Qed.

Lemma strings_NoDup (l : list (option jsstring)) : NoDup l -> NoDup (strings l).
Proof.
  induction 1 as [|v l Hv Hl IH]; [constructor|].
  destruct v as [s|]; cbn; [|exact IH].
  constructor; [|exact IH]. intros H. apply Hv. now apply strings_In.
Qed.

(** X20. The list of specialists of the filter holds the names of the
    records that are not empty, each of them once, in strictly ascending
    order of their code units. *)
Theorem specialists_sorted (data : list RadiologyRecord) :
  StronglySorted (fun a b => code_unit_compare a b = Lt) (specialists data) /\
  forall s, In s (specialists data) <->
            s <> empty /\ exists d, In d data /\ realizado_por d = Some s.
Proof.
  destruct Array_sort_conforms as [Hperm Hstable]. unfold specialists.
  set (names := strings (filter truthy (Set_values (map realizado_por data)))).
  rewrite (Hstable _ default_compare names (default_compare_consistent names)).
  assert (Hnodup : NoDup names)
    by (apply strings_NoDup, NoDup_filter, Set_values_NoDup).
  assert (Hin : forall s, In s names <->
                  s <> empty /\ exists d, In d data /\ realizado_por d = Some s).
  { intros s. unfold names. rewrite strings_In, filter_In, Set_values_In, in_map_iff.
    split.
    - intros [(d & E & Hd) T]. split; [now destruct s | eauto].
    - intros [Hs (d & Hd & E)]. split; [eauto|]. destruct s; [now contradiction Hs | reflexivity]. }
  split.
  - pose proof (default_sort_sorted names) as S.
    assert (N : NoDup (stable_sort default_compare names))
      by (eapply Permutation_NoDup; [apply stable_sort_perm | exact Hnodup]).
    induction S as [|a r Sr IH Ha]; constructor.
    + apply IH. now inversion N.
    + inversion N as [|? ? Hnot _]; subst. rewrite Forall_forall in *.
      intros b Hb. specialize (Ha b Hb).
      destruct (code_unit_compare a b) eqn:E; [|reflexivity | now contradiction Ha].
      apply code_unit_compare_eq in E. subst b. contradiction.
  - intros s. rewrite <- Hin. split; intros H.
    + eapply Permutation_in; [symmetry; apply stable_sort_perm | exact H].
    + eapply Permutation_in; [apply stable_sort_perm | exact H].
Qed.

(** ** The header row of an upload *)

Lemma split_not_nil (sep : codeunit -> bool) (s : jsstring) : split sep s <> [].
Proof.
  destruct s as [|c r]; cbn [split]; [discriminate|].
  destruct (sep c); [discriminate|]. destruct (split sep r); discriminate.
Qed.

Lemma join_cons (sep a : jsstring) (r : list jsstring) :
  r <> [] -> join sep (a :: r) = a ++ sep ++ join sep r.
Proof. destruct r; [intros H; now contradiction H | reflexivity]. Qed.

Lemma join_split (s : jsstring) : join [10] (split is_line_feed s) = s.
Proof.
  induction s as [|c r IH]; [reflexivity|]. cbn [split].
  destruct (is_line_feed c) eqn:E.
  - apply N.eqb_eq in E. subst c.
    rewrite join_cons by apply split_not_nil. now rewrite IH.
  - pose proof (split_not_nil is_line_feed r) as Hne.
    destruct (split is_line_feed r) as [|p ps]; [now contradiction Hne|].
    destruct ps as [|q ps].
    + cbn [join] in *. now rewrite IH.
    + rewrite (join_cons _ (c :: p)) by discriminate.
      rewrite (join_cons _ p) in IH by discriminate. cbn [app]. now rewrite <- IH.
Qed.

Lemma join_app (sep : jsstring) (before : list jsstring) (h : jsstring)
      (rest : list jsstring) :
  join sep (before ++ h :: rest)
  = flat_map (fun line => line ++ sep) before ++ join sep (h :: rest).
Proof.
  induction before as [|b before IH]; [reflexivity|].
  cbn [app flat_map]. rewrite join_cons by (destruct before; discriminate).
  now rewrite IH, <- !app_assoc.
Qed.

Lemma findIndex_None {A : Type} (p : A -> bool) (l : list A) :
  findIndex p l = None <-> Forall (fun a => p a = false) l.
Proof.
  induction l as [|a l IH]; cbn [findIndex]; [split; auto|].
  destruct (p a) eqn:E.
  - split; [discriminate|]. intros H. inversion H; congruence.
  - destruct (findIndex p l); cbn [option_map].
    + split; [discriminate|]. intros H. inversion H; subst.
      assert (X : Some n = None) by now apply IH. discriminate X.
    + split; [|reflexivity]. intros _. constructor; [exact E | now apply IH].
Qed.

Lemma findIndex_Some {A : Type} (p : A -> bool) (l : list A) (i : nat) :
  findIndex p l = Some i ->
  exists h rest,
    l = firstn i l ++ h :: rest /\ skipn i l = h :: rest /\
    Forall (fun a => p a = false) (firstn i l) /\ p h = true.
Proof.
  revert i. induction l as [|a l IH]; intros i; cbn [findIndex]; [discriminate|].
  destruct (p a) eqn:E.
  - intros H. injection H as <-. exists a, l. repeat split; auto.
  - destruct (findIndex p l) as [j|]; cbn [option_map]; [|discriminate].
    intros H. injection H as <-.
    destruct (IH j eq_refl) as (h & rest & Hl & Hs & Hf & Hh).
    exists h, rest. cbn [firstn skipn app]. repeat split; auto.
    now rewrite <- Hl.
Qed.

(** X21. Of the text of an upload the handler keeps the part from the
    first line that holds a header keyword once normalized to the end,
    unchanged, and drops the lines before it, none of which holds one;
    when no line holds one nothing is parsed. *)
Theorem validCsv_from_header (text : jsstring) :
  (validCsv text = None <->
   Forall (fun line => is_header_line line = false) (split is_line_feed text)) /\
  (forall csv,
      validCsv text = Some csv ->
      exists before header rest,
        split is_line_feed text = before ++ header :: rest /\
        Forall (fun line => is_header_line line = false) before /\
        is_header_line header = true /\
        csv = join [10] (header :: rest) /\
        text = flat_map (fun line => line ++ [10]) before ++ csv).
Proof.
  unfold validCsv. split.
  - rewrite <- findIndex_None.
    destruct (findIndex is_header_line (split is_line_feed text)); split; congruence.
  - intros csv H.
    destruct (findIndex is_header_line (split is_line_feed text)) as [i|] eqn:F;
      [|discriminate H].
    injection H as <-.
    destruct (findIndex_Some _ _ _ F) as (h & rest & Hl & Hs & Hf & Hh).
    exists (firstn i (split is_line_feed text)), h, rest.
    rewrite Hs. repeat split; auto.
    rewrite <- join_app, <- Hl. symmetry. apply join_split.
Qed.

(** ** The screen and the Word report *)

Lemma report_key_named (r : RadiologyRecord) :
  truthy (realizado_por r) = true -> report_key r = specialist_key r.
Proof.
  unfold report_key, specialist_key.
  destruct (realizado_por r) as [[|c s]|]; try discriminate; reflexivity.
Qed.

(** X22. When every record names its specialist, the table of the Word
    report for All and the summaries of [getSummaryBySpecialist] hold the
    same specialists with the same totals, in an order that may differ; a
    record without a name is counted under SIN ASIGNAR by the summaries
    and under N/A by the report. *)
Theorem report_agrees_with_summaries (data : list RadiologyRecord)
        (out : list SummaryBySpecialist) :
  ((forall r, In r data -> truthy (realizado_por r) = true) ->
   getSummaryBySpecialist data = Normal out ->
   Permutation (map (fun s => (specialist s, totalStudies s)) out)
               (map (fun row => (name row, total row)) (report_rows data (js "All")))) /\
  (forall r, truthy (realizado_por r) = false ->
             specialist_key r = js "SIN ASIGNAR" /\ report_key r = js "N/A").
Proof.
  split.
  - intros Hnamed Hout.
    pose proof (getSummaryBySpecialist_Normal data out Hout) as Hown.
    destruct (getSummaryBySpecialist_grouping data Hown) as (grouped & Hg & E).
    rewrite Hout in E. injection E as ->.
    rewrite <- (Permutation_map _ (stable_sort_perm by_total_descending _)).
    assert (Hkeys : map report_key data = map specialist_key data)
      by (apply map_ext_in; intros r Hr; now apply report_key_named, Hnamed).
    assert (Hnames : report_names data = groups_first_seen data).
    { unfold report_names, groups_first_seen. rewrite Hkeys. f_equal.
      apply filter_all. intros k Hk. apply in_map_iff in Hk as (r & <- & Hr).
      now rewrite (Hown r Hr). }
    assert (Hleft : map (fun s => (specialist s, totalStudies s)) (Object_values grouped)
                    = map (fun k => (k, studies data k))
                          (OrdinaryOwnPropertyKeys (groups_first_seen data))).
    { rewrite <- (values_names data grouped Hg), map_map. apply map_ext_in.
      intros s Hs. pose proof (values_summarize data grouped Hg) as F.
      rewrite Forall_forall in F. destruct (F s Hs) as (_ & Ht & _). now rewrite Ht. }
    assert (Hright : map (fun row => (name row, total row)) (report_rows data (js "All"))
                     = map (fun k => (k, studies data k))
                           (OrdinaryOwnPropertyKeys (groups_first_seen data))).
    { pose proof (report_rows_names data (js "All")) as Hn.
      pose proof (report_rows_tallies data (js "All")) as F.
      change (report_records data (js "All")) with data in Hn, F.
      rewrite <- Hnames, <- Hn, map_map. apply map_ext_in.
      intros row Hrow. rewrite Forall_forall in F. destruct (F row Hrow) as (_ & Ht & _).
      rewrite Ht. f_equal. unfold studies, group, report_group. do 2 f_equal.
      apply filter_ext_in. intros r Hr. unfold in_group.
      now rewrite (report_key_named r (Hnamed r Hr)). }
    rewrite Hleft, Hright. reflexivity.
  - intros r H. unfold specialist_key, report_key.
    destruct (realizado_por r) as [[|c s]|]; try discriminate H; split; reflexivity.
Qed.

End Engine.

(* ================================================================== *)
(** * The properties at the reference engine *)

(** ** The reference engine conforms *)

Lemma Date_parse_iso_conforms : parse_conforms Date_parse_iso.
Proof. intros s t H. exact H. Qed.

Lemma below_128 (c : N) : c < 128 -> In c (map N.of_nat (seq 0 128)).
Proof.
  intros H. rewrite <- (N2Nat.id c). apply in_map, in_seq. lia.
Qed.

Lemma ucd_latin_basic_latin : basic_latin ucd_latin.
Proof.
  assert (H : forallb (fun c => code_points_eqb (canonical_decomposition ucd_latin c) [c]
                                && (combining_class ucd_latin c =? 0))
                      (map N.of_nat (seq 0 128)) = true)
    by (vm_compute; reflexivity).
  intros c Hc. rewrite forallb_forall in H.
  specialize (H c (below_128 c Hc)). apply andb_prop in H as [D K].
  apply code_points_eqb_eq in D. apply N.eqb_eq in K. now repeat split.
Qed.

Lemma ucd_latin_latin1 : latin1 ucd_latin.
Proof.
  split; [|repeat split].
  intros c Hc. split; [reflexivity|]. split; [|reflexivity].
  assert (H : forallb (fun c => combining_class ucd_latin c =? 0)
                      (map N.of_nat (seq 0 256)) = true)
    by (vm_compute; reflexivity).
  rewrite forallb_forall in H. apply N.eqb_eq, H.
  rewrite <- (N2Nat.id c). apply in_map, in_seq. lia.
Qed.

(** [Forall P l] for a list that evaluates, an element at a time. *)
Ltac each_element tac :=
  match goal with
  | |- Forall ?P ?l =>
      let l' := eval vm_compute in l in
      change (Forall P l');
      repeat (apply Forall_cons; [cbv beta; tac|]);
      apply Forall_nil
  end.

Ltac is_settled := unfold settled; repeat split; reflexivity.

Ltac by_cases_on H :=
  repeat (destruct H as [<- | H]; [reflexivity|]); contradiction H.

(** ** The classifier *)

(** An ultrasound whose description mentions contrast. *)
Lemma classifyRecord_contrast_keyword_witness :
  classifier_modality ucd_latin
    (study "DRA. PEREZ" "us" "Eco renal (con contraste)" "2024-01-10" STANDARD)
  = js "US" /\
  classifyRecord ucd_latin [] []
    (study "DRA. PEREZ" "us" "Eco renal (con contraste)" "2024-01-10" STANDARD)
  = with_subcategory
      (study "DRA. PEREZ" "us" "Eco renal (con contraste)" "2024-01-10" STANDARD)
      CONTRASTADOS.
Proof.
  split; [reflexivity|].
  apply (classifyRecord_contrast_keyword ucd_latin [] []).
  left. vm_compute. reflexivity.
Defined.

(** C2 fails as it is stated: an ultrasound whose description mentions
    contrast is classified CONTRASTADOS. *)
Lemma classifyRecord_US_not_always_standard :
  ~ (forall (U : UnicodeData)
            (ESPECIALES_PROCEDURES CONTRASTADOS_PROCEDURES : list jsstring)
            (record : RadiologyRecord),
       classifier_modality U record = js "US" \/ classifier_modality U record = js "MG" ->
       subcategory (classifyRecord U ESPECIALES_PROCEDURES CONTRASTADOS_PROCEDURES record)
       = STANDARD).
Proof.
  intros H.
  specialize (H ucd_latin [] []
                (study "DRA. PEREZ" "US" "Eco renal con contraste" "2024-01-10" STANDARD)).
  assert (E : CONTRASTADOS = STANDARD) by (apply H; left; reflexivity).
  discriminate E.
Qed.

Lemma classifyRecord_US_MG_standard_witness :
  classifyRecord ucd_latin [] []
    (study "DR. RUIZ" " mg " "Mamografia bilateral" "10/01/2024" CONTRASTADOS)
  = with_subcategory
      (study "DR. RUIZ" " mg " "Mamografia bilateral" "10/01/2024" CONTRASTADOS)
      STANDARD.
Proof.
  apply (classifyRecord_US_MG_standard ucd_latin [] []).
  - right. vm_compute. reflexivity.
  - vm_compute. reflexivity.
  - vm_compute. reflexivity.
Defined.

(** ** The summaries *)

Lemma subcategory_counts_sum_witness :
  exists out,
    getSummaryBySpecialist ucd_latin (@stable_sort)
      [ study "DR. RUIZ" "CT" "TAC con contraste" "2024-01-10" CONTRASTADOS;
        study "DRA. PEREZ" "CR" "Rx torax" "2024-01-11" STANDARD;
        study "DR. RUIZ" "CR" "Colon por enema" "2024-01-12" ESPECIALES ]
    = Normal out /\
    Forall (fun s => exists c e t,
                subcategories s
                = [ (js "CONTRASTADOS", c); (js "ESPECIALES", e); (js "STANDARD", t) ] /\
                c + e + t = totalStudies s) out.
Proof.
  destruct (subcategory_counts_sum ucd_latin (@stable_sort) stable_sort_conforms
              [ study "DR. RUIZ" "CT" "TAC con contraste" "2024-01-10" CONTRASTADOS;
                study "DRA. PEREZ" "CR" "Rx torax" "2024-01-11" STANDARD;
                study "DR. RUIZ" "CR" "Colon por enema" "2024-01-12" ESPECIALES ])
    as [Hreturns Hsum].
  destruct Hreturns as [out Hout].
  - intros r Hr. cbn [In] in Hr. by_cases_on Hr.
  - exists out. split; [exact Hout | exact (Hsum out Hout)].
Defined.

(** C4 fails as it is stated: the specialists named 2 and 1, first seen in
    that order with one study each, are returned in the order 1, 2. *)
Lemma ties_not_in_first_seen_order :
  ~ (forall (U : UnicodeData)
            (Array_sort : forall A : Type, (A -> A -> JSNumber) -> list A -> list A),
       sort_conforms Array_sort ->
       forall data out,
         getSummaryBySpecialist U Array_sort data = Normal out ->
         forall n,
           map specialist (filter (fun s => totalStudies s =? n) out)
           = filter (fun k => studies data k =? n) (groups_first_seen data)).
Proof.
  intros H.
  specialize (H ucd_latin (@stable_sort) stable_sort_conforms
                [ study "2" "CT" "TAC" "2024-01-10" STANDARD;
                  study "1" "CT" "TAC" "2024-01-11" STANDARD ]
                _ eq_refl 1).
  vm_compute in H. discriminate H.
Qed.

(** Two, five and five studies of A, B and C. *)
Lemma getSummaryBySpecialist_order_witness :
  exists out,
    getSummaryBySpecialist ucd_latin (@stable_sort)
      ([ study "A" "CT" "TAC" "2024-01-10" STANDARD;
         study "B" "US" "ECO" "2024-01-10" STANDARD;
         study "C" "CR" "RX" "2024-01-10" STANDARD;
         study "A" "CT" "TAC" "2024-01-11" STANDARD ]
       ++ repeat (study "B" "US" "ECO" "2024-01-12" STANDARD) 4
       ++ repeat (study "C" "CR" "RX" "2024-01-12" STANDARD) 4)
    = Normal out /\
    map specialist out = [js "B"; js "C"; js "A"].
Proof.
  destruct (getSummaryBySpecialist_order ucd_latin (@stable_sort) stable_sort_conforms
              ([ study "A" "CT" "TAC" "2024-01-10" STANDARD;
                 study "B" "US" "ECO" "2024-01-10" STANDARD;
                 study "C" "CR" "RX" "2024-01-10" STANDARD;
                 study "A" "CT" "TAC" "2024-01-11" STANDARD ]
               ++ repeat (study "B" "US" "ECO" "2024-01-12" STANDARD) 4
               ++ repeat (study "C" "CR" "RX" "2024-01-12" STANDARD) 4))
    as (out & Hout & _ & _ & _ & _ & _ & Habc).
  - intros r Hr. cbn [In app repeat] in Hr. by_cases_on Hr.
  - exists out. split; [exact Hout|]. apply Habc; reflexivity.
Defined.

(** C8 fails as it is stated: a study of modality XR, which is not one of
    the allowed modalities, is counted under XR, and nothing under N/A. *)
Lemma unrecognized_modality_not_under_NA :
  existsb (jsstring_eqb
             (modality_key ucd_latin (study "DR. RUIZ" "xr" "RX" "2024-01-10" STANDARD)))
          ALLOWED_MODALITIES = false /\
  exists s,
    getSummaryBySpecialist ucd_latin (@stable_sort)
      [ study "DR. RUIZ" "xr" "RX" "2024-01-10" STANDARD ] = Normal [s] /\
    get_own (modalities s) (js "XR") = Some 1 /\
    get_own (modalities s) (js "N/A") = None.
Proof.
  split; [reflexivity|]. eexists. split; [reflexivity|]. split; reflexivity.
Qed.

Lemma modality_counts_witness :
  (exists out,
     getSummaryBySpecialist ucd_latin (@stable_sort)
       [ study "DR. RUIZ" " ct" "TAC" "2024-01-10" STANDARD;
         study "DR. RUIZ" "" "TAC" "2024-01-11" STANDARD ] = Normal out /\
     Forall (fun s => forall m,
                 get_own (modalities s) m
                 = counted (List.length
                              (filter (has_modality ucd_latin m)
                                 (group [ study "DR. RUIZ" " ct" "TAC" "2024-01-10" STANDARD;
                                          study "DR. RUIZ" "" "TAC" "2024-01-11" STANDARD ]
                                        (specialist s))))) out) /\
  modality_key ucd_latin (study "DR. RUIZ" "" "TAC" "2024-01-11" STANDARD) = js "N/A" /\
  modality_key ucd_latin (study "DR. RUIZ" " ct" "TAC" "2024-01-10" STANDARD)
  = toUpperCase ucd_latin (trim (js " ct")).
Proof.
  destruct (modality_counts ucd_latin (@stable_sort) stable_sort_conforms
              [ study "DR. RUIZ" " ct" "TAC" "2024-01-10" STANDARD;
                study "DR. RUIZ" "" "TAC" "2024-01-11" STANDARD ])
    as (Hcounts & Hmissing & Hown).
  - intros r Hr. cbn [In] in Hr. by_cases_on Hr.
  - split; [exact Hcounts|]. split.
    + apply (Hmissing ucd_latin_basic_latin). right. reflexivity.
    + apply Hown; [reflexivity | discriminate].
Defined.

(** C10 fails as it is stated: a specialist whose name reads SIN ASIGNAR is
    counted in the summary SIN ASIGNAR, with the record whose name is
    empty. *)
Lemma sentinel_bucket_not_only_unnamed :
  ~ (forall (U : UnicodeData)
            (Array_sort : forall A : Type, (A -> A -> JSNumber) -> list A -> list A),
       sort_conforms Array_sort ->
       forall data out,
         getSummaryBySpecialist U Array_sort data = Normal out ->
         (existsb whitespace_name data = true ->
          exists s, In s out /\ specialist s = empty) /\
         (forall s, In s out -> specialist s = js "SIN ASIGNAR" ->
                    totalStudies s
                    = N.of_nat (List.length
                                  (filter (fun r => negb (truthy (realizado_por r)))
                                          data)))).
Proof.
  intros H.
  destruct (H ucd_latin (@stable_sort) stable_sort_conforms
              [ study "" "CT" "TAC" "2024-01-10" STANDARD;
                study " SIN ASIGNAR " "CT" "TAC" "2024-01-11" STANDARD ]
              _ eq_refl) as [_ Honly].
  specialize (Honly _ (or_introl eq_refl) eq_refl).
  vm_compute in Honly. discriminate Honly.
Qed.

(** A name of white space only, a name that is empty, and a name that
    reads SIN ASIGNAR. *)
Lemma whitespace_specialist_bucket_witness :
  exists out,
    getSummaryBySpecialist ucd_latin (@stable_sort)
      [ study "  " "CT" "TAC" "2024-01-10" STANDARD;
        study "" "CT" "TAC" "2024-01-10" STANDARD;
        study "DR. RUIZ" "CR" "RX" "2024-01-11" STANDARD;
        study " SIN ASIGNAR " "US" "ECO" "2024-01-12" STANDARD ]
    = Normal out /\
    (exists s, In s out /\ specialist s = empty /\ totalStudies s = 1) /\
    (exists s, In s out /\ specialist s = js "SIN ASIGNAR" /\ totalStudies s = 2).
Proof.
  destruct (whitespace_specialist_bucket ucd_latin (@stable_sort) stable_sort_conforms
              [ study "  " "CT" "TAC" "2024-01-10" STANDARD;
                study "" "CT" "TAC" "2024-01-10" STANDARD;
                study "DR. RUIZ" "CR" "RX" "2024-01-11" STANDARD;
                study " SIN ASIGNAR " "US" "ECO" "2024-01-12" STANDARD ])
    as (out & Hout & _ & W1 & W2 & U1 & U2 & _).
  - intros r Hr. cbn [In] in Hr. by_cases_on Hr.
  - exists out. split; [exact Hout|]. split.
    + destruct (W1 eq_refl) as (s & Hs & Hk). exists s.
      split; [exact Hs|]. split; [exact Hk | exact (W2 s Hs Hk)].
    + destruct (U1 eq_refl) as (s & Hs & Hk). exists s.
      split; [exact Hs|]. split; [exact Hk | exact (U2 s Hs Hk)].
Defined.

(** ** The date range *)

Lemma dateRange_original_strings_witness :
  dateRange Date_parse_iso (@stable_sort)
    [ study "DR. RUIZ" "CT" "TAC" "15/03/2024" STANDARD;
      study "DR. RUIZ" "CT" "TAC" "2024-01-10" STANDARD;
      study "DR. RUIZ" "CT" "TAC" "20/02/2024" STANDARD ]
  = {| min := Some (js "2024-01-10"); max := Some (js "15/03/2024") |}.
Proof.
  apply (proj1 (dateRange_original_strings Date_parse_iso (@stable_sort)
                  stable_sort_conforms Date_parse_iso_conforms)).
  reflexivity.
Defined.

Lemma compareDates_total_witness :
  compareDates Date_parse_iso (js "sin fecha") (js "2024-01-10") = NaN /\
  SortCompare (compareDates Date_parse_iso) (js "sin fecha") (js "2024-01-10") = 0%Z /\
  SortCompare (compareDates Date_parse_iso) (js "2024-01-10") (js "sin fecha") = 0%Z.
Proof.
  apply (proj2 (compareDates_total Date_parse_iso (js "sin fecha") (js "2024-01-10"))).
  left. reflexivity.
Defined.

Lemma dateRange_sentinels_witness :
  dateRange Date_parse_iso (@stable_sort)
    [ study "DR. RUIZ" "CT" "TAC" "  " STANDARD;
      study "DR. RUIZ" "CT" "TAC" "" STANDARD ]
  = {| min := Some (js "N/A"); max := Some (js "N/A") |}.
Proof.
  apply (proj1 (proj2 (dateRange_sentinels Date_parse_iso (@stable_sort)))).
  - discriminate.
  - intros d Hd. cbn [In] in Hd. by_cases_on Hd.
Defined.

(** ** Normalization *)

(** C9 fails as it is stated: a, COMBINING CYRILLIC TITLO, COMBINING
    GRAPHEME JOINER, HEBREW ACCENT ETNAHTA. *)
Lemma normalize_not_idempotent :
  normalize ucd_latin (normalize ucd_latin [0x61; 0x483; 0x34F; 0x591])
  <> normalize ucd_latin [0x61; 0x483; 0x34F; 0x591].
Proof. vm_compute. discriminate. Qed.

(** A description with an accent, a character of a supplementary plane
    (U+1F600, as the pair D83D DE00), a Hebrew accent of class 220 after a
    letter, and a surrogate without its pair; then descriptions of Basic
    Latin and of Latin-1. *)
Lemma normalize_idempotent_witness :
  normalize ucd_latin
    (normalize ucd_latin
       (js "T" ++ [243] ++ js "rax (tac) " ++ [0xD83D; 0xDE00] ++ js " a"
        ++ [0x591; 0xD83D]))
  = normalize ucd_latin
      (js "T" ++ [243] ++ js "rax (tac) " ++ [0xD83D; 0xDE00] ++ js " a"
       ++ [0x591; 0xD83D]) /\
  normalize ucd_latin (normalize ucd_latin (js "Rx. de torax; AP-lateral"))
  = normalize ucd_latin (js "Rx. de torax; AP-lateral") /\
  normalize ucd_latin (normalize ucd_latin (js "Ri" ++ [241] ++ js "on - v" ++ [237] ++ js "as"))
  = normalize ucd_latin (js "Ri" ++ [241] ++ js "on - v" ++ [237] ++ js "as").
Proof.
  split; [|split].
  - apply (proj1 (normalize_idempotent ucd_latin
                    (js "T" ++ [243] ++ js "rax (tac) " ++ [0xD83D; 0xDE00] ++ js " a"
                     ++ [0x591; 0xD83D]))).
    + repeat split; reflexivity.
    + reflexivity.
    + each_element reflexivity.
    + each_element ltac:(idtac; repeat split; reflexivity).
    + vm_compute. reflexivity.
  - apply (proj1 (proj2 (normalize_idempotent ucd_latin (js "Rx. de torax; AP-lateral")))).
    + exact ucd_latin_basic_latin.
    + each_element reflexivity.
  - apply (proj2 (proj2 (normalize_idempotent ucd_latin
                           (js "Ri" ++ [241] ++ js "on - v" ++ [237] ++ js "as")))).
    + exact ucd_latin_latin1.
    + each_element reflexivity.
Defined.

(** ** Examples of the specification *)

Example normalize_torax :
  normalize ucd_latin (js "T" ++ [243] ++ js "rax (Contraste)") = js "TORAX CONTRASTE".
Proof. reflexivity. Qed.

Example classifyRecord_twice (U : UnicodeData)
        (ESPECIALES_PROCEDURES CONTRASTADOS_PROCEDURES : list jsstring)
        (record : RadiologyRecord) :
  classifyRecord U ESPECIALES_PROCEDURES CONTRASTADOS_PROCEDURES
    (classifyRecord U ESPECIALES_PROCEDURES CONTRASTADOS_PROCEDURES record)
  = classifyRecord U ESPECIALES_PROCEDURES CONTRASTADOS_PROCEDURES record.
Proof. reflexivity. Qed.

Example getSummaryBySpecialist_constructor :
  getSummaryBySpecialist ucd_latin (@stable_sort)
    [ study "constructor" "CT" "TAC" "2024-01-10" STANDARD ] = Throw_TypeError.
Proof. reflexivity. Qed.

Example getSummaryBySpecialist_empty :
  getSummaryBySpecialist ucd_latin (@stable_sort) [] = Normal [].
Proof. reflexivity. Qed.

(* ================================================================== *)
(** * The rest of the engine at the reference engine *)

Lemma ucd_latin_upper_case : upper_case_without_lower ucd_latin.
Proof.
  intros c e He. change (In e (latin1_upper c)) in He. unfold latin1_upper in He.
  unfold is_lower_case_letter.
  destruct ((97 <=? c) && (c <=? 122)) eqn:A.
  { destruct He as [<- | []]. apply andb_prop in A as [A1 A2].
    apply N.leb_le in A1, A2. apply andb_false_iff. left. apply N.leb_gt. lia. }
  destruct (c =? 181) eqn:B; [destruct He as [<- | []]; reflexivity|].
  destruct (c =? 223) eqn:C; [destruct He as [<- | [<- | []]]; reflexivity|].
  destruct (c =? 247) eqn:D; [destruct He as [<- | []]; exact A|].
  destruct ((224 <=? c) && (c <=? 254)) eqn:E.
  { destruct He as [<- | []]. apply andb_prop in E as [E1 E2].
    apply N.leb_le in E1, E2. apply andb_false_iff. right. apply N.leb_gt. lia. }
  destruct (c =? 255) eqn:F; [destruct He as [<- | []]; reflexivity|].
  destruct He as [<- | []]. exact A.
Qed.

(** ** The summaries *)

Lemma modality_counts_sum_witness :
  exists out,
    getSummaryBySpecialist ucd_latin (@stable_sort)
      [ study "DR. RUIZ" "CT" "TAC con contraste" "2024-01-10" CONTRASTADOS;
        study "DRA. PEREZ" "cr" "Rx torax" "2024-01-11" STANDARD;
        study "DR. RUIZ" "CR" "Colon por enema" "2024-01-12" ESPECIALES;
        study "DR. RUIZ" " ct " "TAC simple" "2024-01-12" STANDARD ]
    = Normal out /\
    Forall (fun s => sum_values (modalities s) = totalStudies s /\
                     Forall (fun e => 1 <= snd e) (modalities s)) out.
Proof.
  eexists. split; [vm_compute; reflexivity|].
  apply (modality_counts_sum ucd_latin (@stable_sort) stable_sort_conforms
           [ study "DR. RUIZ" "CT" "TAC con contraste" "2024-01-10" CONTRASTADOS;
             study "DRA. PEREZ" "cr" "Rx torax" "2024-01-11" STANDARD;
             study "DR. RUIZ" "CR" "Colon por enema" "2024-01-12" ESPECIALES;
             study "DR. RUIZ" " ct " "TAC simple" "2024-01-12" STANDARD ]).
  vm_compute. reflexivity.
Defined.

Lemma totals_cover_records_witness :
  exists out,
    getSummaryBySpecialist ucd_latin (@stable_sort)
      [ study "DR. RUIZ" "CT" "TAC" "2024-01-10" STANDARD;
        study "DRA. PEREZ" "CR" "Rx torax" "2024-01-11" STANDARD;
        study " DR. RUIZ " "US" "Eco" "2024-01-12" STANDARD ]
    = Normal out /\
    sum_list (map totalStudies out) = 3.
Proof.
  eexists. split; [vm_compute; reflexivity|].
  apply (totals_cover_records ucd_latin (@stable_sort) stable_sort_conforms
           [ study "DR. RUIZ" "CT" "TAC" "2024-01-10" STANDARD;
             study "DRA. PEREZ" "CR" "Rx torax" "2024-01-11" STANDARD;
             study " DR. RUIZ " "US" "Eco" "2024-01-12" STANDARD ]).
  vm_compute. reflexivity.
Defined.

Lemma subcategory_counts_cover_witness :
  exists out,
    getSummaryBySpecialist ucd_latin (@stable_sort)
      [ study "DR. RUIZ" "CT" "TAC con contraste" "2024-01-10" CONTRASTADOS;
        study "DRA. PEREZ" "CT" "Angiotac" "2024-01-11" CONTRASTADOS;
        study "DR. RUIZ" "CR" "Colon por enema" "2024-01-12" ESPECIALES ]
    = Normal out /\
    sum_list (map (fun s => subcategory_count s CONTRASTADOS) out) = 2 /\
    sum_list (map (fun s => subcategory_count s ESPECIALES) out) = 1.
Proof.
  eexists. split; [vm_compute; reflexivity|].
  apply (subcategory_counts_cover ucd_latin (@stable_sort) stable_sort_conforms
           [ study "DR. RUIZ" "CT" "TAC con contraste" "2024-01-10" CONTRASTADOS;
             study "DRA. PEREZ" "CT" "Angiotac" "2024-01-11" CONTRASTADOS;
             study "DR. RUIZ" "CR" "Colon por enema" "2024-01-12" ESPECIALES ]).
  vm_compute. reflexivity.
Defined.

(** A specialist named toString, after one of another name. *)
Lemma getSummaryBySpecialist_throws_iff_witness :
  getSummaryBySpecialist ucd_latin (@stable_sort)
    [ study "DR. RUIZ" "CT" "TAC" "2024-01-10" STANDARD;
      study " toString" "CR" "Rx torax" "2024-01-11" STANDARD ]
  = Throw_TypeError.
Proof.
  apply (proj2 (getSummaryBySpecialist_throws_iff ucd_latin (@stable_sort)
                  stable_sort_conforms
                  [ study "DR. RUIZ" "CT" "TAC" "2024-01-10" STANDARD;
                    study " toString" "CR" "Rx torax" "2024-01-11" STANDARD ])).
  exists (study " toString" "CR" "Rx torax" "2024-01-11" STANDARD).
  split; [right; left; reflexivity | vm_compute; reflexivity].
Defined.

(** ** The classifier *)

Lemma classifyRecord_sources_witness :
  classifier_modality ucd_latin
    (study "DR. RUIZ" "cr" "Colon por enema" "2024-01-12" STANDARD) = js "CR" /\
  includes (normalized_description ucd_latin
              (study "DR. RUIZ" "cr" "Colon por enema" "2024-01-12" STANDARD))
           (js "CONTRASTE") = false /\
  includes (normalized_description ucd_latin
              (study "DR. RUIZ" "cr" "Colon por enema" "2024-01-12" STANDARD))
           (js "CONTRASTADO") = false /\
  exists p, In p [js "Urografia"; js "Colon por enema"] /\
            includes (normalized_description ucd_latin
                        (study "DR. RUIZ" "cr" "Colon por enema" "2024-01-12" STANDARD))
                     (normalize ucd_latin p) = true.
Proof.
  apply (proj1 (classifyRecord_sources ucd_latin
                  [js "Urografia"; js "Colon por enema"] [js "Angiotac"]
                  (study "DR. RUIZ" "cr" "Colon por enema" "2024-01-12" STANDARD))).
  vm_compute. reflexivity.
Defined.

(** A list of procedures with an entry that is a hyphen. *)
Lemma empty_procedure_matches_all_witness :
  subcategory (classifyRecord ucd_latin [] [js "Angiotac"; js " - "]
                 (study "DR. RUIZ" "CT" "TAC simple de craneo" "2024-01-12" STANDARD))
  = CONTRASTADOS.
Proof.
  apply (proj1 (empty_procedure_matches_all ucd_latin [] [js "Angiotac"; js " - "]
                  (study "DR. RUIZ" "CT" "TAC simple de craneo" "2024-01-12" STANDARD))).
  - exists (js " - "). split; [right; left; reflexivity | vm_compute; reflexivity].
  - vm_compute. reflexivity.
Defined.

Lemma normalize_shape_witness :
  Forall (fun c => is_lower_case_letter c = false)
         (normalize ucd_latin (js "  Rx. de t" ++ [243] ++ js "rax   (PA)  ")).
Proof.
  apply (proj2 (proj2 (proj2 (proj2
           (normalize_shape ucd_latin (js "  Rx. de t" ++ [243] ++ js "rax   (PA)  ")))))).
  exact ucd_latin_upper_case.
Defined.

(** ** The dates *)

Lemma parseDate_day_first_witness :
  parseDate Date_parse_iso (js "15/03/2024") = Date_parse_iso (js "2024-03-15") /\
  parseDate Date_parse_iso (js "2024-03-15") = Date_parse_iso (js "2024-03-15") /\
  SortCompare (compareDates Date_parse_iso) (js "15/03/2024") (js "2024-03-15") = 0%Z.
Proof.
  apply (parseDate_day_first Date_parse_iso (js "15") (js "03") (js "2024") 47 47);
    reflexivity.
Defined.

Lemma dateRange_chronological_witness :
  exists lo hi tlo thi,
    dateRange Date_parse_iso (@stable_sort)
      [ study "DR. RUIZ" "CT" "TAC" "15/03/2024" STANDARD;
        study "DR. RUIZ" "CT" "TAC" "2024-01-10" STANDARD;
        study "DR. RUIZ" "CT" "TAC" "20/02/2024" STANDARD ]
    = {| min := Some lo; max := Some hi |} /\
    parseDate Date_parse_iso lo = Some tlo /\
    parseDate Date_parse_iso hi = Some thi /\
    forall d t,
      In d (validDates [ study "DR. RUIZ" "CT" "TAC" "15/03/2024" STANDARD;
                         study "DR. RUIZ" "CT" "TAC" "2024-01-10" STANDARD;
                         study "DR. RUIZ" "CT" "TAC" "20/02/2024" STANDARD ]) ->
      parseDate Date_parse_iso d = Some t -> (tlo <= t /\ t <= thi)%Z.
Proof.
  apply (dateRange_chronological Date_parse_iso (@stable_sort) stable_sort_conforms
           [ study "DR. RUIZ" "CT" "TAC" "15/03/2024" STANDARD;
             study "DR. RUIZ" "CT" "TAC" "2024-01-10" STANDARD;
             study "DR. RUIZ" "CT" "TAC" "20/02/2024" STANDARD ]).
  - discriminate.
  - intros d Hd. cbn [validDates strings flat_map map filter fecha_realizado study] in Hd.
    vm_compute in Hd.
    repeat (destruct Hd as [<- | Hd]; [vm_compute; discriminate|]). contradiction Hd.
Defined.

(** ** The records of an upload and of the screen *)

Lemma cleanData_modalities_witness :
  exists out,
    getSummaryBySpecialist ucd_latin (@stable_sort)
      (cleanData ucd_latin
         [ study "DR. RUIZ" " ct" "TAC" "2024-01-10" STANDARD;
           study "DR. RUIZ" "XR" "RX" "2024-01-11" STANDARD;
           study "DRA. PEREZ" "us" "Eco" "2024-01-11" STANDARD ])
    = Normal out /\
    forall s m n, In s out -> get_own (modalities s) m = Some n ->
                  In m ALLOWED_MODALITIES /\ m <> js "N/A".
Proof.
  eexists. split; [vm_compute; reflexivity|].
  apply (proj2 (cleanData_modalities ucd_latin (@stable_sort) stable_sort_conforms
                  [ study "DR. RUIZ" " ct" "TAC" "2024-01-10" STANDARD;
                    study "DR. RUIZ" "XR" "RX" "2024-01-11" STANDARD;
                    study "DRA. PEREZ" "us" "Eco" "2024-01-11" STANDARD ])).
  vm_compute. reflexivity.
Defined.

Lemma filteredData_empty_search_witness :
  filteredData (fun s => s)
    [ study "DR. RUIZ" "CT" "TAC" "2024-01-10" STANDARD;
      study "DRA. PEREZ" "US" "Eco" "2024-01-11" STANDARD ]
    (js "DR. RUIZ") empty
  = filter (fun d => strict_equal (realizado_por d) (js "DR. RUIZ"))
      [ study "DR. RUIZ" "CT" "TAC" "2024-01-10" STANDARD;
        study "DRA. PEREZ" "US" "Eco" "2024-01-11" STANDARD ].
Proof.
  apply (proj2 (filteredData_empty_search (fun s => s)
                  [ study "DR. RUIZ" "CT" "TAC" "2024-01-10" STANDARD;
                    study "DRA. PEREZ" "US" "Eco" "2024-01-11" STANDARD ]
                  (js "DR. RUIZ"))).
  discriminate.
Defined.

Lemma selected_specialist_summary_witness :
  exists s,
    getSummaryBySpecialist ucd_latin (@stable_sort)
      (filteredData (fun s => s)
         [ study "DR. RUIZ" "CT" "TAC" "2024-01-10" STANDARD;
           study "DRA. PEREZ" "US" "Eco" "2024-01-11" STANDARD;
           study "DR. RUIZ" "CR" "Rx torax" "2024-01-12" STANDARD ]
         (js "DR. RUIZ") (js "P-0"))
    = Normal [s] /\
    specialist s = trim (or_else (Some (js "DR. RUIZ")) (js "SIN ASIGNAR")) /\
    totalStudies s
    = N.of_nat (List.length
                  (filteredData (fun s => s)
                     [ study "DR. RUIZ" "CT" "TAC" "2024-01-10" STANDARD;
                       study "DRA. PEREZ" "US" "Eco" "2024-01-11" STANDARD;
                       study "DR. RUIZ" "CR" "Rx torax" "2024-01-12" STANDARD ]
                     (js "DR. RUIZ") (js "P-0"))).
Proof.
  apply (proj1 (selected_specialist_summary ucd_latin (@stable_sort) stable_sort_conforms
                  (fun s => s)
                  [ study "DR. RUIZ" "CT" "TAC" "2024-01-10" STANDARD;
                    study "DRA. PEREZ" "US" "Eco" "2024-01-11" STANDARD;
                    study "DR. RUIZ" "CR" "Rx torax" "2024-01-12" STANDARD ]
                  (js "DR. RUIZ") (js "P-0")
                  ltac:(discriminate) ltac:(vm_compute; discriminate))).
  vm_compute. reflexivity.
Defined.

Lemma specialists_sorted_witness :
  StronglySorted (fun a b => code_unit_compare a b = Lt)
    (specialists (@stable_sort)
       [ study "DRA. PEREZ" "US" "Eco" "2024-01-11" STANDARD;
         study "DR. RUIZ" "CT" "TAC" "2024-01-10" STANDARD;
         study "DRA. PEREZ" "CR" "Rx torax" "2024-01-12" STANDARD ]).
Proof.
  apply (proj1 (specialists_sorted (@stable_sort) stable_sort_conforms
                  [ study "DRA. PEREZ" "US" "Eco" "2024-01-11" STANDARD;
                    study "DR. RUIZ" "CT" "TAC" "2024-01-10" STANDARD;
                    study "DRA. PEREZ" "CR" "Rx torax" "2024-01-12" STANDARD ])).
Defined.

(** A title line before the header row. *)
Lemma validCsv_from_header_witness :
  exists before header rest,
    split is_line_feed
      (js "Reporte de estudios" ++ [10] ++ js "Id. Paciente|Modalidad" ++ [10] ++ js "1|CT")
    = before ++ header :: rest /\
    Forall (fun line => is_header_line ucd_latin line = false) before /\
    is_header_line ucd_latin header = true /\
    js "Id. Paciente|Modalidad" ++ [10] ++ js "1|CT" = join [10] (header :: rest) /\
    js "Reporte de estudios" ++ [10] ++ js "Id. Paciente|Modalidad" ++ [10] ++ js "1|CT"
    = flat_map (fun line => line ++ [10]) before
      ++ js "Id. Paciente|Modalidad" ++ [10] ++ js "1|CT".
Proof.
  apply (proj2 (validCsv_from_header ucd_latin
                  (js "Reporte de estudios" ++ [10] ++ js "Id. Paciente|Modalidad"
                   ++ [10] ++ js "1|CT"))).
  vm_compute. reflexivity.
Defined.

Lemma report_agrees_with_summaries_witness :
  exists out,
    getSummaryBySpecialist ucd_latin (@stable_sort)
      [ study "DR. RUIZ" "CT" "TAC" "2024-01-10" STANDARD;
        study "DRA. PEREZ" "US" "Eco" "2024-01-11" STANDARD;
        study "DRA. PEREZ" "CR" "Rx torax" "2024-01-12" STANDARD ]
    = Normal out /\
    Permutation
      (map (fun s => (specialist s, totalStudies s)) out)
      (map (fun row => (name row, total row))
           (report_rows ucd_latin
              [ study "DR. RUIZ" "CT" "TAC" "2024-01-10" STANDARD;
                study "DRA. PEREZ" "US" "Eco" "2024-01-11" STANDARD;
                study "DRA. PEREZ" "CR" "Rx torax" "2024-01-12" STANDARD ]
              (js "All"))).
Proof.
  eexists. split; [vm_compute; reflexivity|].
  apply (proj1 (report_agrees_with_summaries ucd_latin (@stable_sort) stable_sort_conforms
                  [ study "DR. RUIZ" "CT" "TAC" "2024-01-10" STANDARD;
                    study "DRA. PEREZ" "US" "Eco" "2024-01-11" STANDARD;
                    study "DRA. PEREZ" "CR" "Rx torax" "2024-01-12" STANDARD ]
                  _)).
  - intros r Hr. cbn [In] in Hr. by_cases_on Hr.
  - vm_compute. reflexivity.
Defined.
